(** * Snapchat Memories Downloader: a shallow embedding of
      [download_memories.py] and the properties of its resumable
      download pipeline.

    The Python module is modelled function by function.  Pure helpers
    ([is_zip_file], [get_file_extension]) are plain functions; code that
    can raise returns a [result]; code that touches the network, the
    output directory, the ledger document or the in-memory ledger runs in
    a state-and-exception monad [M] over an explicit [State].  Everything
    the program cannot decide by itself (HTTP responses, archive decoding,
    file-system failures, whether the ledger document can be written,
    whether standard output takes a message, the host's time zone) is an
    argument.  Of the messages the script prints, those printed inside an
    [except] block are modelled, since an exception of [print] there
    leaves the handler; the progress messages are not.

    A [str] is a [string] whose characters are the code points below 256;
    on these [lower], [strip] and the regular expressions of [strptime]
    are the ones of Python. *)

From Stdlib Require Import ZArith Lia Bool.
From Stdlib Require Import Strings.String Strings.Ascii Strings.Byte DecimalString DecimalPos.
From stdpp Require Import gmap strings list fin_maps.

Local Open Scope string_scope.
Local Open Scope Z_scope.

(* ===================================================================== *)
(** * Python values, exceptions and results                               *)
(* ===================================================================== *)

(** A [bytes] object. *)
Abbreviation bytes := (list byte).

#[global] Instance byte_eq_decision : EqDecision byte := Byte.byte_eq_dec.

(** The exception classes that play a role in the module.  Subclasses are
    folded into the class the [except] clauses name: [HTTPError],
    [ConnectionError] and [Timeout] are [RequestException];
    [PermissionError] and [FileNotFoundError] are [OSError]. *)
Inductive exn_class : Type :=
  | OSError
  | RequestException
  | BadZipFile
  | ValueError
  | AttributeError
  | IndexError
  | KeyError
  | RuntimeError
  | NotImplementedError.

#[global] Instance exn_class_eq_decision : EqDecision exn_class.
Proof. solve_decision. Defined.

(** An exception object: its class and [str(e)]. *)
Record exn : Type := Exn { exn_cls : exn_class; exn_msg : string }.

(** The outcome of evaluating an expression: a value or a raised
    exception. *)
Inductive result (A : Type) : Type :=
  | Ok (a : A)
  | Raise (e : exn).
Arguments Ok {A} a.
Arguments Raise {A} e.

Definition result_bind {A B} (r : result A) (k : A -> result B) : result B :=
  match r with
  | Ok a => k a
  | Raise e => Raise e
  end.

(** [try: body except classes: handler]. *)
Definition try_except {A} (body : result A) (classes : list exn_class)
    (handler : exn -> result A) : result A :=
  match body with
  | Ok a => Ok a
  | Raise e => if bool_decide (exn_cls e ∈ classes) then handler e else Raise e
  end.

(** The values a date field can hold: [metadata['date']] comes from the
    HTML parser (a [str]) or from [json.load] of the ledger document
    (any JSON value). *)
#[warnings="-register-all"]
Inductive pyobj : Type :=
  | PyNone
  | PyBool (b : bool)
  | PyInt (n : Z)
  | PyFloat (mantissa exponent : Z)
  | PyStr (s : string)
  | PyList (items : list pyobj)
  | PyDict (items : list (string * pyobj)).

(* ===================================================================== *)
(** * String helpers ([str.lower], [in], [str.replace], [f"{n:02d}"])     *)
(* ===================================================================== *)

(** [c.lower()] for a code point below 256: the capitals [A]-[Z], and the
    accented capitals from U+00C0 to U+00DE (the sign U+00D7 is none). *)
Definition ascii_lower (c : ascii) : ascii :=
  let n := nat_of_ascii c in
  if ((65 <=? n) && (n <=? 90) ||
      (192 <=? n) && (n <=? 222) && negb (n =? 215))%nat
  then ascii_of_nat (n + 32) else c.

(** [s.lower()] *)
Fixpoint lower (s : string) : string :=
  match s with
  | EmptyString => EmptyString
  | String c s' => String (ascii_lower c) (lower s')
  end.

(** [sub in s]. *)
Fixpoint contains (sub s : string) : bool :=
  String.prefix sub s ||
  match s with
  | EmptyString => false
  | String _ s' => contains sub s'
  end.

(** [s.replace(old, new)] for a non-empty [old]: occurrences are replaced
    from left to right and do not overlap.  [skip] counts the characters
    of the occurrence just replaced that are still to be dropped. *)
Fixpoint replace_from (old new : string) (skip : nat) (s : string) : string :=
  match s with
  | EmptyString => EmptyString
  | String c s' =>
      match skip with
      | S k => replace_from old new k s'
      | O =>
          if String.prefix old s
          then new +:+ replace_from old new (String.length old - 1) s'
          else String c (replace_from old new O s')
      end
  end.

Definition replace (old new s : string) : string := replace_from old new O s.

(** [f"{n:02d}"]: decimal, zero-padded to width two, the sign counting
    towards the width. *)
Definition format_02d (n : Z) : string :=
  let digits := NilZero.string_of_int (Z.to_int n) in
  if (String.length digits <? 2)%nat then "0" +:+ digits else digits.

(* ===================================================================== *)
(** * [is_zip_file] and [get_file_extension]                              *)
(* ===================================================================== *)

(** The literal [b'PK']. *)
Definition PK : bytes := [x50; x4b].

(** [content[:2] == b'PK'] *)
Definition is_zip_file (content : bytes) : bool :=
  bool_decide (take 2 content = PK).

Definition get_file_extension (media_type : string) : string :=
  if bool_decide (media_type = "Video") then ".mp4" else ".jpg".

(* ===================================================================== *)
(** * Dates: [datetime.strptime] and [datetime.timestamp]                 *)
(* ===================================================================== *)

(** A naive [datetime] (no [tzinfo], microsecond 0). *)
Record datetime : Type := Datetime {
  year : Z; month : Z; day : Z; hour : Z; minute : Z; second : Z
}.

Definition is_leap (y : Z) : bool :=
  (y mod 4 =? 0) && (negb (y mod 100 =? 0) || (y mod 400 =? 0)).

Definition days_in_month (y m : Z) : Z :=
  if m =? 2 then (if is_leap y then 29 else 28)
  else if (m =? 4) || (m =? 6) || (m =? 9) || (m =? 11) then 30
  else 31.

(** Number of days in the year before the first day of month [m]. *)
Definition days_before_month (y m : Z) : Z :=
  nth (Z.to_nat (m - 1)) [0; 31; 59; 90; 120; 151; 181; 212; 243; 273; 304; 334] 0
  + (if (2 <? m) && is_leap y then 1 else 0).

(** Number of days before January 1st of year [y]. *)
Definition days_before_year (y : Z) : Z :=
  let p := y - 1 in p * 365 + p / 4 - p / 100 + p / 400.

(** Proleptic Gregorian ordinal: 0001-01-01 is day 1. *)
Definition ymd2ord (y m d : Z) : Z :=
  days_before_year y + days_before_month y m + d.

(** [(dt - datetime(1970, 1, 1)) // timedelta(0, 1)]: the digits of [dt]
    read as a count of seconds since 1970-01-01 00:00:00 on the same
    clock. *)
Definition wall_seconds (dt : datetime) : Z :=
  (ymd2ord (year dt) (month dt) (day dt) - ymd2ord 1970 1 1) * 86400
  + hour dt * 3600 + minute dt * 60 + second dt.

(** The constructor [datetime(y, m, d, hh, mm, ss)] checks its fields. *)
Definition datetime_new (y m d hh mm ss : Z) : result datetime :=
  if negb ((1 <=? y) && (y <=? 9999)) then
    Raise (Exn ValueError "year is out of range")
  else if negb ((1 <=? m) && (m <=? 12)) then
    Raise (Exn ValueError "month must be in 1..12")
  else if negb ((1 <=? d) && (d <=? days_in_month y m)) then
    Raise (Exn ValueError "day is out of range for month")
  else if negb ((0 <=? hh) && (hh <=? 23)) then
    Raise (Exn ValueError "hour must be in 0..23")
  else if negb ((0 <=? mm) && (mm <=? 59)) then
    Raise (Exn ValueError "minute must be in 0..59")
  else if negb ((0 <=? ss) && (ss <=? 59)) then
    Raise (Exn ValueError "second must be in 0..59")
  else Ok (Datetime y m d hh mm ss).

(** ** The regular expression of ['%Y-%m-%d %H:%M:%S']

    [strptime] turns the format into a regular expression, one group per
    directive, and matches it at the start of the string.  A matcher
    returns every way to match a prefix, in the order a backtracking
    engine tries them: the value read and the rest of the string. *)
Definition matcher (A : Type) : Type := string -> list (A * string).

Definition in_range (lo hi c : ascii) : bool :=
  ((nat_of_ascii lo <=? nat_of_ascii c) && (nat_of_ascii c <=? nat_of_ascii hi))%nat.

Definition digit_value (c : ascii) : Z := Z.of_nat (nat_of_ascii c) - 48.

(** [\s], and the characters [str.strip] removes: the white space below
    256 (tab to carriage return, the four separators, the blank, U+0085
    and U+00A0). *)
Definition is_space (c : ascii) : bool :=
  let n := nat_of_ascii c in
  ((9 <=? n) && (n <=? 13) || (28 <=? n) && (n <=? 32) ||
   (n =? 133) || (n =? 160))%nat.

(** One digit in [[lo-hi]] (below 256 the decimal digits are [0]-[9]). *)
Definition digit_in (lo hi : ascii) : matcher Z := fun s =>
  match s with
  | String c s' => if in_range lo hi c then [(digit_value c, s')] else []
  | EmptyString => []
  end.

(** A literal character of the format. *)
Definition lit (c : ascii) : matcher unit := fun s =>
  match s with
  | String c' s' => if bool_decide (c' = c) then [(tt, s')] else []
  | EmptyString => []
  end.

Definition mseq {A B} (p : matcher A) (k : A -> matcher B) : matcher B := fun s =>
  flat_map (fun '(a, s') => k a s') (p s).

Definition malt {A} (p q : matcher A) : matcher A := fun s => (p s ++ q s)%list.

Definition mret {A} (a : A) : matcher A := fun s => [(a, s)].

(** Two digits, the first in [[a-b]] and the second in [[c-d]]. *)
Definition two_digits (a b c d : ascii) : matcher Z :=
  mseq (digit_in a b) (fun x => mseq (digit_in c d) (fun y => mret (10 * x + y))).

(** [\s+], greedy: the longest run of white space first. *)
Fixpoint spaces (s : string) : list (unit * string) :=
  match s with
  | String c s' => if is_space c then (spaces s' ++ [(tt, s')])%list else []
  | EmptyString => []
  end.

(** [%Y]: [\d\d\d\d] *)
Definition re_Y : matcher Z :=
  mseq (two_digits "0" "9" "0" "9") (fun hi =>
  mseq (two_digits "0" "9" "0" "9") (fun lo => mret (100 * hi + lo))).

(** [%m]: [1[0-2]|0[1-9]|[1-9]] *)
Definition re_m : matcher Z :=
  malt (two_digits "1" "1" "0" "2")
 (malt (two_digits "0" "0" "1" "9") (digit_in "1" "9")).

(** [%d]: [3[0-1]|[1-2]\d|0[1-9]|[1-9]| [1-9]] *)
Definition re_d : matcher Z :=
  malt (two_digits "3" "3" "0" "1")
 (malt (two_digits "1" "2" "0" "9")
 (malt (two_digits "0" "0" "1" "9")
 (malt (digit_in "1" "9")
       (mseq (lit " ") (fun _ => digit_in "1" "9"))))).

(** [%H]: [2[0-3]|[0-1]\d|\d] *)
Definition re_H : matcher Z :=
  malt (two_digits "2" "2" "0" "3")
 (malt (two_digits "0" "1" "0" "9") (digit_in "0" "9")).

(** [%M]: [[0-5]\d|\d] *)
Definition re_M : matcher Z :=
  malt (two_digits "0" "5" "0" "9") (digit_in "0" "9").

(** [%S]: [6[0-1]|[0-5]\d|\d] *)
Definition re_S : matcher Z :=
  malt (two_digits "6" "6" "0" "1")
 (malt (two_digits "0" "5" "0" "9") (digit_in "0" "9")).

(** The whole format; the blank of the format has become [\s+]. *)
Definition re_format : matcher (Z * Z * Z * Z * Z * Z) :=
  mseq re_Y (fun y => mseq (lit "-") (fun _ =>
  mseq re_m (fun m => mseq (lit "-") (fun _ =>
  mseq re_d (fun d => mseq spaces (fun _ =>
  mseq re_H (fun hh => mseq (lit ":") (fun _ =>
  mseq re_M (fun mm => mseq (lit ":") (fun _ =>
  mseq re_S (fun ss => mret (y, m, d, hh, mm, ss)))))))))))).

(** [datetime.strptime(s, '%Y-%m-%d %H:%M:%S')]: the first match of the
    regular expression must consume the whole string, and the fields must
    make a date ([%S] admits 60 and 61, the constructor does not). *)
Definition strptime (s : string) : result datetime :=
  match re_format s with
  | [] => Raise (Exn ValueError "time data does not match format")
  | ((y, m, d, hh, mm, ss), rest) :: _ =>
      if bool_decide (rest = "")
      then datetime_new y m d hh mm ss
      else Raise (Exn ValueError "unconverted data remains")
  end.

(** ** The host's time zone

    [utcoffset u] is the offset of the host's local time from UTC, in
    seconds east, at the instant [u] (seconds since the epoch): what
    [time.localtime] applies.  A host set to UTC has offset 0 throughout. *)
Definition timezone : Type := Z -> Z.

Definition min_wall : Z := wall_seconds (Datetime 1 1 1 0 0 0).
Definition max_wall : Z := wall_seconds (Datetime 9999 12 31 23 59 59).

(** [local(u)] of [datetime._mktime]: the host's wall clock at instant
    [u], as seconds on that clock; the [datetime] it builds on the way
    must have a year in 1..9999. *)
Definition local (tz : timezone) (u : Z) : result Z :=
  let t := u + tz u in
  if (min_wall <=? t) && (t <=? max_wall) then Ok t
  else Raise (Exn ValueError "year is out of range").

(** [datetime._mktime] for [fold = 0]: solve [local(u) = t] for [u]. *)
Definition mktime (tz : timezone) (dt : datetime) : result Z :=
  let t := wall_seconds dt in
  result_bind (local tz t) (fun lt =>
  let a := lt - t in
  let u1 := t - a in
  result_bind (local tz u1) (fun t1 =>
  let finish (b : Z) : result Z :=
    let u2 := t - b in
    result_bind (local tz u2) (fun t2 =>
    if t2 =? t then Ok u2
    else if t1 =? t then Ok u1
    else Ok (Z.max u1 u2)) in
  if t1 =? t then
    let u2 := u1 - 24 * 3600 in
    result_bind (local tz u2) (fun lt2 =>
    let b := lt2 - u2 in
    if a =? b then Ok u1 else finish b)
  else finish (t1 - u1))).

(** [dt.timestamp()] of a naive [datetime]: the digits are taken as the
    host's local time.  The value is a float with no fractional part. *)
Definition timestamp (tz : timezone) (dt : datetime) : result Z := mktime tz dt.

(** [date_str.replace(' UTC', '')]: only a [str] has the method. *)
Definition py_replace (v : pyobj) (old new : string) : result string :=
  match v with
  | PyStr s => Ok (replace old new s)
  | _ => Raise (Exn AttributeError "object has no attribute 'replace'")
  end.

(** What [print] is given inside an [except] block, before it is
    formatted and encoded. *)
Inductive Message : Type :=
  (** [f"    Warning: Could not parse date '{date_str}': {e}"] *)
  | Warning (date_str : pyobj) (e : exn)
  (** a message whose text is known *)
  | Line (text : string).

(** Standard output as a caller finds it: [None] when [print] writes the
    message, the exception it raises otherwise ([UnicodeEncodeError], a
    [ValueError], when the stream cannot encode the text; an [OSError]
    or a [ValueError] when the stream is broken or closed). *)
Definition Stdout : Type := Message -> option exn.

(** [print(..)] *)
Definition print_to {A} (out : Stdout) (msg : Message) (k : result A) : result A :=
  match out msg with
  | Some e => Raise e
  | None => k
  end.

(** The handler prints the warning before it returns [None]; an exception
    of [print] leaves the handler and the function. *)
Definition parse_date_to_timestamp (out : Stdout) (tz : timezone) (date_str : pyobj)
    : result (option Z) :=
  try_except
    (result_bind (py_replace date_str " UTC" "") (fun date_str_clean =>
     result_bind (strptime date_str_clean) (fun dt =>
     result_bind (timestamp tz dt) (fun t =>
     Ok (Some t)))))
    [ValueError; AttributeError]
    (fun e => print_to out (Warning date_str e) (Ok None)).

(** A standard output that takes every message. *)
Definition quiet : Stdout := fun _ => None.

(** The instant a date string names when its digits are read as UTC. *)
Definition utc_instant (dt : datetime) : Z := wall_seconds dt.

Definition UTC : timezone := fun _ => 0.
Definition fixed_offset (seconds_east : Z) : timezone := fun _ => seconds_east.

(* ===================================================================== *)
(** * The ledger, the output directory and the environment                *)
(* ===================================================================== *)

(** One element of [files_saved]: [{'path': .., 'size': .., 'type': ..}]. *)
Record FileRef : Type := mkFileRef {
  fr_path : string;
  fr_size : nat;
  fr_type : string
}.

(** A row of the export, as the HTML parser delivers it: [url] and [date]
    are always present, the other keys may be missing. *)
Record Memory : Type := mkMemory {
  m_date : string;
  m_url : string;
  m_media_type : option string;
  m_latitude : option string;
  m_longitude : option string
}.

(** A metadata entry of the ledger. *)
Record Entry : Type := mkEntry {
  number : Z;
  date : string;
  media_type : string;
  latitude : string;
  longitude : string;
  url : string;
  status : string;
  files : list FileRef;
  error : option string
}.

Definition set_status (s : string) (e : Entry) : Entry :=
  mkEntry (number e) (date e) (media_type e) (latitude e) (longitude e)
          (url e) s (files e) (error e).

Definition set_files (fs : list FileRef) (e : Entry) : Entry :=
  mkEntry (number e) (date e) (media_type e) (latitude e) (longitude e)
          (url e) (status e) fs (error e).

Definition set_error (msg : string) (e : Entry) : Entry :=
  mkEntry (number e) (date e) (media_type e) (latitude e) (longitude e)
          (url e) (status e) (files e) (Some msg).

(** What a run does that can be observed from outside, in order. *)
Inductive Event : Type :=
  | EvGet (u : string)                     (* requests.get(u) *)
  | EvWrite (path : string)                (* a file of the output directory is written *)
  | EvUtime (path : string) (t : Z)        (* os.utime(path, (t, t)) *)
  | EvStatus (idx : nat) (s : string)      (* metadata_list[idx]['status'] = s *)
  | EvSave (doc : list Entry).             (* metadata.json is rewritten *)

(** A decoded archive: its members in directory order, each with the
    outcome of reading it ([zf.read] raises for an encrypted or damaged
    member). *)
Definition Archive : Type := list (string * result bytes).

(** [zf.namelist()] *)
Definition namelist (zf : Archive) : list string := zf.*1.

(** [zf.read(name)]: the archive's name table keeps, for a name that
    occurs twice, the later member. *)
Fixpoint zf_read (zf : Archive) (name : string) : result bytes :=
  match zf with
  | [] => Raise (Exn KeyError "There is no item named that in the archive")
  | (n, data) :: rest =>
      if bool_decide (name ∈ namelist rest) then zf_read rest name
      else if bool_decide (n = name) then data
      else zf_read rest name
  end.

(** The environment of a run.  Each answer may depend on how much has
    happened so far ([nat]: the number of events before the call). *)
Record World : Type := mkWorld {
  (** [requests.get(url, ..)], [raise_for_status()] and [.content] *)
  requests_get : nat -> string -> result bytes;
  (** [zipfile.ZipFile(io.BytesIO(content))] *)
  ZipFile : nat -> bytes -> result Archive;
  (** [open(path, 'wb')] and [f.write]: [None] when the file is written *)
  open_wb : nat -> string -> option exn;
  (** [os.utime(path, ..)]: [None] when the times are set *)
  os_utime : nat -> string -> option exn;
  (** [open(metadata_file, 'w', ..)]: [None] when the document is opened,
      which empties it *)
  open_w : nat -> option exn;
  (** [json.dump(metadata_list, f, ..)] and the closing of [f]: [None]
      when the whole ledger has reached the document *)
  json_dump : nat -> list Entry -> option exn;
  (** [json.load(f)] on a document that holds no complete ledger raises
      this ([JSONDecodeError], a [ValueError]) *)
  json_load : exn;
  (** standard output, for the messages of the [except] blocks *)
  stdout : nat -> Stdout
}.

(** The ledger document [metadata.json]: no such file, a file that holds
    a whole ledger, or a file that a write which did not finish has left
    empty or cut short. *)
Inductive Document : Type :=
  | Absent
  | Stored (doc : list Entry)
  | Truncated.

(** The document when there is none or a whole one. *)
Definition document (d : option (list Entry)) : Document :=
  match d with
  | Some doc => Stored doc
  | None => Absent
  end.

(** The mutable state of a run: the in-memory ledger [metadata_list]
    (the dicts the loop mutates are the elements of this list), the ledger
    document, the media files of the output directory with their
    modification times, and the events so far. *)
Record State : Type := mkState {
  metadata_list : list Entry;
  metadata_json : Document;
  fs_files : gmap string bytes;
  fs_mtime : gmap string Z;
  trace : list Event
}.

Definition now (st : State) : nat := length (trace st).

Definition log (ev : Event) (st : State) : State :=
  mkState (metadata_list st) (metadata_json st) (fs_files st) (fs_mtime st)
          (trace st ++ [ev]).

(** ** The monad of effectful code *)
Definition M (A : Type) : Type := State -> result A * State.

Definition ret {A} (a : A) : M A := fun st => (Ok a, st).

Definition bind {A B} (m : M A) (k : A -> M B) : M B := fun st =>
  match m st with
  | (Ok a, st') => k a st'
  | (Raise e, st') => (Raise e, st')
  end.

Definition raise {A} (e : exn) : M A := fun st => (Raise e, st).

(** [try: body except classes as e: handler e]; what the body did before
    raising stays done. *)
Definition try_catch {A} (body : M A) (classes : list exn_class)
    (handler : exn -> M A) : M A := fun st =>
  match body st with
  | (Ok a, st') => (Ok a, st')
  | (Raise e, st') =>
      if bool_decide (exn_cls e ∈ classes) then handler e st' else (Raise e, st')
  end.

Definition lift {A} (r : result A) : M A := fun st => (r, st).

Declare Scope monad_scope.
Delimit Scope monad_scope with M.
Notation "'let!' x ':=' m 'in' k" := (bind m (fun x => k))
  (at level 10, x name, m at level 100, k at level 200) : monad_scope.
Notation "'run!' m 'in' k" := (bind m (fun _ => k))
  (at level 10, m at level 100, k at level 200) : monad_scope.
Local Open Scope monad_scope.

(** ** Primitive effects *)

Definition http_get (w : World) (u : string) : M bytes := fun st =>
  (requests_get w (now st) u, log (EvGet u) st).

Definition open_zip (w : World) (content : bytes) : M Archive := fun st =>
  (ZipFile w (now st) content, st).

(** [with open(output_path, 'wb') as f: f.write(data)] *)
Definition write_file (w : World) (path : string) (data : bytes) : M unit := fun st =>
  match open_wb w (now st) path with
  | Some e => (Raise e, st)
  | None =>
      (Ok tt,
       log (EvWrite path)
         (mkState (metadata_list st) (metadata_json st)
                  (<[path := data]> (fs_files st)) (fs_mtime st) (trace st)))
  end.

Definition utime (w : World) (path : string) (t : Z) : M unit := fun st =>
  match os_utime w (now st) path with
  | Some e => (Raise e, st)
  | None =>
      (Ok tt,
       log (EvUtime path t)
         (mkState (metadata_list st) (metadata_json st)
                  (fs_files st) (<[path := t]> (fs_mtime st)) (trace st)))
  end.

(** [with open(metadata_file, 'w', ..) as f: json.dump(l, f, ..)]: when
    [open] raises the document is as it was; when the dump or the closing
    raises the document is left cut short; otherwise [l] has replaced
    it. *)
Definition write_ledger (w : World) (l : list Entry) : M unit := fun st =>
  match open_w w (now st) with
  | Some e => (Raise e, st)
  | None =>
      match json_dump w (now st) l with
      | Some e =>
          (Raise e,
           mkState (metadata_list st) Truncated (fs_files st) (fs_mtime st) (trace st))
      | None =>
          (Ok tt,
           log (EvSave l)
             (mkState (metadata_list st) (Stored l)
                      (fs_files st) (fs_mtime st) (trace st)))
      end
  end.

(** [save_metadata]: the whole in-memory ledger is written. *)
Definition save_metadata (w : World) : M unit := fun st =>
  write_ledger w (metadata_list st) st.

(** [print(..)] inside an [except] block. *)
Definition print (w : World) (msg : Message) : M unit := fun st =>
  (print_to (stdout w (now st)) msg (Ok tt), st).

(** [metadata[..] = ..] on the dict that is [metadata_list[idx]]. *)
Definition update_entry (idx : nat) (f : Entry -> Entry) : M unit := fun st =>
  (Ok tt,
   mkState (alter f idx (metadata_list st)) (metadata_json st)
           (fs_files st) (fs_mtime st) (trace st)).

Definition mark_status (idx : nat) (s : string) : M unit := fun st =>
  update_entry idx (set_status s) (log (EvStatus idx s) st).

Definition get_metadata_list : M (list Entry) := fun st => (Ok (metadata_list st), st).

(* ===================================================================== *)
(** * [download_and_extract]                                              *)
(* ===================================================================== *)

Definition main_filename (file_num extension : string) : string :=
  file_num +:+ "-main" +:+ extension.

Definition overlay_filename (file_num extension : string) : string :=
  file_num +:+ "-overlay" +:+ extension.

(** The role and the output name of an archive member. *)
Definition classify (file_num extension zip_info : string) : string * string :=
  if contains "-overlay" (lower zip_info)
  then ("overlay", overlay_filename file_num extension)
  else ("main", main_filename file_num extension).

(** The body of [for zip_info in zf.namelist()], with [files_saved] as
    accumulator. *)
Fixpoint extract_members (w : World) (zf : Archive) (file_num extension : string)
    (names : list string) (files_saved : list FileRef) : M (list FileRef) :=
  match names with
  | [] => ret files_saved
  | zip_info :: names' =>
      let! file_data := lift (zf_read zf zip_info) in
      let '(file_type, output_filename) := classify file_num extension zip_info in
      run! write_file w output_filename file_data in
      extract_members w zf file_num extension names'
        (files_saved ++ [mkFileRef output_filename (length file_data) file_type])
  end.

Definition download_and_extract (w : World) (u file_num extension : string)
    : M (list FileRef) :=
  let! content := http_get w u in
  if is_zip_file content then
    let! zf := open_zip w content in
    extract_members w zf file_num extension (namelist zf) []
  else
    let output_filename := file_num +:+ extension in
    run! write_file w output_filename content in
    ret [mkFileRef output_filename (length content) "single"].

(* ===================================================================== *)
(** * The orchestrator: [initialize_metadata], [download_all_memories]    *)
(* ===================================================================== *)

(** [l[i]] for [i >= 0]. *)
Definition py_index {A} (l : list A) (i : nat) : result A :=
  match l !! i with
  | Some a => Ok a
  | None => Raise (Exn IndexError "list index out of range")
  end.

(** The entry seeded for the record at 1-based position [idx]. *)
Definition seed_entry (idx : Z) (memory : Memory) : Entry :=
  mkEntry idx
          (m_date memory)
          (default "Unknown" (m_media_type memory))
          (default "Unknown" (m_latitude memory))
          (default "Unknown" (m_longitude memory))
          (m_url memory)
          "pending"
          []
          None.

Definition seed (memories : list Memory) : list Entry :=
  imap (fun i memory => seed_entry (Z.of_nat (S i)) memory) memories.

(** [metadata_list = ..] *)
Definition set_metadata_list (l : list Entry) : M unit := fun st =>
  (Ok tt, mkState l (metadata_json st) (fs_files st) (fs_mtime st) (trace st)).

(** [initialize_metadata]: an existing document is loaded ([json.load]
    raises when it holds no whole ledger); otherwise every record is
    seeded, which builds [metadata_list] in memory, and then the document
    is written. *)
Definition initialize_metadata (w : World) (memories : list Memory) : M (list Entry) :=
  fun st =>
  match metadata_json st with
  | Stored doc => (Ok doc, st)
  | Truncated => (Raise (json_load w), st)
  | Absent =>
      (run! set_metadata_list (seed memories) in
       run! write_ledger w (seed memories) in
       ret (seed memories)) st
  end.

(** [enumerate(l)] *)
Definition enumerate {A} (l : list A) : list (nat * A) := imap pair l.

Definition resumable (m : Entry) : bool :=
  bool_decide (status m ∈ ["pending"; "in_progress"; "failed"]).

Definition is_failed (m : Entry) : bool := bool_decide (status m = "failed").

(** The selection of a run. *)
Definition items_to_download (resume retry_failed : bool) (l : list Entry)
    : list (nat * Entry) :=
  if resume then filter (fun im => resumable im.2 = true) (enumerate l)
  else if retry_failed then filter (fun im => is_failed im.2 = true) (enumerate l)
  else enumerate l.

(** [metadata.get('status') == 'success' and metadata.get('files')] *)
Definition already_downloaded (metadata : Entry) : bool :=
  bool_decide (status metadata = "success") &&
  negb (bool_decide (files metadata = [])).

(** [if timestamp:] is false for [None] and for [0.0]. *)
Definition truthy (timestamp : option Z) : bool :=
  match timestamp with
  | Some t => negb (t =? 0)
  | None => false
  end.

(** [for file_info in files_saved: set_file_timestamp(.., timestamp)] *)
Fixpoint set_file_timestamps (w : World) (files_saved : list FileRef) (t : Z) : M unit :=
  match files_saved with
  | [] => ret tt
  | file_info :: rest =>
      run! utime w (fr_path file_info) t in
      set_file_timestamps w rest t
  end.

(** [parse_date_to_timestamp(..)] with standard output as it is at the
    time of the call. *)
Definition parse_date (w : World) (tz : timezone) (date_str : pyobj) : M (option Z) :=
  fun st => (parse_date_to_timestamp (stdout w (now st)) tz date_str, st).

(** The [try] block of the loop. *)
Definition attempt (w : World) (tz : timezone) (idx : nat)
    (memory : Memory) (metadata : Entry) : M unit :=
  let file_num := format_02d (number metadata) in
  let extension := get_file_extension (media_type metadata) in
  let! files_saved := download_and_extract w (m_url memory) file_num extension in
  (* the report: [files_saved[0]] when there is at most one file *)
  run! (if (1 <? length files_saved)%nat then ret tt
        else let! downloaded_file := lift (py_index files_saved 0) in ret tt) in
  let! timestamp := parse_date w tz (PyStr (date metadata)) in
  run! (if truthy timestamp
        then set_file_timestamps w files_saved (default 0 timestamp)
        else ret tt) in
  run! mark_status idx "success" in
  update_entry idx (set_files files_saved).

(** The [except (OSError, requests.RequestException, zipfile.BadZipFile)]
    clause. *)
Definition caught : list exn_class := [OSError; RequestException; BadZipFile].

(** The text of [f"  ERROR: {str(e)}"]. *)
Definition error_line (e : exn) : string := "  ERROR: " +:+ exn_msg e.

Definition on_error (w : World) (idx : nat) (e : exn) : M unit :=
  run! print w (Line (error_line e)) in
  run! mark_status idx "failed" in
  update_entry idx (set_error (exn_msg e)).

(** [metadata['status'] = 'in_progress'] and the checkpoint that follows. *)
Definition begin_item (w : World) (idx : nat) : M unit :=
  run! mark_status idx "in_progress" in
  save_metadata w.

(** One iteration of [for count, (idx, metadata) in enumerate(items_to_download)].
    [metadata] is the dict at [metadata_list[idx]], read where it is used. *)
Definition process_item (w : World) (tz : timezone) (memories : list Memory)
    (idx : nat) : M unit :=
  let! memory := lift (py_index memories idx) in
  let! l := get_metadata_list in
  let! metadata := lift (py_index l idx) in
  if already_downloaded metadata then ret tt
  else
    run! begin_item w idx in
    run! try_catch (attempt w tz idx memory metadata) caught (on_error w idx) in
    save_metadata w.

Fixpoint process_items (w : World) (tz : timezone) (memories : list Memory)
    (items : list (nat * Entry)) : M unit :=
  match items with
  | [] => ret tt
  | (idx, _) :: rest =>
      run! process_item w tz memories idx in
      process_items w tz memories rest
  end.

(** [download_all_memories], from the parsed records on. *)
Definition download_all_memories (w : World) (tz : timezone)
    (memories : list Memory) (resume retry_failed : bool) : M unit :=
  match memories with
  | [] => ret tt
  | _ =>
      let! l := initialize_metadata w memories in
      run! set_metadata_list l in
      match items_to_download resume retry_failed l with
      | [] => ret tt
      | items =>
          run! process_items w tz memories items in
          save_metadata w
      end
  end.

(** The state in which a run starts: nothing loaded yet, no event yet. *)
Definition initial_state (doc : Document) (files : gmap string bytes)
    (mtimes : gmap string Z) : State :=
  mkState [] doc files mtimes [].

(* ===================================================================== *)
(** * Specification vocabulary                                            *)
(* ===================================================================== *)

(** The ledger invariant of one entry. *)
Definition entry_inv (e : Entry) : Prop :=
  files e <> [] <-> status e = "success".

(** Ledger documents the program can leave in an output directory: none
    before the first run; after a run started on such a document, the
    document at the end of the run (cut short when its last write
    failed) and every document the run wrote on the way (what is on disk
    if the run is interrupted there). *)
Inductive reachable : Document -> Prop :=
  | reach_fresh : reachable Absent
  | reach_run d w tz memories resume retry_failed fs mt :
      reachable d ->
      reachable (metadata_json
        (download_all_memories w tz memories resume retry_failed
           (initial_state d fs mt)).2)
  | reach_interrupted d w tz memories resume retry_failed fs mt doc :
      reachable d ->
      EvSave doc ∈ trace
        (download_all_memories w tz memories resume retry_failed
           (initial_state d fs mt)).2 ->
      reachable (Stored doc).

(** Reading a trace for durability: [pending] is the status transition
    that no rewrite of the document has covered yet.  A second transition
    before that rewrite, a rewrite that does not show the transition, or a
    transition left uncovered at the end make the trace fail. *)
Fixpoint durable_from (pending : option (nat * string)) (evs : list Event) : bool :=
  match evs with
  | [] => bool_decide (pending = None)
  | EvStatus i s :: rest =>
      match pending with
      | None => durable_from (Some (i, s)) rest
      | Some _ => false
      end
  | EvSave doc :: rest =>
      match pending with
      | Some (i, s) =>
          bool_decide (status <$> doc !! i = Some s) && durable_from None rest
      | None => durable_from None rest
      end
  | _ :: rest => durable_from pending rest
  end.

(** The bytes [zf.read(name)] delivers ([b''] when it raises). *)
Definition member_data (zf : Archive) (name : string) : bytes :=
  match zf_read zf name with
  | Ok data => data
  | Raise _ => []
  end.

(** The FileRef that the loop of [download_and_extract] appends for a
    member. *)
Definition member_ref (zf : Archive) (file_num extension name : string) : FileRef :=
  mkFileRef (classify file_num extension name).2
            (length (member_data zf name))
            (classify file_num extension name).1.

(** The output directory after the members [names] have been written in
    order. *)
Definition extracted (zf : Archive) (file_num extension : string)
    (names : list string) (fs : gmap string bytes) : gmap string bytes :=
  foldl (fun acc name =>
           <[(classify file_num extension name).2 := member_data zf name]> acc)
        fs names.

(** [sub] occurs in [s]. *)
Definition substring (sub s : string) : Prop :=
  exists pre post, s = pre +:+ sub +:+ post.

(** [a] is the character [b] or, when [b] is one of the letters [a]-[z],
    its capital. *)
Definition same_ignoring_case (a b : ascii) : Prop :=
  a = b \/
  (in_range "a" "z" b = true /\ (nat_of_ascii a + 32 = nat_of_ascii b)%nat).

(** [s] is [pattern] character by character, up to the case of the
    letters. *)
Fixpoint matches_ignoring_case (pattern s : string) : Prop :=
  match pattern, s with
  | EmptyString, EmptyString => True
  | String p pattern', String c s' =>
      same_ignoring_case c p /\ matches_ignoring_case pattern' s'
  | _, _ => False
  end.

(** [pattern] occurs in [s] up to the case of the letters: this is what
    "contains, case-insensitively" says for a pattern in small letters,
    with no reference to [lower]. *)
Definition occurs_ignoring_case (pattern s : string) : Prop :=
  exists pre mid post,
    s = pre +:+ mid +:+ post /\ matches_ignoring_case pattern mid.

(** Events of the network and of the output directory (neither a status
    transition nor a rewrite of the ledger document). *)
Definition io_event (ev : Event) : Prop :=
  match ev with
  | EvGet _ | EvWrite _ | EvUtime _ _ => True
  | EvStatus _ _ | EvSave _ => False
  end.

(** [st'] comes from [st] by input and output only: the in-memory ledger
    and the ledger document are the same. *)
Definition io_only (st st' : State) : Prop :=
  metadata_list st' = metadata_list st /\
  metadata_json st' = metadata_json st /\
  exists evs, trace st' = (trace st ++ evs)%list /\ Forall io_event evs.

(** All ledgers a state holds or has written satisfy the entry
    invariant. *)
Definition state_inv (st : State) : Prop :=
  Forall entry_inv (metadata_list st) /\
  (forall doc, metadata_json st = Stored doc -> Forall entry_inv doc) /\
  (forall doc, EvSave doc ∈ trace st -> Forall entry_inv doc).

(** An action that only does input and output, whatever its outcome. *)
Definition io_action {A} (m : M A) : Prop :=
  forall st r st', m st = (r, st') -> io_only st st'.

(** The ledger once the entry at [idx] has been marked ['in_progress']. *)
Definition started (idx : nat) (l : list Entry) : list Entry :=
  alter (set_status "in_progress") idx l.

(** The ledger once the started entry at [idx] has succeeded with
    [files_saved]. *)
Definition succeeded (idx : nat) (files_saved : list FileRef) (l : list Entry)
    : list Entry :=
  alter (set_files files_saved) idx (alter (set_status "success") idx (started idx l)).

(** The ledger once the started entry at [idx] has failed with [e]. *)
Definition failed (idx : nat) (e : exn) (l : list Entry) : list Entry :=
  alter (set_error (exn_msg e)) idx (alter (set_status "failed") idx (started idx l)).

(** The ledger document can be written throughout the run. *)
Definition ledger_writable (w : World) : Prop :=
  (forall n, open_w w n = None) /\ (forall n l, json_dump w n l = None).

(** [e] is an exception of a write of the ledger document. *)
Definition write_failure (w : World) (e : exn) : Prop :=
  exists n, open_w w n = Some e \/ exists l, json_dump w n l = Some e.

(** The result of a write of the ledger: it went through, or it raised
    the exception of a write. *)
Definition written_or_failed (w : World) (r : result unit) : Prop :=
  r = Ok tt \/ exists e, r = Raise e /\ write_failure w e.

(** The trace of a run so far is durable, or the run has just ended with
    the exception of a write of the ledger, its last transition being the
    only one that is not written. *)
Definition durable_or_ended (w : World) (r : result unit) (st : State) : Prop :=
  durable_from None (trace st) = true \/
  exists e i s tr,
    r = Raise e /\ write_failure w e /\
    trace st = (tr ++ [EvStatus i s])%list /\ durable_from None tr = true.

(** What one iteration of the loop can do to the state.  A write of the
    ledger that fails ends the iteration with the transition made in
    memory only, and the document as it was or cut short. *)
Inductive item_outcome (w : World) (idx : nat) (st : State)
    : result unit -> State -> Prop :=
  | item_untouched r :
      (* [memories[idx]] raised, or the entry was already downloaded *)
      item_outcome w idx st r st
  | item_not_started metadata e st' :
      (* the checkpoint could not be written *)
      metadata_list st !! idx = Some metadata ->
      already_downloaded metadata = false ->
      write_failure w e ->
      metadata_list st' = started idx (metadata_list st) ->
      metadata_json st' = metadata_json st \/ metadata_json st' = Truncated ->
      trace st' = (trace st ++ [EvStatus idx "in_progress"])%list ->
      item_outcome w idx st (Raise e) st'
  | item_aborted metadata e io st' :
      (* an exception the loop does not handle, or one of [print] in the
         handler *)
      metadata_list st !! idx = Some metadata ->
      already_downloaded metadata = false ->
      Forall io_event io ->
      metadata_list st' = started idx (metadata_list st) ->
      metadata_json st' = Stored (started idx (metadata_list st)) ->
      trace st' = (trace st ++ [EvStatus idx "in_progress";
                                EvSave (started idx (metadata_list st))] ++ io)%list ->
      item_outcome w idx st (Raise e) st'
  | item_success metadata files_saved io st' :
      metadata_list st !! idx = Some metadata ->
      already_downloaded metadata = false ->
      files_saved <> [] ->
      Forall io_event io ->
      metadata_list st' = succeeded idx files_saved (metadata_list st) ->
      metadata_json st' = Stored (succeeded idx files_saved (metadata_list st)) ->
      trace st' = (trace st ++ [EvStatus idx "in_progress";
                                EvSave (started idx (metadata_list st))] ++ io ++
                               [EvStatus idx "success";
                                EvSave (succeeded idx files_saved (metadata_list st))])%list ->
      item_outcome w idx st (Ok tt) st'
  | item_failed metadata e io st' :
      metadata_list st !! idx = Some metadata ->
      already_downloaded metadata = false ->
      exn_cls e ∈ caught ->
      Forall io_event io ->
      metadata_list st' = failed idx e (metadata_list st) ->
      metadata_json st' = Stored (failed idx e (metadata_list st)) ->
      trace st' = (trace st ++ [EvStatus idx "in_progress";
                                EvSave (started idx (metadata_list st))] ++ io ++
                               [EvStatus idx "failed";
                                EvSave (failed idx e (metadata_list st))])%list ->
      item_outcome w idx st (Ok tt) st'
  | item_success_unsaved metadata files_saved e io st' :
      (* the result could not be written *)
      metadata_list st !! idx = Some metadata ->
      already_downloaded metadata = false ->
      files_saved <> [] ->
      write_failure w e ->
      Forall io_event io ->
      metadata_list st' = succeeded idx files_saved (metadata_list st) ->
      metadata_json st' = Stored (started idx (metadata_list st)) \/
        metadata_json st' = Truncated ->
      trace st' = (trace st ++ [EvStatus idx "in_progress";
                                EvSave (started idx (metadata_list st))] ++ io ++
                               [EvStatus idx "success"])%list ->
      item_outcome w idx st (Raise e) st'
  | item_failed_unsaved metadata e0 e io st' :
      metadata_list st !! idx = Some metadata ->
      already_downloaded metadata = false ->
      exn_cls e0 ∈ caught ->
      write_failure w e ->
      Forall io_event io ->
      metadata_list st' = failed idx e0 (metadata_list st) ->
      metadata_json st' = Stored (started idx (metadata_list st)) \/
        metadata_json st' = Truncated ->
      trace st' = (trace st ++ [EvStatus idx "in_progress";
                                EvSave (started idx (metadata_list st))] ++ io ++
                               [EvStatus idx "failed"])%list ->
      item_outcome w idx st (Raise e) st'.

(* ===================================================================== *)
(** * Concrete environments                                               *)
(* ===================================================================== *)

Module Examples.

(** A JPEG payload (not an archive) and an archive payload. *)
Definition jpeg : bytes := [xff; xd8; xff; xe0; x00].
Definition zip_payload : bytes := [x50; x4b; x03; x04].

Definition two_memories : list Memory :=
  [mkMemory "2024-01-01 12:00:00 UTC" "https://example.com/1" (Some "Image") None None;
   mkMemory "2024-01-02 13:30:00 UTC" "https://example.com/2" (Some "Video") None None].

(** What [zf.read] raises for a member stored encrypted. *)
Definition encrypted : exn :=
  Exn RuntimeError "File 'secret.jpg' is encrypted, password required for extraction".

(** What [json.load] raises on an empty document. *)
Definition no_json : exn := Exn ValueError "Expecting value: line 1 column 1 (char 0)".

(** The first URL answers with an archive, every other URL with a
    JPEG; every file can be written and stamped, the ledger document can
    be written, and standard output takes every message. *)
Definition serving (zf : Archive) : World :=
  mkWorld
    (fun _ u => if bool_decide (u = "https://example.com/1")
                then Ok zip_payload else Ok jpeg)
    (fun _ _ => Ok zf)
    (fun _ _ => None)
    (fun _ _ => None)
    (fun _ => None)
    (fun _ _ => None)
    no_json
    (fun _ => quiet).

(** An archive with one overlay and one plain member. *)
Definition overlay_archive : Archive :=
  [("memory-overlay.png", Ok [x01]); ("memory.jpg", Ok [x02; x03])].

(** The same with the names in capitals, as some archivers write them. *)
Definition capitals_archive : Archive :=
  [("MEMORY-OVERLAY.PNG", Ok [x01]); ("MEMORY.JPG", Ok [x02; x03])].

(** An archive with two plain members. *)
Definition two_mains_archive : Archive :=
  [("a.jpg", Ok [x01]); ("b.jpg", Ok [x02; x03])].

(** An archive whose only member is encrypted. *)
Definition encrypted_archive : Archive := [("secret.jpg", Raise encrypted)].

(** Every request times out. *)
Definition timed_out : exn := Exn RequestException "Read timed out.".

Definition offline : World :=
  mkWorld (fun _ _ => Raise timed_out) (fun _ _ => Ok [])
          (fun _ _ => None) (fun _ _ => None)
          (fun _ => None) (fun _ _ => None) no_json (fun _ => quiet).

(** What a write raises when the disk is full. *)
Definition disk_full : exn := Exn OSError "[Errno 28] No space left on device".

(** Every request times out, and from the event numbered [n] on the disk
    is full: the ledger document can still be opened, which empties it,
    and nothing can be written to it. *)
Definition full_disk_from (n : nat) : World :=
  mkWorld (fun _ _ => Raise timed_out) (fun _ _ => Ok [])
          (fun _ _ => None) (fun _ _ => None)
          (fun _ => None)
          (fun k _ => if (n <=? k)%nat then Some disk_full else None)
          no_json (fun _ => quiet).

(** What [print] raises on a standard output that encodes to ASCII, for
    a text that has other characters. *)
Definition not_ascii : exn :=
  Exn ValueError "'ascii' codec can't encode character: ordinal not in range(128)".

Definition is_ascii (s : string) : bool :=
  forallb (fun c => (nat_of_ascii c <? 128)%nat) (list_ascii_of_string s).

(** A standard output that encodes to ASCII. *)
Definition ascii_stdout : Stdout := fun msg =>
  match msg with
  | Warning (PyStr s) e =>
      if is_ascii s && is_ascii (exn_msg e) then None else Some not_ascii
  | Warning _ e => if is_ascii (exn_msg e) then None else Some not_ascii
  | Line text => if is_ascii text then None else Some not_ascii
  end.


(** The state of a first run on [two_memories] once the ledger has
    been seeded and written. *)
Definition seeded : State :=
  mkState (seed two_memories) (Stored (seed two_memories)) ∅ ∅
          [EvSave (seed two_memories)].

(** A normal first run in which the first record is answered by the
    archive with the encrypted member. *)
Definition encrypted_run : result unit * State :=
  download_all_memories (serving encrypted_archive) UTC two_memories false false
    (initial_state Absent ∅ ∅).

(** A normal first run in which the disk is full once the seeded ledger
    has been written. *)
Definition full_disk_run : result unit * State :=
  download_all_memories (full_disk_from 1) UTC two_memories false false
    (initial_state Absent ∅ ∅).

End Examples.

(* ===================================================================== *)
(** * Further string helpers ([str.strip], [str.split], the URL pattern)  *)
(* ===================================================================== *)

(** [s.lstrip()], [s.rstrip()] and [s.strip()]. *)
Fixpoint lstrip (s : string) : string :=
  match s with
  | String c s' => if is_space c then lstrip s' else s
  | EmptyString => EmptyString
  end.

Definition rstrip (s : string) : string := String.rev (lstrip (String.rev s)).

Definition strip (s : string) : string := rstrip (lstrip s).

(** [s.split(sep)] for a separator of one character: the pieces between
    the separators, at least one piece. *)
Fixpoint split_on (sep : ascii) (s : string) : list string :=
  match s with
  | EmptyString => [EmptyString]
  | String c s' =>
      if bool_decide (c = sep) then EmptyString :: split_on sep s'
      else match split_on sep s' with
           | piece :: pieces => String c piece :: pieces
           | [] => [String c EmptyString]
           end
  end.

(** The rest of [s] after the prefix [p], when [s] starts with [p]. *)
Fixpoint strip_prefix (p s : string) : option string :=
  match p with
  | EmptyString => Some s
  | String a p' =>
      match s with
      | String b s' => if bool_decide (a = b) then strip_prefix p' s' else None
      | EmptyString => None
      end
  end.

(** The longest prefix of [s] without a single quote, and the rest. *)
Fixpoint span_unquoted (s : string) : string * string :=
  match s with
  | String c s' =>
      if bool_decide (c = "'"%char) then (EmptyString, s)
      else let '(run, rest) := span_unquoted s' in (String c run, rest)
  | EmptyString => (EmptyString, EmptyString)
  end.

(** A match of [downloadMemories\('([^']+)'] at the start of [s]: the
    group.  After the literal, [[^']+] takes the whole run of characters
    up to the next quote, which must be there and must not follow at
    once. *)
Definition match_url_here (s : string) : option string :=
  match strip_prefix "downloadMemories('" s with
  | Some rest =>
      match span_unquoted rest with
      | (String c run, String _ _) => Some (String c run)
      | _ => None
      end
  | None => None
  end.

(** [re.search(r"downloadMemories\('([^']+)'", s)]: the leftmost match. *)
Fixpoint search_url (s : string) : option string :=
  match match_url_here s with
  | Some u => Some u
  | None =>
      match s with
      | String _ s' => search_url s'
      | EmptyString => None
      end
  end.

(* ===================================================================== *)
(** * [MemoriesParser]: the handlers of the HTML parser                   *)
(* ===================================================================== *)

(** What the tokenizer of [html.parser] hands to the handlers: tag names
    in lower case, an attribute value [None] when the attribute has
    none. *)
Inductive html_event : Type :=
  | StartTag (tag : string) (attrs : list (string * option string))
  | Data (data : string)
  | EndTag (tag : string).

Module MemoriesParser.

(** The attributes of the parser object; a row is a [dict] from field
    names to strings. *)
Record t : Type := mk {
  memories : list (gmap string string);
  current_row : gmap string string;
  current_tag : option string;
  in_table_row : bool;
  cell_index : nat
}.

(** [__init__] *)
Definition init : t := mk [] ∅ None false 0.

(** The loop over the attributes of an [a] tag. *)
Fixpoint scan_attrs (attrs : list (string * option string))
    (row : gmap string string) : gmap string string :=
  match attrs with
  | [] => row
  | (attr_name, attr_value) :: attrs' =>
      let row' :=
        match attr_value with
        | Some v =>
            if bool_decide (attr_name = "onclick") &&
               negb (bool_decide (v = "")) &&
               contains "downloadMemories" v
            then match search_url v with
                 | Some u => <["url" := u]> row
                 | None => row
                 end
            else row
        | None => row
        end in
      scan_attrs attrs' row'
  end.

Definition handle_starttag (self : t) (tag : string)
    (attrs : list (string * option string)) : t :=
  if bool_decide (tag = "tr") then
    mk (memories self) ∅ (current_tag self) true 0
  else if bool_decide (tag = "td") && in_table_row self then
    mk (memories self) (current_row self) (Some "td") (in_table_row self)
       (cell_index self)
  else if bool_decide (tag = "a") && in_table_row self then
    mk (memories self) (scan_attrs attrs (current_row self)) (current_tag self)
       (in_table_row self) (cell_index self)
  else self.

Definition set_row (self : t) (row : gmap string string) : t :=
  mk (memories self) row (current_tag self) (in_table_row self) (cell_index self).

Definition handle_data (self : t) (data : string) : t :=
  if bool_decide (current_tag self = Some "td") &&
     negb (bool_decide (strip data = ""))
  then
    let data := strip data in
    if contains "UTC" data then
      set_row self (<["date" := data]> (current_row self))
    else if bool_decide (data ∈ ["Image"; "Video"]) then
      set_row self (<["media_type" := data]> (current_row self))
    else if contains "Latitude, Longitude:" data then
      let coords := strip (replace "Latitude, Longitude:" "" data) in
      match split_on "," coords with
      | [lat; lon] =>
          set_row self
            (<["longitude" := strip lon]>
               (<["latitude" := strip lat]> (current_row self)))
      | _ => self
      end
    else self
  else self.

Definition handle_endtag (self : t) (tag : string) : t :=
  if bool_decide (tag = "td") then
    mk (memories self) (current_row self) None (in_table_row self) (cell_index self)
  else if bool_decide (tag = "tr") && in_table_row self then
    let saved :=
      if bool_decide (is_Some (current_row self !! "url")) &&
         bool_decide (is_Some (current_row self !! "date"))
      then (memories self ++ [current_row self])%list
      else memories self in
    mk saved ∅ (current_tag self) false (cell_index self)
  else self.

Definition handle (self : t) (ev : html_event) : t :=
  match ev with
  | StartTag tag attrs => handle_starttag self tag attrs
  | Data data => handle_data self data
  | EndTag tag => handle_endtag self tag
  end.

(** [parser.feed], on the events of the document. *)
Definition feed (self : t) (evs : list html_event) : t := foldl handle self evs.

End MemoriesParser.

(** [parse_html_file], from the events of the document on. *)
Definition parse_html_events (evs : list html_event) : list (gmap string string) :=
  MemoriesParser.memories (MemoriesParser.feed MemoriesParser.init evs).

(** A row as the orchestrator reads it: [memory['url']], and
    [memory.get(key, default)] for the other keys. *)
Definition to_memory (row : gmap string string) : option Memory :=
  match row !! "url", row !! "date" with
  | Some u, Some d =>
      Some (mkMemory d u (row !! "media_type") (row !! "latitude") (row !! "longitude"))
  | _, _ => None
  end.

(** The events of one table row of the export: the date cell, the cell
    with the download link, the media type cell and the location cell. *)
Definition export_row (d onclick media_type location : string) : list html_event :=
  [StartTag "tr" [];
   StartTag "td" []; Data d; EndTag "td";
   StartTag "td" []; StartTag "a" [("onclick", Some onclick)]; Data "Download";
     EndTag "a"; EndTag "td";
   StartTag "td" []; Data media_type; EndTag "td";
   StartTag "td" []; Data location; EndTag "td";
   EndTag "tr"].

(* ===================================================================== *)
(** * The [--test] mode of the script                                     *)
(* ===================================================================== *)

(** What both loops do inside their [try] block before they record the
    result: download, report, stamp. *)
Definition fetch_and_stamp (w : World) (tz : timezone)
    (u file_num extension date_str : string) : M (list FileRef) :=
  let! files_saved := download_and_extract w u file_num extension in
  run! (if (1 <? length files_saved)%nat then ret tt
        else let! downloaded_file := lift (py_index files_saved 0) in ret tt) in
  let! timestamp := parse_date w tz (PyStr date_str) in
  run! (if truthy timestamp
        then set_file_timestamps w files_saved (default 0 timestamp)
        else ret tt) in
  ret files_saved.

(** [metadata_list.append(metadata)] *)
Definition append_metadata (metadata : Entry) : M unit := fun st =>
  (Ok tt,
   mkState (metadata_list st ++ [metadata]) (metadata_json st)
           (fs_files st) (fs_mtime st) (trace st)).

(** The dict of the test loop before the outcome is known; it has no
    ['status'] and no ['files'] yet, and is not seen in this state.  A
    failed entry of the test loop has no ['files'] key, which reads as
    the empty list. *)
Definition test_metadata (idx : Z) (memory : Memory) : Entry :=
  mkEntry idx
          (m_date memory)
          (default "Unknown" (m_media_type memory))
          (default "Unknown" (m_latitude memory))
          (default "Unknown" (m_longitude memory))
          (m_url memory)
          ""
          []
          None.

(** One iteration of the test loop, for the record at 0-based position
    [i]. *)
Definition test_item (w : World) (tz : timezone) (i : nat) (memory : Memory) : M unit :=
  let idx := Z.of_nat (S i) in
  let file_num := format_02d idx in
  let extension := get_file_extension (default "Image" (m_media_type memory)) in
  let metadata := test_metadata idx memory in
  let! metadata :=
    try_catch
      (let! files_saved :=
         fetch_and_stamp w tz (m_url memory) file_num extension (date metadata) in
       ret (set_files files_saved (set_status "success" metadata)))
      caught
      (fun e =>
         run! print w (Line (error_line e +:+ String (ascii_of_nat 10) "")) in
         ret (set_error (exn_msg e) (set_status "failed" metadata))) in
  append_metadata metadata.

Fixpoint test_items (w : World) (tz : timezone) (items : list (nat * Memory)) : M unit :=
  match items with
  | [] => ret tt
  | (i, memory) :: rest =>
      run! test_item w tz i memory in
      test_items w tz rest
  end.

(** The branch of the script for [--test], from the parsed records on:
    the first three records, and one write of [metadata.json] at the
    end. *)
Definition test_mode (w : World) (tz : timezone) (memories : list Memory) : M unit :=
  run! set_metadata_list [] in
  run! test_items w tz (enumerate (take 3 memories)) in
  save_metadata w.

(* ===================================================================== *)
(** * More specification vocabulary                                       *)
(* ===================================================================== *)

Definition digit_char (n : Z) : ascii := ascii_of_nat (48 + Z.to_nat n).

(** [f"{n:02d}"] for [0 <= n < 100], digit by digit. *)
Definition two_digit (n : Z) : string :=
  String (digit_char (n / 10)) (String (digit_char (n mod 10)) EmptyString).

(** [dt.strftime('%Y-%m-%d %H:%M:%S')]: the digits of a date. *)
Definition date_digits (dt : datetime) : string :=
  two_digit (year dt / 100) +:+ two_digit (year dt mod 100) +:+ "-" +:+
  two_digit (month dt) +:+ "-" +:+ two_digit (day dt) +:+ " " +:+
  two_digit (hour dt) +:+ ":" +:+ two_digit (minute dt) +:+ ":" +:+
  two_digit (second dt).

(** A date as the export writes it: ["2025-11-30 00:31:09 UTC"]. *)
Definition export_date (dt : datetime) : string := date_digits dt +:+ " UTC".

(** The fields of [dt] make a date that [datetime] accepts. *)
Definition valid_datetime (dt : datetime) : Prop :=
  datetime_new (year dt) (month dt) (day dt) (hour dt) (minute dt) (second dt) = Ok dt.

(** The fields of an entry that identify the record; a run is not meant
    to change them. *)
Definition identity (e : Entry) : Z * string * string * string * string * string :=
  (number e, date e, media_type e, latitude e, longitude e, url e).

(** A decimal digit, and a string that does not go on with one. *)
Definition is_digit (c : ascii) : bool := in_range "0" "9" c.

Definition starts_without_digit (s : string) : Prop :=
  match s with
  | String c _ => is_digit c = false
  | EmptyString => True
  end.

(** The URLs requested in a trace, in order. *)
Definition gets (tr : list Event) : list string :=
  omap (fun ev => match ev with EvGet u => Some u | _ => None end) tr.

(** The three file names [download_and_extract] can write for a record. *)
Definition output_names (file_num extension : string) : list string :=
  [file_num +:+ extension;
   main_filename file_num extension;
   overlay_filename file_num extension].

(** [st'] comes from [st] by writing files named in [names], and by
    nothing else: no request, no time stamp, no change of the ledger. *)
Definition wrote (names : list string) (st st' : State) : Prop :=
  metadata_list st' = metadata_list st /\
  metadata_json st' = metadata_json st /\
  fs_mtime st' = fs_mtime st /\
  (forall p, p ∉ names -> fs_files st' !! p = fs_files st !! p) /\
  exists paths, trace st' = (trace st ++ (EvWrite <$> paths))%list /\
                Forall (fun p => p ∈ names) paths.

(** [st'] comes from [st] by stamping files with the time [t], and by
    nothing else. *)
Definition stamped (t : Z) (st st' : State) : Prop :=
  metadata_list st' = metadata_list st /\
  metadata_json st' = metadata_json st /\
  fs_files st' = fs_files st /\
  (forall p, fs_mtime st' !! p = fs_mtime st !! p \/ fs_mtime st' !! p = Some t) /\
  exists paths, trace st' = (trace st ++ ((fun p => EvUtime p t) <$> paths))%list.

(** The state of a run once the ledger [l] is loaded from the document,
    or seeded and written when there was no document ([d = None]). *)
Definition loaded (d : option (list Entry)) (l : list Entry)
    (fs : gmap string bytes) (mt : gmap string Z) : State :=
  mkState l (Stored l) fs mt (match d with Some _ => [] | None => [EvSave l] end).

(** The entry at position [i] is finished: succeeded or failed. *)
Definition finished (i : nat) (st : State) : Prop :=
  exists e, metadata_list st !! i = Some e /\ status e ∈ ["success"; "failed"].

(** The request [u] is the one made for the selected entry [im]: the URL
    of the record at its position, for an entry not yet downloaded. *)
Definition request_for (memories : list Memory) (u : string) (im : nat * Entry) : Prop :=
  exists memory, memories !! im.1 = Some memory /\ m_url memory = u /\
                 already_downloaded im.2 = false.

Module Cases.

(** A ledger whose only entry failed in an earlier run. *)
Definition failed_once : list Entry :=
  [set_error "Read timed out."
     (set_status "failed"
        (seed_entry 1 (mkMemory "2024-01-01 12:00:00 UTC" "https://example.com/1"
                                (Some "Image") None None)))].

Definition one_memory : list Memory :=
  [mkMemory "2024-01-01 12:00:00 UTC" "https://example.com/1" (Some "Image") None None].

(** The state of a run on [one_memory] that has loaded [failed_once]. *)
Definition retrying : State := mkState failed_once (Stored failed_once) ∅ ∅ [].

(** What [zf.read] raises for a member whose check sum is wrong. *)
Definition bad_crc : exn := Exn BadZipFile "Bad CRC-32 for file 'b.jpg'".

(** An archive with a sound member and a damaged one. *)
Definition damaged_archive : Archive :=
  [("a-overlay.png", Ok [x01]); ("b.jpg", Raise bad_crc)].

(** A record dated at the epoch. *)
Definition epoch_memory : list Memory :=
  [mkMemory "1970-01-01 00:00:00 UTC" "https://example.com/2" (Some "Image") None None].

End Cases.

(** What holds of every row the parser builds. *)
Definition row_ok (row : gmap string string) : Prop :=
  (forall u, row !! "url" = Some u -> u <> "") /\
  (forall d, row !! "date" = Some d -> substring "UTC" d) /\
  (forall v, row !! "media_type" = Some v -> v = "Image" \/ v = "Video") /\
  (is_Some (row !! "latitude") <-> is_Some (row !! "longitude")).

(** Two parser states that go on alike: the same open cell and row, and
    inside a row the same fields so far. *)
Definition alike (p q : MemoriesParser.t) : Prop :=
  MemoriesParser.current_tag p = MemoriesParser.current_tag q /\
  MemoriesParser.in_table_row p = MemoriesParser.in_table_row q /\
  (MemoriesParser.in_table_row p = true ->
   MemoriesParser.current_row p = MemoriesParser.current_row q).

(** The first way in which a matcher matches. *)
Definition first_match {A} (l : list (A * string)) (x : A * string) : Prop :=
  exists others, l = x :: others.

(* ===================================================================== *)
(** * Properties of the pure helpers                                      *)
(* ===================================================================== *)

Lemma is_zip_file_true_iff (content : bytes) :
  is_zip_file content = true <-> exists rest, content = x50 :: x4b :: rest.
Proof.
  unfold is_zip_file, PK. rewrite bool_decide_eq_true. split.
  - destruct content as [|a [|b rest]]; simpl; intros H; try discriminate.
    injection H as -> ->. by exists rest.
  - intros [rest ->]. reflexivity.
Qed.

(** C9.  For every byte buffer, [is_zip_file] is true exactly when the
    buffer starts with the two bytes [b'PK'] (0x50 0x4B); it is false,
    without raising, for the empty buffer and for a buffer of one byte. *)
Theorem is_zip_file_spec (content : bytes) :
  (is_zip_file content = true <-> exists rest, content = x50 :: x4b :: rest) /\
  is_zip_file [] = false /\
  (forall b, is_zip_file [b] = false).
Proof.
  split; [apply is_zip_file_true_iff|]. split; [reflexivity|].
  intros b. destruct (is_zip_file [b]) eqn:E; [|done].
  apply is_zip_file_true_iff in E as [rest E]. discriminate.
Qed.

Lemma datetime_new_raises y m d hh mm ss e :
  datetime_new y m d hh mm ss = Raise e -> exn_cls e = ValueError.
Proof.
  unfold datetime_new.
  repeat (match goal with |- context [if ?b then _ else _] => destruct b end);
    by inversion 1.
Qed.

Lemma strptime_raises s e : strptime s = Raise e -> exn_cls e = ValueError.
Proof.
  unfold strptime. destruct (re_format s) as [|[[[[[[y m] d] hh] mm] ss] rest] tl].
  - by inversion 1.
  - case_bool_decide.
    + apply datetime_new_raises.
    + by inversion 1.
Qed.

Lemma local_raises tz u e : local tz u = Raise e -> exn_cls e = ValueError.
Proof.
  unfold local. destruct (_ && _); by inversion 1.
Qed.

Lemma mktime_raises tz dt e : mktime tz dt = Raise e -> exn_cls e = ValueError.
Proof.
  unfold mktime, result_bind.
  repeat (match goal with
          | |- context [match local ?tz ?u with _ => _ end] =>
              let E := fresh "E" in destruct (local tz u) eqn:E;
              [|apply local_raises in E; inversion 1; by subst]
          | |- context [if ?b then _ else _] => destruct b
          end); by inversion 1.
Qed.

(** On a [str] the function is this case analysis: the exceptions of
    [strptime] and of [timestamp] are all [ValueError]s, which the
    [except] clause handles by printing the warning. *)
Lemma parse_date_to_timestamp_str out tz s :
  parse_date_to_timestamp out tz (PyStr s) =
  match strptime (replace " UTC" "" s) with
  | Ok dt =>
      match timestamp tz dt with
      | Ok t => Ok (Some t)
      | Raise e => print_to out (Warning (PyStr s) e) (Ok None)
      end
  | Raise e => print_to out (Warning (PyStr s) e) (Ok None)
  end.
Proof.
  unfold parse_date_to_timestamp, py_replace, result_bind, try_except.
  destruct (strptime _) as [dt|e] eqn:E.
  - destruct (timestamp tz dt) as [t|e] eqn:Et; [done|].
    apply mktime_raises in Et. rewrite Et. reflexivity.
  - apply strptime_raises in E. rewrite E. reflexivity.
Qed.


(** Two results of the function on the same value, under any two
    standard outputs, are the same. *)
Lemma parse_date_to_timestamp_agree out out' tz v ts ts' :
  parse_date_to_timestamp out tz v = Ok ts ->
  parse_date_to_timestamp out' tz v = Ok ts' ->
  ts = ts'.
Proof.
  unfold parse_date_to_timestamp, try_except, print_to.
  destruct (result_bind _ _) as [r|e]; [congruence|].
  case_bool_decide; [|done].
  destruct (out _); [done|]. destruct (out' _); [done|]. congruence.
Qed.



Lemma local_fixed_offset off u :
  min_wall <= u + off <= max_wall -> local (fixed_offset off) u = Ok (u + off).
Proof.
  intros [H1 H2]. unfold local, fixed_offset.
  apply Z.leb_le in H1, H2. by rewrite H1, H2.
Qed.

Lemma mktime_fixed_offset off dt :
  min_wall <= wall_seconds dt - 86400 ->
  wall_seconds dt <= max_wall ->
  min_wall <= wall_seconds dt + off <= max_wall ->
  mktime (fixed_offset off) dt = Ok (wall_seconds dt - off).
Proof.
  intros Hlo Hhi Hoff. unfold mktime.
  set (t := wall_seconds dt) in *.
  rewrite (local_fixed_offset off t) by lia. simpl.
  replace (t + off - t) with off by lia.
  rewrite (local_fixed_offset off (t - off)) by lia. simpl.
  replace (t - off + off) with t by lia. rewrite Z.eqb_refl.
  rewrite (local_fixed_offset off (t - off - 24 * 3600)) by lia. simpl.
  replace (t - off - 24 * 3600 + off - (t - off - 24 * 3600)) with off by lia.
  by rewrite Z.eqb_refl.
Qed.

(** On a host whose zone is a fixed [off] seconds east of UTC the result
    is the UTC reading of the digits shifted by [off]: the digits are
    taken as the host's local time. *)
Lemma parse_date_to_timestamp_fixed_offset out off s dt :
  strptime (replace " UTC" "" s) = Ok dt ->
  min_wall <= wall_seconds dt - 86400 ->
  wall_seconds dt <= max_wall ->
  min_wall <= wall_seconds dt + off <= max_wall ->
  parse_date_to_timestamp out (fixed_offset off) (PyStr s)
  = Ok (Some (utc_instant dt - off)).
Proof.
  intros Hs Hlo Hhi Hoff. rewrite parse_date_to_timestamp_str, Hs.
  unfold timestamp. by rewrite mktime_fixed_offset.
Qed.

(** C1.  The date string ["2025-11-30 00:31:09 UTC"] names the instant
    1764462669 when its digits are read as UTC.  [parse_date_to_timestamp]
    returns that instant on a host set to UTC, but 1764459069 (one hour
    earlier) on a host one hour east of UTC and 1764491469 on a host eight
    hours west, whatever standard output is: the result depends on the
    host's time zone. *)
Theorem parse_date_to_timestamp_reads_local_time (out : Stdout) :
  strptime (replace " UTC" "" "2025-11-30 00:31:09 UTC") = Ok (Datetime 2025 11 30 0 31 9) /\
  utc_instant (Datetime 2025 11 30 0 31 9) = 1764462669 /\
  parse_date_to_timestamp out UTC (PyStr "2025-11-30 00:31:09 UTC")
    = Ok (Some 1764462669) /\
  parse_date_to_timestamp out (fixed_offset 3600) (PyStr "2025-11-30 00:31:09 UTC")
    = Ok (Some 1764459069) /\
  parse_date_to_timestamp out (fixed_offset (-28800)) (PyStr "2025-11-30 00:31:09 UTC")
    = Ok (Some 1764491469).
Proof. repeat split; vm_compute; reflexivity. Qed.

(* ===================================================================== *)
(** * Properties of [download_and_extract]                                *)
(* ===================================================================== *)

Lemma append_nil_l (s : string) : "" +:+ s = s.
Proof. reflexivity. Qed.

Lemma append_cons (c : ascii) (a b : string) : String c a +:+ b = String c (a +:+ b).
Proof. reflexivity. Qed.

Lemma prefix_spec (sub s : string) :
  String.prefix sub s = true <-> exists post, s = sub +:+ post.
Proof.
  revert s. induction sub as [|c sub IH]; intros s.
  - split; [|by destruct s]. intros _. by exists s.
  - destruct s as [|c' s]; cbn [String.prefix].
    + split; [done|]. intros [post H]. by rewrite append_cons in H.
    + destruct (Ascii.ascii_dec c c') as [->|Hne].
      * rewrite IH. split; intros [post H]; exists post.
        -- by rewrite append_cons, H.
        -- rewrite append_cons in H. congruence.
      * split; [done|]. intros [post H]. rewrite append_cons in H. congruence.
Qed.

(** [contains] decides the occurrence of a substring. *)
Lemma contains_spec (sub s : string) :
  contains sub s = true <-> substring sub s.
Proof.
  unfold substring. induction s as [|c s IH].
  - cbn [contains]. rewrite orb_false_r, prefix_spec. split.
    + intros [post H]. by exists "", post.
    + intros (pre & post & H). destruct pre; [by exists post|].
      by rewrite append_cons in H.
  - cbn [contains]. rewrite orb_true_iff, IH, prefix_spec. split.
    + intros [[post H]|(pre & post & H)].
      * by exists "", post.
      * exists (String c pre), post. by rewrite append_cons, H.
    + intros (pre & post & H). destruct pre as [|c' pre].
      * left. by exists post.
      * right. exists pre, post. rewrite append_cons in H. congruence.
Qed.

(** A member's role and output name, by the occurrence of ['-overlay'] in
    its lowered name. *)
Lemma classify_spec (file_num extension name : string) :
  (substring "-overlay" (lower name) /\
   classify file_num extension name = ("overlay", overlay_filename file_num extension)) \/
  (~ substring "-overlay" (lower name) /\
   classify file_num extension name = ("main", main_filename file_num extension)).
Proof.
  unfold classify. destruct (contains "-overlay" (lower name)) eqn:E.
  - left. split; [by apply contains_spec|done].
  - right. split; [|done]. rewrite <- contains_spec. congruence.
Qed.

(** ** [lower] and matching up to case *)

(** Lowering a character gives a character of ASCII that is no capital
    exactly for that character and for its capital. *)
Lemma ascii_lower_spec (c p : ascii) :
  (nat_of_ascii p < 128)%nat -> in_range "A" "Z" p = false ->
  ascii_lower c = p <-> same_ignoring_case c p.
Proof.
  intros Hp Hup. unfold ascii_lower, same_ignoring_case, in_range in *.
  change (nat_of_ascii "A") with 65%nat in Hup.
  change (nat_of_ascii "Z") with 90%nat in Hup.
  change (nat_of_ascii "a") with 97%nat. change (nat_of_ascii "z") with 122%nat.
  pose proof (nat_ascii_bounded c) as Hc.
  apply andb_false_iff in Hup.
  destruct ((65 <=? nat_of_ascii c) && (nat_of_ascii c <=? 90) ||
            (192 <=? nat_of_ascii c) && (nat_of_ascii c <=? 222) &&
            negb (nat_of_ascii c =? 215))%nat eqn:E.
  - apply orb_true_iff in E as [E|E].
    + apply andb_true_iff in E as [E1 E2].
      apply Nat.leb_le in E1, E2. split.
      * intros <-. right. rewrite nat_ascii_embedding by lia.
        split; [|done]. apply andb_true_iff. split; apply Nat.leb_le; lia.
      * intros [->|[_ Heq]].
        -- exfalso. destruct Hup as [H|H]; apply Nat.leb_gt in H; lia.
        -- by rewrite Heq, ascii_nat_embedding.
    + apply andb_true_iff in E as [E _]. apply andb_true_iff in E as [E1 E2].
      apply Nat.leb_le in E1, E2. split.
      * intros <-. rewrite nat_ascii_embedding in Hp by lia. lia.
      * intros [->|[_ Heq]]; lia.
  - apply orb_false_iff in E as [E _]. split; [by left|].
    intros [->|[Hr Heq]]; [done|]. exfalso.
    apply andb_true_iff in Hr as [H1 H2]. apply Nat.leb_le in H1, H2.
    apply andb_false_iff in E as [E|E]; apply Nat.leb_gt in E; lia.
Qed.

Lemma lower_app (a b : string) : lower (a +:+ b) = lower a +:+ lower b.
Proof.
  induction a as [|c a IH]; [done|]. rewrite append_cons. cbn [lower].
  by rewrite IH, append_cons.
Qed.

(** A lowered string splits where its source does. *)
Lemma lower_split (x y s : string) :
  lower s = x +:+ y -> exists s1 s2, s = s1 +:+ s2 /\ lower s1 = x /\ lower s2 = y.
Proof.
  revert s. induction x as [|c x IH]; intros s H.
  - by exists "", s.
  - destruct s as [|c' s]; [done|]. rewrite append_cons in H. cbn [lower] in H.
    injection H as Hc Hs. apply IH in Hs as (s1 & s2 & -> & H1 & H2).
    exists (String c' s1), s2. split_and!; [done| |done]. cbn [lower]. by rewrite Hc, H1.
Qed.

(** For a pattern of ASCII without capitals, the strings that lower to
    the pattern are the ones that match it up to case. *)
Lemma lower_matches (pattern s : string) :
  (forall p, In p (list_ascii_of_string pattern) ->
     (nat_of_ascii p < 128)%nat /\ in_range "A" "Z" p = false) ->
  lower s = pattern <-> matches_ignoring_case pattern s.
Proof.
  revert s. induction pattern as [|p pattern IH]; intros s Hpat.
  - destruct s; cbn; [done|]. split; [discriminate|done].
  - destruct s as [|c s]; cbn [lower matches_ignoring_case];
      [split; [discriminate|done]|].
    destruct (Hpat p) as [Hp Hup]; [by left|].
    rewrite <- (ascii_lower_spec c p Hp Hup), <- IH.
    + split; [by intros [= -> ->]|by intros [-> ->]].
    + intros q Hq. apply Hpat. by right.
Qed.

(** The test of line 126, [pattern in name.lower()], decides whether the
    pattern occurs in the name up to case. *)
Lemma lower_occurs (pattern s : string) :
  (forall p, In p (list_ascii_of_string pattern) ->
     (nat_of_ascii p < 128)%nat /\ in_range "A" "Z" p = false) ->
  substring pattern (lower s) <-> occurs_ignoring_case pattern s.
Proof.
  intros Hpat. split.
  - intros (pre & post & H).
    apply lower_split in H as (s1 & s23 & -> & H1 & H23).
    apply lower_split in H23 as (s2 & s3 & -> & H2 & H3).
    exists s1, s2, s3. split; [done|]. by apply lower_matches.
  - intros (pre & mid & post & -> & Hm).
    apply lower_matches in Hm; [|done].
    exists (lower pre), (lower post). by rewrite !lower_app, Hm.
Qed.

Lemma overlay_pattern p :
  In p (list_ascii_of_string "-overlay") ->
  (nat_of_ascii p < 128)%nat /\ in_range "A" "Z" p = false.
Proof.
  cbn. intros H.
  repeat (destruct H as [<-|H]; [split; [vm_compute; lia|reflexivity]|]). done.
Qed.

(** A member's role and output name, by the occurrence of ['-overlay'] in
    its name up to case. *)
Lemma classify_role (file_num extension name : string) :
  (occurs_ignoring_case "-overlay" name /\
   classify file_num extension name = ("overlay", overlay_filename file_num extension)) \/
  (~ occurs_ignoring_case "-overlay" name /\
   classify file_num extension name = ("main", main_filename file_num extension)).
Proof.
  rewrite <- (lower_occurs "-overlay" name overlay_pattern).
  apply classify_spec.
Qed.

Lemma app_string_inj_l (p a b : string) : p +:+ a = p +:+ b -> a = b.
Proof.
  induction p as [|c p IH]; [done|]. rewrite !append_cons. intros H. apply IH. congruence.
Qed.

Lemma main_overlay_distinct (file_num extension : string) :
  main_filename file_num extension <> overlay_filename file_num extension.
Proof.
  unfold main_filename, overlay_filename. intros H.
  apply app_string_inj_l in H. discriminate.
Qed.

Lemma zf_read_cons_ne (zf : Archive) n d name :
  n <> name -> zf_read ((n, d) :: zf) name = zf_read zf name.
Proof.
  intros Hne. cbn [zf_read]. case_bool_decide; [done|].
  by rewrite bool_decide_eq_false_2.
Qed.

Lemma zf_read_last n (d : result bytes) : zf_read [(n, d)] n = d.
Proof.
  cbn [zf_read]. rewrite bool_decide_eq_false_2 by apply not_elem_of_nil.
  by rewrite bool_decide_eq_true_2.
Qed.

Lemma zf_read_two n1 (d1 : result bytes) n2 d2 :
  n1 <> n2 ->
  zf_read [(n1, d1); (n2, d2)] n1 = d1 /\ zf_read [(n1, d1); (n2, d2)] n2 = d2.
Proof.
  intros Hne. split.
  - cbn [zf_read]. rewrite bool_decide_eq_false_2.
    + by rewrite bool_decide_eq_true_2.
    + unfold namelist. cbn. rewrite list_elem_of_singleton. done.
  - rewrite zf_read_cons_ne by done. apply zf_read_last.
Qed.

(** The loop over the members of an archive, when every member can be
    read and both output files can be written: one FileRef per member, in
    order, and the output directory as [extracted] describes it; the
    ledger is not touched. *)
Lemma extract_members_ok w zf file_num extension names acc st :
  (forall name, name ∈ names -> exists data, zf_read zf name = Ok data) ->
  (forall n, open_wb w n (main_filename file_num extension) = None) ->
  (forall n, open_wb w n (overlay_filename file_num extension) = None) ->
  exists st',
    extract_members w zf file_num extension names acc st
      = (Ok (acc ++ map (member_ref zf file_num extension) names)%list, st') /\
    fs_files st' = extracted zf file_num extension names (fs_files st) /\
    metadata_list st' = metadata_list st /\
    metadata_json st' = metadata_json st.
Proof.
  intros Hread Hmain Hover. revert acc st.
  induction names as [|name names IH]; intros acc st.
  - exists st. simpl. by rewrite app_nil_r.
  - destruct (Hread name) as [data Hdata]; [set_solver|].
    assert (Hw : forall n, open_wb w n (classify file_num extension name).2 = None).
    { intros n. destruct (classify_spec file_num extension name) as [[_ ->]|[_ ->]]; simpl; auto. }
    cbn [extract_members]. unfold bind at 1, lift at 1. rewrite Hdata.
    destruct (classify file_num extension name) as [ty out] eqn:Ec.
    unfold bind at 1. unfold write_file at 1. simpl in Hw. rewrite Hw.
    set (st1 := log _ _).
    destruct (IH (fun n Hn => Hread n ltac:(set_solver))
                 (acc ++ [mkFileRef out (length data) ty])%list st1)
      as (st' & Hrun & Hfs & Hml & Hmj).
    exists st'. rewrite Hrun. split_and!.
    + f_equal. rewrite <- app_assoc. f_equal. simpl. f_equal.
      unfold member_ref, member_data. by rewrite Ec, Hdata.
    + rewrite Hfs. simpl. unfold member_data. by rewrite Ec, Hdata.
    + by rewrite Hml.
    + by rewrite Hmj.
Qed.

(** [download_and_extract] on an archive response. *)
Lemma download_and_extract_archive w st u file_num extension content zf :
  requests_get w (now st) u = Ok content ->
  is_zip_file content = true ->
  ZipFile w (S (now st)) content = Ok zf ->
  (forall name, name ∈ namelist zf -> exists data, zf_read zf name = Ok data) ->
  (forall n, open_wb w n (main_filename file_num extension) = None) ->
  (forall n, open_wb w n (overlay_filename file_num extension) = None) ->
  exists st',
    download_and_extract w u file_num extension st
      = (Ok (map (member_ref zf file_num extension) (namelist zf)), st') /\
    fs_files st' = extracted zf file_num extension (namelist zf) (fs_files st).
Proof.
  intros Hget Hzip Hopen Hread Hmain Hover.
  unfold download_and_extract. unfold bind at 1, http_get at 1. rewrite Hget, Hzip.
  unfold bind at 1, open_zip at 1.
  replace (now (log (EvGet u) st)) with (S (now st))
    by (unfold now, log; simpl; rewrite length_app; simpl; lia).
  rewrite Hopen.
  destruct (extract_members_ok w zf file_num extension (namelist zf) []
              (log (EvGet u) st) Hread Hmain Hover) as (st' & Hrun & Hfs & _ & _).
  exists st'. by rewrite Hrun, Hfs.
Qed.

Lemma member_ref_spec (zf : Archive) (file_num extension name : string) :
  (substring "-overlay" (lower name) /\
   member_ref zf file_num extension name =
     mkFileRef (overlay_filename file_num extension)
               (length (member_data zf name)) "overlay") \/
  (~ substring "-overlay" (lower name) /\
   member_ref zf file_num extension name =
     mkFileRef (main_filename file_num extension)
               (length (member_data zf name)) "main").
Proof.
  unfold member_ref.
  destruct (classify_spec file_num extension name) as [[H ->]|[H ->]]; [left|right]; done.
Qed.

Lemma member_ref_role (zf : Archive) (file_num extension name : string) :
  (occurs_ignoring_case "-overlay" name /\
   member_ref zf file_num extension name =
     mkFileRef (overlay_filename file_num extension)
               (length (member_data zf name)) "overlay") \/
  (~ occurs_ignoring_case "-overlay" name /\
   member_ref zf file_num extension name =
     mkFileRef (main_filename file_num extension)
               (length (member_data zf name)) "main").
Proof.
  unfold member_ref.
  destruct (classify_role file_num extension name) as [[H ->]|[H ->]]; [left|right]; done.
Qed.

Lemma extracted_dom (zf : Archive) (file_num extension : string) names
    (fs : gmap string bytes) :
  dom (extracted zf file_num extension names fs) ⊆
  dom fs ∪ {[main_filename file_num extension; overlay_filename file_num extension]}.
Proof.
  revert fs. induction names as [|name names IH]; intros fs.
  - unfold extracted. simpl. set_solver.
  - unfold extracted in *. cbn [foldl]. etrans; [apply IH|].
    rewrite dom_insert. intros x.
    destruct (classify_spec file_num extension name) as [[_ ->]|[_ ->]];
      cbn [snd]; rewrite !elem_of_union, !elem_of_singleton; tauto.
Qed.

(** C7.  When the response to the GET is a body [content] that does not
    start with the archive signature, and the file [{file_num}{ext}] can
    be written, [download_and_extract] returns exactly one FileRef, of
    type ['single'], whose size is the length of the body, and afterwards
    the file [{file_num}{ext}] of the output directory holds exactly the
    body. *)
Theorem download_single_file (w : World) (st : State)
    (u file_num extension : string) (content : bytes) :
  requests_get w (now st) u = Ok content ->
  is_zip_file content = false ->
  open_wb w (S (now st)) (file_num +:+ extension) = None ->
  exists st',
    download_and_extract w u file_num extension st
      = (Ok [mkFileRef (file_num +:+ extension) (length content) "single"], st') /\
    fs_files st' !! (file_num +:+ extension) = Some content /\
    fs_files st' = <[file_num +:+ extension := content]> (fs_files st).
Proof.
  intros Hget Hzip Hopen.
  unfold download_and_extract. unfold bind at 1, http_get at 1. rewrite Hget, Hzip.
  unfold bind at 1, write_file at 1.
  replace (now (log (EvGet u) st)) with (S (now st))
    by (unfold now, log; simpl; rewrite length_app; simpl; lia).
  rewrite Hopen. eexists. split; [reflexivity|]. simpl.
  split; [apply lookup_insert_eq|done].
Qed.

Lemma download_single_file_witness :
  exists st',
    download_and_extract (Examples.serving []) "https://example.com/2" "02" ".mp4"
        (initial_state Absent ∅ ∅)
      = (Ok [mkFileRef ("02" +:+ ".mp4") (length Examples.jpeg) "single"], st') /\
    fs_files st' !! ("02" +:+ ".mp4") = Some Examples.jpeg /\
    fs_files st' = <["02" +:+ ".mp4" := Examples.jpeg]> (fs_files (initial_state Absent ∅ ∅)).
Proof.
  apply (download_single_file (Examples.serving []) (initial_state Absent ∅ ∅)
           "https://example.com/2" "02" ".mp4" Examples.jpeg); reflexivity.
Defined.

(** C6.  When the response is an archive whose members can all be read
    and the two output files can be written, [download_and_extract]
    returns one FileRef per member, in directory order; a member is typed
    ['overlay'] and written to [{file_num}-overlay{ext}] exactly when
    ['-overlay'] occurs in its name up to the case of the letters
    (['-OVERLAY'], ['-Overlay'], ...), and is typed ['main'] and written
    to [{file_num}-main{ext}] otherwise.  For an archive of one overlay
    member and one plain member, in either order, the result is the two
    FileRefs typed ['overlay'] and ['main'], and both files are in the
    output directory with the members' contents. *)
Theorem archive_members_classified (w : World) (st : State)
    (u file_num extension : string) (content : bytes) (zf : Archive) :
  requests_get w (now st) u = Ok content ->
  is_zip_file content = true ->
  ZipFile w (S (now st)) content = Ok zf ->
  (forall name, name ∈ namelist zf -> exists data, zf_read zf name = Ok data) ->
  (forall n, open_wb w n (main_filename file_num extension) = None) ->
  (forall n, open_wb w n (overlay_filename file_num extension) = None) ->
  exists st' refs,
    download_and_extract w u file_num extension st = (Ok refs, st') /\
    refs = map (member_ref zf file_num extension) (namelist zf) /\
    (forall name,
       (occurs_ignoring_case "-overlay" name /\
        member_ref zf file_num extension name =
          mkFileRef (overlay_filename file_num extension)
                    (length (member_data zf name)) "overlay") \/
       (~ occurs_ignoring_case "-overlay" name /\
        member_ref zf file_num extension name =
          mkFileRef (main_filename file_num extension)
                    (length (member_data zf name)) "main")) /\
    fs_files st' = extracted zf file_num extension (namelist zf) (fs_files st) /\
    (forall n1 d1 n2 d2,
       zf = [(n1, Ok d1); (n2, Ok d2)] \/ zf = [(n2, Ok d2); (n1, Ok d1)] ->
       occurs_ignoring_case "-overlay" n1 ->
       ~ occurs_ignoring_case "-overlay" n2 ->
       refs ≡ₚ [mkFileRef (overlay_filename file_num extension) (length d1) "overlay";
                mkFileRef (main_filename file_num extension) (length d2) "main"] /\
       fs_files st' !! overlay_filename file_num extension = Some d1 /\
       fs_files st' !! main_filename file_num extension = Some d2).
Proof.
  intros Hget Hzip Hopen Hread Hmain Hover.
  destruct (download_and_extract_archive w st u file_num extension content zf
              Hget Hzip Hopen Hread Hmain Hover) as (st' & Hrun & Hfs).
  exists st', (map (member_ref zf file_num extension) (namelist zf)).
  split_and!; [done|done|apply member_ref_role|done|].
  intros n1 d1 n2 d2 Hzf H1 H2.
  assert (Hne : n1 <> n2) by (intros ->; contradiction).
  assert (Hr1 : member_ref zf file_num extension n1 =
                mkFileRef (overlay_filename file_num extension) (length d1) "overlay").
  { destruct (member_ref_role zf file_num extension n1) as [[_ ->]|[? _]]; [|done].
    unfold member_data. destruct Hzf as [-> | ->].
    - by rewrite (proj1 (zf_read_two n1 (Ok d1) n2 (Ok d2) Hne)).
    - by rewrite (proj2 (zf_read_two n2 (Ok d2) n1 (Ok d1) (not_eq_sym Hne))). }
  assert (Hr2 : member_ref zf file_num extension n2 =
                mkFileRef (main_filename file_num extension) (length d2) "main").
  { destruct (member_ref_role zf file_num extension n2) as [[? _]|[_ ->]]; [done|].
    unfold member_data. destruct Hzf as [-> | ->].
    - by rewrite (proj2 (zf_read_two n1 (Ok d1) n2 (Ok d2) Hne)).
    - by rewrite (proj1 (zf_read_two n2 (Ok d2) n1 (Ok d1) (not_eq_sym Hne))). }
  assert (Hc1 : (classify file_num extension n1).2 = overlay_filename file_num extension).
  { by destruct (classify_role file_num extension n1) as [[_ ->]|[? _]]. }
  assert (Hc2 : (classify file_num extension n2).2 = main_filename file_num extension).
  { by destruct (classify_role file_num extension n2) as [[? _]|[_ ->]]. }
  pose proof (main_overlay_distinct file_num extension) as Hdist.
  rewrite Hfs. destruct Hzf as [-> | ->]; unfold namelist, extracted, member_data;
    cbn [fmap list_fmap fst map foldl].
  - rewrite Hr1, Hr2, Hc1, Hc2.
    rewrite (proj1 (zf_read_two n1 (Ok d1) n2 (Ok d2) Hne)).
    rewrite (proj2 (zf_read_two n1 (Ok d1) n2 (Ok d2) Hne)).
    split_and!; [done| |apply lookup_insert_eq].
    rewrite lookup_insert_ne by done. apply lookup_insert_eq.
  - rewrite Hr1, Hr2, Hc1, Hc2.
    rewrite (proj1 (zf_read_two n2 (Ok d2) n1 (Ok d1) (not_eq_sym Hne))).
    rewrite (proj2 (zf_read_two n2 (Ok d2) n1 (Ok d1) (not_eq_sym Hne))).
    split_and!; [apply Permutation_swap|apply lookup_insert_eq|].
    rewrite lookup_insert_ne by done. apply lookup_insert_eq.
Qed.

Lemma archive_members_classified_witness :
  exists st' refs,
    download_and_extract (Examples.serving Examples.capitals_archive)
        "https://example.com/1" "01" ".jpg" (initial_state Absent ∅ ∅) = (Ok refs, st') /\
    refs = map (member_ref Examples.capitals_archive "01" ".jpg")
               (namelist Examples.capitals_archive) /\
    (forall name,
       (occurs_ignoring_case "-overlay" name /\
        member_ref Examples.capitals_archive "01" ".jpg" name =
          mkFileRef (overlay_filename "01" ".jpg")
                    (length (member_data Examples.capitals_archive name)) "overlay") \/
       (~ occurs_ignoring_case "-overlay" name /\
        member_ref Examples.capitals_archive "01" ".jpg" name =
          mkFileRef (main_filename "01" ".jpg")
                    (length (member_data Examples.capitals_archive name)) "main")) /\
    fs_files st' = extracted Examples.capitals_archive "01" ".jpg"
                     (namelist Examples.capitals_archive)
                     (fs_files (initial_state Absent ∅ ∅)) /\
    (forall n1 d1 n2 d2,
       Examples.capitals_archive = [(n1, Ok d1); (n2, Ok d2)] \/
       Examples.capitals_archive = [(n2, Ok d2); (n1, Ok d1)] ->
       occurs_ignoring_case "-overlay" n1 ->
       ~ occurs_ignoring_case "-overlay" n2 ->
       refs ≡ₚ [mkFileRef (overlay_filename "01" ".jpg") (length d1) "overlay";
                mkFileRef (main_filename "01" ".jpg") (length d2) "main"] /\
       fs_files st' !! overlay_filename "01" ".jpg" = Some d1 /\
       fs_files st' !! main_filename "01" ".jpg" = Some d2).
Proof.
  apply (archive_members_classified (Examples.serving Examples.capitals_archive)
           (initial_state Absent ∅ ∅) "https://example.com/1" "01" ".jpg"
           Examples.zip_payload Examples.capitals_archive);
    try reflexivity.
  intros name Hin. vm_compute in Hin.
  apply list_elem_of_In in Hin. destruct Hin as [<-|[<-|[]]]; eexists; reflexivity.
Defined.

(** The role does not depend on the case of the name; an underscore is
    no hyphen. *)
Example classify_examples :
  (classify "07" ".jpg" "IMG-Overlay.PNG").1 = "overlay" /\
  (classify "07" ".jpg" "img-OVERLAY.png").1 = "overlay" /\
  (classify "07" ".jpg" "IMG_OVERLAY.PNG").1 = "main" /\
  (classify "07" ".jpg" "overlay.png").1 = "main".
Proof. by vm_compute. Qed.

(** C10.  Under the same conditions every member of an archive is written
    to one of two paths, [{file_num}-main{ext}] or
    [{file_num}-overlay{ext}]: the result has one FileRef per member, each
    with one of these two paths, while the output directory gains at most
    these two files; an archive without members gives the empty list; and
    of two members with different names and the same role, both are
    listed with the same path, and the file holds the later one. *)
Theorem archive_roles_share_paths (w : World) (st : State)
    (u file_num extension : string) (content : bytes) (zf : Archive) :
  requests_get w (now st) u = Ok content ->
  is_zip_file content = true ->
  ZipFile w (S (now st)) content = Ok zf ->
  (forall name, name ∈ namelist zf -> exists data, zf_read zf name = Ok data) ->
  (forall n, open_wb w n (main_filename file_num extension) = None) ->
  (forall n, open_wb w n (overlay_filename file_num extension) = None) ->
  exists st' refs,
    download_and_extract w u file_num extension st = (Ok refs, st') /\
    length refs = length zf /\
    Forall (fun r => fr_path r = main_filename file_num extension \/
                     fr_path r = overlay_filename file_num extension) refs /\
    dom (fs_files st') ⊆
      dom (fs_files st) ∪
      {[main_filename file_num extension; overlay_filename file_num extension]} /\
    (zf = [] -> refs = []) /\
    (forall n1 d1 n2 d2,
       zf = [(n1, Ok d1); (n2, Ok d2)] ->
       n1 <> n2 ->
       classify file_num extension n1 = classify file_num extension n2 ->
       refs = [mkFileRef (classify file_num extension n1).2 (length d1)
                         (classify file_num extension n1).1;
               mkFileRef (classify file_num extension n1).2 (length d2)
                         (classify file_num extension n1).1] /\
       fs_files st' = <[(classify file_num extension n1).2 := d2]> (fs_files st)).
Proof.
  intros Hget Hzip Hopen Hread Hmain Hover.
  destruct (download_and_extract_archive w st u file_num extension content zf
              Hget Hzip Hopen Hread Hmain Hover) as (st' & Hrun & Hfs).
  exists st', (map (member_ref zf file_num extension) (namelist zf)).
  split_and!.
  - done.
  - unfold namelist. by rewrite length_map, length_fmap.
  - apply Forall_forall. intros r Hr. apply list_elem_of_In, in_map_iff in Hr as (name & <- & _).
    destruct (member_ref_spec zf file_num extension name) as [[_ ->]|[_ ->]]; auto.
  - rewrite Hfs. apply extracted_dom.
  - by intros ->.
  - intros n1 d1 n2 d2 -> Hne Hc.
    destruct (zf_read_two n1 (Ok d1) n2 (Ok d2) Hne) as [E1 E2].
    rewrite Hfs. unfold namelist, extracted, member_ref, member_data.
    cbn [fmap list_fmap fst map foldl]. rewrite E1, E2, <- Hc. split; [done|].
    apply insert_insert_eq.
Qed.

Lemma archive_roles_share_paths_witness :
  exists st' refs,
    download_and_extract (Examples.serving Examples.two_mains_archive)
        "https://example.com/1" "01" ".jpg" (initial_state Absent ∅ ∅) = (Ok refs, st') /\
    length refs = length Examples.two_mains_archive /\
    Forall (fun r => fr_path r = main_filename "01" ".jpg" \/
                     fr_path r = overlay_filename "01" ".jpg") refs /\
    dom (fs_files st') ⊆
      dom (fs_files (initial_state Absent ∅ ∅)) ∪
      {[main_filename "01" ".jpg"; overlay_filename "01" ".jpg"]} /\
    (Examples.two_mains_archive = [] -> refs = []) /\
    (forall n1 d1 n2 d2,
       Examples.two_mains_archive = [(n1, Ok d1); (n2, Ok d2)] ->
       n1 <> n2 ->
       classify "01" ".jpg" n1 = classify "01" ".jpg" n2 ->
       refs = [mkFileRef (classify "01" ".jpg" n1).2 (length d1) (classify "01" ".jpg" n1).1;
               mkFileRef (classify "01" ".jpg" n1).2 (length d2) (classify "01" ".jpg" n1).1] /\
       fs_files st' = <[(classify "01" ".jpg" n1).2 := d2]>
                        (fs_files (initial_state Absent ∅ ∅))).
Proof.
  apply (archive_roles_share_paths (Examples.serving Examples.two_mains_archive)
           (initial_state Absent ∅ ∅) "https://example.com/1" "01" ".jpg"
           Examples.zip_payload Examples.two_mains_archive);
    try reflexivity.
  intros name Hin. vm_compute in Hin.
  apply list_elem_of_In in Hin. destruct Hin as [<-|[<-|[]]]; eexists; reflexivity.
Defined.

(** The two-plain-members archive, evaluated: two FileRefs, one file. *)
Example two_mains_one_file :
  let r := download_and_extract (Examples.serving Examples.two_mains_archive)
             "https://example.com/1" "01" ".jpg" (initial_state Absent ∅ ∅) in
  r.1 = Ok [mkFileRef "01-main.jpg" 1 "main"; mkFileRef "01-main.jpg" 2 "main"] /\
  map_to_list (fs_files r.2) = [("01-main.jpg", [x02; x03])].
Proof. vm_compute. done. Qed.

(* ===================================================================== *)
(** * The effects of one iteration                                        *)
(* ===================================================================== *)

Lemma bind_run {A B} (m : M A) (k : A -> M B) (st : State) :
  bind m k st =
  match m st with
  | (Ok a, st') => k a st'
  | (Raise e, st') => (Raise e, st')
  end.
Proof. reflexivity. Qed.

Lemma io_only_refl st : io_only st st.
Proof.
  split_and!; [done|done|]. exists []. by rewrite app_nil_r.
Qed.

Lemma io_only_trans st1 st2 st3 : io_only st1 st2 -> io_only st2 st3 -> io_only st1 st3.
Proof.
  intros (Hl1 & Hj1 & evs1 & Ht1 & Hf1) (Hl2 & Hj2 & evs2 & Ht2 & Hf2).
  split_and!; [congruence|congruence|].
  exists (evs1 ++ evs2)%list. split.
  - by rewrite Ht2, Ht1, app_assoc.
  - by apply Forall_app.
Qed.

Lemma io_only_log ev st : io_event ev -> io_only st (log ev st).
Proof.
  intros Hev. split_and!; [done|done|]. exists [ev]. split; [done|].
  by apply Forall_singleton.
Qed.

Lemma io_action_ret {A} (a : A) : io_action (ret a).
Proof. intros st r st' [= <- <-]. apply io_only_refl. Qed.

Lemma io_action_lift {A} (x : result A) : io_action (lift x).
Proof. intros st r st' [= <- <-]. apply io_only_refl. Qed.

Lemma io_action_bind {A B} (m : M A) (k : A -> M B) :
  io_action m -> (forall a, io_action (k a)) -> io_action (bind m k).
Proof.
  intros Hm Hk st r st'. rewrite bind_run.
  destruct (m st) as [[a|e] st1] eqn:E; intros H.
  - eapply io_only_trans; [by eapply Hm|by eapply Hk].
  - injection H as <- <-. by eapply Hm.
Qed.

Lemma io_action_print w msg : io_action (print w msg).
Proof. intros st r st' [= <- <-]. apply io_only_refl. Qed.

Lemma io_action_parse_date w tz v : io_action (parse_date w tz v).
Proof. intros st r st' [= <- <-]. apply io_only_refl. Qed.

Lemma io_action_http_get w u : io_action (http_get w u).
Proof. intros st r st' [= <- <-]. by apply io_only_log. Qed.

Lemma io_action_open_zip w content : io_action (open_zip w content).
Proof. intros st r st' [= <- <-]. apply io_only_refl. Qed.

Lemma io_action_write_file w path data : io_action (write_file w path data).
Proof.
  intros st r st'. unfold write_file. destruct (open_wb _ _ _); intros [= <- <-].
  - apply io_only_refl.
  - split_and!; [done|done|]. exists [EvWrite path]. split; [done|].
    by apply Forall_singleton.
Qed.

Lemma io_action_utime w path t : io_action (utime w path t).
Proof.
  intros st r st'. unfold utime. destruct (os_utime _ _ _); intros [= <- <-].
  - apply io_only_refl.
  - split_and!; [done|done|]. exists [EvUtime path t]. split; [done|].
    by apply Forall_singleton.
Qed.

Lemma io_action_extract_members w zf file_num extension names acc :
  io_action (extract_members w zf file_num extension names acc).
Proof.
  revert acc. induction names as [|name names IH]; intros acc; cbn [extract_members].
  - apply io_action_ret.
  - apply io_action_bind; [apply io_action_lift|]. intros data.
    destruct (classify file_num extension name) as [ty out].
    apply io_action_bind; [apply io_action_write_file|]. intros _. apply IH.
Qed.

Lemma io_action_download_and_extract w u file_num extension :
  io_action (download_and_extract w u file_num extension).
Proof.
  unfold download_and_extract.
  apply io_action_bind; [apply io_action_http_get|]. intros content.
  destruct (is_zip_file content).
  - apply io_action_bind; [apply io_action_open_zip|]. intros zf.
    apply io_action_extract_members.
  - apply io_action_bind; [apply io_action_write_file|]. intros _.
    apply io_action_ret.
Qed.

Lemma io_action_set_file_timestamps w files_saved t :
  io_action (set_file_timestamps w files_saved t).
Proof.
  induction files_saved as [|file_info rest IH]; cbn [set_file_timestamps].
  - apply io_action_ret.
  - apply io_action_bind; [apply io_action_utime|]. intros _. apply IH.
Qed.

(** The [try] block either raises, having done input and output only, or
    ends in the transition to ['success'] with a non-empty [files]. *)
Lemma attempt_cases w tz idx memory metadata st r st' :
  attempt w tz idx memory metadata st = (r, st') ->
  (exists e, r = Raise e /\ io_only st st') \/
  (r = Ok tt /\ exists st2 files_saved,
     io_only st st2 /\ files_saved <> [] /\
     metadata_list st' =
       alter (set_files files_saved) idx
         (alter (set_status "success") idx (metadata_list st2)) /\
     metadata_json st' = metadata_json st2 /\
     trace st' = (trace st2 ++ [EvStatus idx "success"])%list).
Proof.
  unfold attempt. rewrite bind_run.
  destruct (download_and_extract _ _ _ _ st) as [[files_saved|e] st1] eqn:Ed;
    [|intros [= <- <-]; left; exists e; split; [done|];
      by eapply io_action_download_and_extract].
  apply io_action_download_and_extract in Ed.
  rewrite bind_run.
  assert (Hne : forall (X : result unit * State),
            (if (1 <? length files_saved)%nat then ret tt
             else bind (lift (py_index files_saved 0)) (fun _ => ret tt)) st1 = X ->
            (exists e, X = (Raise e, st1)) \/ (X = (Ok tt, st1) /\ files_saved <> [])).
  { intros X <-. destruct files_saved as [|f0 rest].
    - left. eexists. reflexivity.
    - right. split; [|done]. by destruct (1 <? _)%nat. }
  destruct (Hne _ eq_refl) as [[e ->]|[-> Hnonempty]];
    [intros [= <- <-]; left; by exists e|].
  rewrite bind_run. unfold parse_date at 1.
  destruct (parse_date_to_timestamp _ tz _) as [ts|e];
    [|intros [= <- <-]; left; by exists e].
  rewrite bind_run.
  destruct ((if truthy ts then set_file_timestamps w files_saved (default 0 ts)
             else ret tt) st1) as [[[]|e] st2] eqn:Et.
  - assert (Hio : io_only st1 st2).
    { destruct (truthy ts);
        [by eapply io_action_set_file_timestamps|by eapply io_action_ret]. }
    intros [= <- <-]. right. split; [done|]. exists st2, files_saved.
    split; [by eapply io_only_trans|]. done.
  - assert (Hio : io_only st1 st2).
    { destruct (truthy ts);
        [by eapply io_action_set_file_timestamps|by eapply io_action_ret]. }
    intros [= <- <-]. left. exists e. split; [done|]. by eapply io_only_trans.
Qed.

(** A write of the ledger either replaces the document and is recorded,
    or raises, with the document as it was or cut short; nothing else
    changes. *)
Lemma write_ledger_cases w l st r st' :
  write_ledger w l st = (r, st') ->
  metadata_list st' = metadata_list st /\
  fs_files st' = fs_files st /\
  fs_mtime st' = fs_mtime st /\
  ((r = Ok tt /\ metadata_json st' = Stored l /\
    trace st' = (trace st ++ [EvSave l])%list) \/
   (exists e, r = Raise e /\ write_failure w e /\ trace st' = trace st /\
      (metadata_json st' = metadata_json st \/ metadata_json st' = Truncated))).
Proof.
  unfold write_ledger. destruct (open_w w (now st)) as [e|] eqn:Eo.
  - intros [= <- <-]. split_and!; [done..|]. right. exists e.
    split_and!; [done| |done|by left]. exists (now st). by left.
  - destruct (json_dump w (now st) l) as [e|] eqn:Ed; intros [= <- <-].
    + split_and!; [done..|]. right. exists e.
      split_and!; [done| |done|by right]. exists (now st). right. by exists l.
    + split_and!; [done..|]. by left.
Qed.

(** With a document that can be written, a write goes through. *)
Lemma write_ledger_writable w l st :
  ledger_writable w ->
  write_ledger w l st =
    (Ok tt, log (EvSave l)
              (mkState (metadata_list st) (Stored l) (fs_files st) (fs_mtime st)
                       (trace st))).
Proof. intros [Ho Hd]. unfold write_ledger. by rewrite Ho, Hd. Qed.

Lemma not_write_failure w e : ledger_writable w -> ~ write_failure w e.
Proof.
  intros [Ho Hd] (n & [H|(l & H)]); [by rewrite Ho in H|by rewrite Hd in H].
Qed.

Lemma save_metadata_cases w st r st' :
  save_metadata w st = (r, st') ->
  metadata_list st' = metadata_list st /\
  fs_files st' = fs_files st /\
  fs_mtime st' = fs_mtime st /\
  ((r = Ok tt /\ metadata_json st' = Stored (metadata_list st) /\
    trace st' = (trace st ++ [EvSave (metadata_list st)])%list) \/
   (exists e, r = Raise e /\ write_failure w e /\ trace st' = trace st /\
      (metadata_json st' = metadata_json st \/ metadata_json st' = Truncated))).
Proof. apply write_ledger_cases. Qed.

(** The checkpoint of an iteration. *)
Lemma begin_item_cases w idx st r st' :
  begin_item w idx st = (r, st') ->
  metadata_list st' = started idx (metadata_list st) /\
  fs_files st' = fs_files st /\
  fs_mtime st' = fs_mtime st /\
  ((r = Ok tt /\ metadata_json st' = Stored (started idx (metadata_list st)) /\
    trace st' = (trace st ++ [EvStatus idx "in_progress";
                              EvSave (started idx (metadata_list st))])%list) \/
   (exists e, r = Raise e /\ write_failure w e /\
      trace st' = (trace st ++ [EvStatus idx "in_progress"])%list /\
      (metadata_json st' = metadata_json st \/ metadata_json st' = Truncated))).
Proof.
  unfold begin_item. rewrite bind_run.
  change (mark_status idx "in_progress" st)
    with (Ok tt, mkState (started idx (metadata_list st)) (metadata_json st)
                   (fs_files st) (fs_mtime st)
                   (trace st ++ [EvStatus idx "in_progress"])).
  intros H. apply save_metadata_cases in H
    as (Hl & Hf & Hm & [(-> & Hj & Ht)|(e & -> & Hw & Ht & Hj)]);
    cbn [metadata_list metadata_json fs_files fs_mtime trace] in *.
  - split_and!; [done..|]. left. split_and!; [done|done|].
    by rewrite Ht, <- app_assoc.
  - split_and!; [done..|]. right. by exists e.
Qed.

(** Every iteration has one of the outcomes of [item_outcome]. *)
Lemma process_item_cases w tz memories idx st r st' :
  process_item w tz memories idx st = (r, st') -> item_outcome w idx st r st'.
Proof.
  unfold process_item. rewrite bind_run. unfold lift at 1.
  destruct (py_index memories idx) as [memory|e];
    [|intros [= <- <-]; apply item_untouched].
  rewrite bind_run. unfold get_metadata_list at 1.
  rewrite bind_run. unfold lift at 1.
  destruct (py_index (metadata_list st) idx) as [metadata|e] eqn:Ei;
    [|intros [= <- <-]; apply item_untouched].
  assert (Hidx : metadata_list st !! idx = Some metadata).
  { unfold py_index in Ei. by destruct (metadata_list st !! idx); inversion Ei. }
  destruct (already_downloaded metadata) eqn:Ea;
    [intros [= <- <-]; apply item_untouched|].
  rewrite bind_run.
  destruct (begin_item w idx st) as [rb st1] eqn:Eb.
  apply begin_item_cases in Eb
    as (Hl1 & _ & _ & [(-> & Hj1 & Ht1)|(e & -> & Hw1 & Ht1 & Hj1)]).
  2:{ intros [= <- <-]. by eapply (item_not_started w idx st metadata e). }
  rewrite bind_run. unfold try_catch.
  destruct (attempt w tz idx memory metadata st1) as [r2 st2] eqn:Eat.
  apply attempt_cases in Eat
    as [(e & -> & Hl2 & Hj2 & io & Ht2 & Hio)
       |(-> & st3 & files_saved & (Hl3 & Hj3 & io & Ht3 & Hio) & Hne & Hl2 & Hj2 & Ht2)].
  - case_bool_decide as Hc.
    + (* caught: the handler *)
      unfold on_error. rewrite bind_run. unfold print at 1, print_to.
      destruct (stdout w (now st2) _) as [e'|].
      { (* [print] raises *)
        intros [= <- <-].
        eapply (item_aborted w idx st metadata e' io); try done.
        - congruence.
        - congruence.
        - rewrite Ht2, Ht1. by rewrite <- !app_assoc. }
      rewrite bind_run.
      change (mark_status idx "failed" st2)
        with (Ok tt, mkState (alter (set_status "failed") idx (metadata_list st2))
                       (metadata_json st2) (fs_files st2) (fs_mtime st2)
                       (trace st2 ++ [EvStatus idx "failed"])).
      unfold update_entry at 1.
      cbn [metadata_list metadata_json fs_files fs_mtime trace].
      intros H. apply save_metadata_cases in H
        as (Hl & _ & _ & [(-> & Hj & Ht)|(e' & -> & Hw & Ht & Hj)]);
        cbn [metadata_list metadata_json fs_files fs_mtime trace] in *.
      * eapply (item_failed w idx st metadata e io); try done.
        -- unfold failed. by rewrite Hl, Hl2, Hl1.
        -- unfold failed. by rewrite Hj, Hl2, Hl1.
        -- unfold failed. rewrite Ht, Ht2, Ht1, Hl2, Hl1. by rewrite <- !app_assoc.
      * eapply (item_failed_unsaved w idx st metadata e e' io); try done.
        -- unfold failed. by rewrite Hl, Hl2, Hl1.
        -- destruct Hj as [Hj|Hj]; [left|by right]. by rewrite Hj, Hj2, Hj1.
        -- rewrite Ht, Ht2, Ht1. by rewrite <- !app_assoc.
    + (* not caught: the run is aborted *)
      intros [= <- <-].
      eapply (item_aborted w idx st metadata e io); try done.
      * congruence.
      * congruence.
      * rewrite Ht2, Ht1. by rewrite <- !app_assoc.
  - intros H. apply save_metadata_cases in H
      as (Hl & _ & _ & [(-> & Hj & Ht)|(e' & -> & Hw & Ht & Hj)]).
    + eapply (item_success w idx st metadata files_saved io); try done.
      * unfold succeeded. by rewrite Hl, Hl2, Hl3, Hl1.
      * unfold succeeded. by rewrite Hj, Hl2, Hl3, Hl1.
      * unfold succeeded. rewrite Ht, Ht2, Ht3, Ht1, Hl2, Hl3, Hl1.
        by rewrite <- !app_assoc.
    + eapply (item_success_unsaved w idx st metadata files_saved e' io); try done.
      * unfold succeeded. by rewrite Hl, Hl2, Hl3, Hl1.
      * destruct Hj as [Hj|Hj]; [left|by right]. by rewrite Hj, Hj2, Hj3, Hj1.
      * rewrite Ht, Ht2, Ht3, Ht1. by rewrite <- !app_assoc.
Qed.

(* ===================================================================== *)
(** * The ledger through an iteration                                     *)
(* ===================================================================== *)

Lemma lookup_started_eq idx l m :
  l !! idx = Some m -> started idx l !! idx = Some (set_status "in_progress" m).
Proof. intros H. unfold started. by rewrite list_lookup_alter_eq, H. Qed.

Lemma lookup_succeeded_eq idx files_saved l m :
  l !! idx = Some m ->
  succeeded idx files_saved l !! idx =
    Some (set_files files_saved (set_status "success" (set_status "in_progress" m))).
Proof.
  intros H. unfold succeeded. rewrite !list_lookup_alter_eq.
  by rewrite (lookup_started_eq idx l m H).
Qed.

Lemma lookup_failed_eq idx e l m :
  l !! idx = Some m ->
  failed idx e l !! idx =
    Some (set_error (exn_msg e) (set_status "failed" (set_status "in_progress" m))).
Proof.
  intros H. unfold failed. rewrite !list_lookup_alter_eq.
  by rewrite (lookup_started_eq idx l m H).
Qed.


Lemma lookup_succeeded_ne idx j files_saved l :
  idx <> j -> succeeded idx files_saved l !! j = l !! j.
Proof. intros H. unfold succeeded, started. by rewrite !list_lookup_alter_ne. Qed.

Lemma lookup_failed_ne idx j e l : idx <> j -> failed idx e l !! j = l !! j.
Proof. intros H. unfold failed, started. by rewrite !list_lookup_alter_ne. Qed.

(** An entry that is not skipped and satisfies the invariant has no
    files. *)
Lemma not_downloaded_no_files m :
  entry_inv m -> already_downloaded m = false ->
  files m = [] /\ status m <> "success".
Proof.
  unfold entry_inv, already_downloaded. intros Hinv Ha.
  apply andb_false_iff in Ha as [Ha|Ha].
  - apply bool_decide_eq_false in Ha. split; [|done].
    destruct (files m) eqn:E; [done|]. exfalso. by apply Ha, Hinv.
  - apply negb_false_iff, bool_decide_eq_true in Ha. split; [done|].
    intros Hs. apply Hinv in Hs. done.
Qed.

Lemma entry_inv_started idx l m :
  l !! idx = Some m -> already_downloaded m = false ->
  Forall entry_inv l -> Forall entry_inv (started idx l).
Proof.
  intros Hm Ha Hl. apply Forall_alter; [done|]. intros x Hx Hinv.
  assert (x = m) as -> by congruence.
  destruct (not_downloaded_no_files m Hinv Ha) as [Hf _].
  unfold entry_inv, set_status. cbn [files status]. rewrite Hf.
  split; [done|discriminate].
Qed.

Lemma entry_inv_succeeded idx files_saved l m :
  l !! idx = Some m -> already_downloaded m = false -> files_saved <> [] ->
  Forall entry_inv l -> Forall entry_inv (succeeded idx files_saved l).
Proof.
  intros Hm Ha Hne Hl. apply Forall_lookup. intros j x Hj.
  destruct (decide (idx = j)) as [<-|Hij].
  - rewrite (lookup_succeeded_eq idx files_saved l m Hm) in Hj.
    injection Hj as <-. unfold entry_inv, set_files, set_status. by cbn [files status].
  - rewrite lookup_succeeded_ne in Hj by done. by eapply Forall_lookup_1.
Qed.

Lemma entry_inv_failed idx e l m :
  l !! idx = Some m -> already_downloaded m = false ->
  Forall entry_inv l -> Forall entry_inv (failed idx e l).
Proof.
  intros Hm Ha Hl. apply Forall_lookup. intros j x Hj.
  destruct (decide (idx = j)) as [<-|Hij].
  - rewrite (lookup_failed_eq idx e l m Hm) in Hj. injection Hj as <-.
    destruct (not_downloaded_no_files m (Forall_lookup_1 _ _ _ _ Hl Hm) Ha) as [Hf _].
    unfold entry_inv, set_error, set_status. cbn [files status]. rewrite Hf.
    split; [done|discriminate].
  - rewrite lookup_failed_ne in Hj by done. by eapply Forall_lookup_1.
Qed.

Lemma entry_inv_seed memories : Forall entry_inv (seed memories).
Proof.
  apply Forall_lookup. intros i x Hi. unfold seed in Hi.
  rewrite list_lookup_imap in Hi. destruct (memories !! i); [|done].
  injection Hi as <-. unfold entry_inv, seed_entry. cbn [files status].
  split; [done|discriminate].
Qed.

Lemma EvSave_io doc io : Forall io_event io -> EvSave doc ∉ io.
Proof.
  intros Hio Hin. by apply (proj1 (Forall_forall _ _) Hio) in Hin.
Qed.

(** An iteration keeps the invariant of every ledger in sight. *)
Lemma item_outcome_state_inv w idx st r st' :
  item_outcome w idx st r st' -> state_inv st -> state_inv st'.
Proof.
  intros Hout (Hl & Hj & Ht).
  destruct Hout as [r
    | m e st' Hm Ha Hw Hl' Hj' Ht'
    | m e io st' Hm Ha Hio Hl' Hj' Ht'
    | m fsv io st' Hm Ha Hne Hio Hl' Hj' Ht'
    | m e io st' Hm Ha Hc Hio Hl' Hj' Ht'
    | m fsv e io st' Hm Ha Hne Hw Hio Hl' Hj' Ht'
    | m e0 e io st' Hm Ha Hc Hw Hio Hl' Hj' Ht']; [done|..];
    pose proof (entry_inv_started idx _ m Hm Ha Hl) as H1.
  - split_and!; [by rewrite Hl'| |].
    + intros doc. destruct Hj' as [-> | ->]; [apply Hj|done].
    + intros doc. rewrite Ht', elem_of_app, list_elem_of_singleton.
      intros [?|[=]]. by apply Ht.
  - split_and!; [by rewrite Hl'| intros doc; rewrite Hj'; by intros [= <-] |].
    intros doc. rewrite Ht', !elem_of_app, !elem_of_cons, elem_of_nil.
    intros [?|[[?|[[= ->]|[]]]|Hin]]; [by apply Ht|done|done|].
    by apply EvSave_io in Hin.
  - pose proof (entry_inv_succeeded idx fsv _ m Hm Ha Hne Hl) as H2.
    split_and!; [by rewrite Hl'| intros doc; rewrite Hj'; by intros [= <-] |].
    intros doc. rewrite Ht', !elem_of_app, !elem_of_cons, elem_of_nil.
    intros [?|[[?|[[= ->]|[]]]|[Hin|[?|[[= ->]|[]]]]]];
      [by apply Ht|done|done| |done|done].
    by apply EvSave_io in Hin.
  - pose proof (entry_inv_failed idx e _ m Hm Ha Hl) as H2.
    split_and!; [by rewrite Hl'| intros doc; rewrite Hj'; by intros [= <-] |].
    intros doc. rewrite Ht', !elem_of_app, !elem_of_cons, elem_of_nil.
    intros [?|[[?|[[= ->]|[]]]|[Hin|[?|[[= ->]|[]]]]]];
      [by apply Ht|done|done| |done|done].
    by apply EvSave_io in Hin.
  - pose proof (entry_inv_succeeded idx fsv _ m Hm Ha Hne Hl) as H2.
    split_and!; [by rewrite Hl'| |].
    + intros doc. destruct Hj' as [-> | ->]; [by intros [= <-]|done].
    + intros doc. rewrite Ht', !elem_of_app, !elem_of_cons, elem_of_nil.
      intros [?|[[?|[[= ->]|[]]]|[Hin|[?|[]]]]];
        [by apply Ht|done|done| |done].
      by apply EvSave_io in Hin.
  - pose proof (entry_inv_failed idx e0 _ m Hm Ha Hl) as H2.
    split_and!; [by rewrite Hl'| |].
    + intros doc. destruct Hj' as [-> | ->]; [by intros [= <-]|done].
    + intros doc. rewrite Ht', !elem_of_app, !elem_of_cons, elem_of_nil.
      intros [?|[[?|[[= ->]|[]]]|[Hin|[?|[]]]]];
        [by apply Ht|done|done| |done].
      by apply EvSave_io in Hin.
Qed.

(** A property of states kept by every iteration is kept by the loop,
    however it ends. *)
Lemma process_items_preserves (P : State -> Prop) w tz memories :
  (forall idx st r st', item_outcome w idx st r st' -> P st -> P st') ->
  forall items st r st',
    process_items w tz memories items st = (r, st') -> P st -> P st'.
Proof.
  intros Hstep items. induction items as [|[idx m] items IH]; intros st r st'.
  - by intros [= <- <-].
  - cbn [process_items]. rewrite bind_run.
    destruct (process_item w tz memories idx st) as [[[]|e] st1] eqn:E;
      apply process_item_cases in E.
    + intros Hrest HP. eapply IH; [done|]. by eapply Hstep.
    + intros [= <- <-] HP. by eapply Hstep.
Qed.

(** The same for a whole run, when loading or seeding the ledger
    establishes the property, however that ends, and the final rewrite
    keeps it, however it ends. *)
Lemma download_all_memories_preserves (P : State -> Prop) w tz memories
    resume retry_failed st :
  (forall idx st r st', item_outcome w idx st r st' -> P st -> P st') ->
  (memories = [] -> P st) ->
  (memories <> [] ->
   P ((bind (initialize_metadata w memories) set_metadata_list) st).2) ->
  (forall st0, P st0 -> P (save_metadata w st0).2) ->
  P (download_all_memories w tz memories resume retry_failed st).2.
Proof.
  intros Hstep HP Hinit Hsave. unfold download_all_memories.
  destruct memories as [|memory memories]; [by apply HP|].
  specialize (Hinit ltac:(done)). clear HP.
  set (ms := memory :: memories) in *. clearbody ms.
  rewrite bind_run.
  rewrite bind_run in Hinit.
  destruct (initialize_metadata w ms st) as [[l|e] st0] eqn:Ei; [|done].
  rewrite bind_run.
  destruct (set_metadata_list l st0) as [[[]|e] st1] eqn:Es; [|by inversion Es].
  cbn [snd] in Hinit.
  destruct (items_to_download resume retry_failed l) as [|item items] eqn:Eit; [done|].
  rewrite bind_run.
  destruct (process_items w tz ms (item :: items) st1) as [[[]|e] st2] eqn:Ep.
  - apply Hsave. by eapply (process_items_preserves P).
  - by eapply (process_items_preserves P).
Qed.

(** What loading or seeding the ledger does. *)
Lemma initialize_metadata_cases w memories st r st' :
  (bind (initialize_metadata w memories) set_metadata_list) st = (r, st') ->
  fs_files st' = fs_files st /\ fs_mtime st' = fs_mtime st /\
  ((exists doc, metadata_json st = Stored doc /\ r = Ok tt /\
      metadata_list st' = doc /\ metadata_json st' = Stored doc /\
      trace st' = trace st) \/
   (metadata_json st = Truncated /\ r = Raise (json_load w) /\ st' = st) \/
   (metadata_json st = Absent /\ metadata_list st' = seed memories /\
    ((r = Ok tt /\ metadata_json st' = Stored (seed memories) /\
      trace st' = (trace st ++ [EvSave (seed memories)])%list) \/
     (exists e, r = Raise e /\ write_failure w e /\ trace st' = trace st /\
        (metadata_json st' = Absent \/ metadata_json st' = Truncated))))).
Proof.
  rewrite bind_run. unfold initialize_metadata.
  destruct (metadata_json st) as [|doc|] eqn:Ej.
  - rewrite !bind_run. unfold set_metadata_list at 1. rewrite bind_run.
    destruct (write_ledger w (seed memories) _) as [[[]|e] st1] eqn:Ew;
      apply write_ledger_cases in Ew
        as (Hl & Hf & Hm & [([=] & Hj & Ht)|(e' & [=] & Hw & Ht & Hj)]);
      cbn [metadata_list metadata_json fs_files fs_mtime trace] in *.
    + intros [= <- <-]. cbn [metadata_list metadata_json fs_files fs_mtime trace].
      split_and!; [done|done|]. right. right. split_and!; [done|done|]. by left.
    + subst e'. intros [= <- <-]. split_and!; [done|done|]. right. right.
      split_and!; [done|done|]. right. exists e. split_and!; [done|done|done|].
      rewrite Ej in Hj. done.
  - intros [= <- <-]. cbn. split_and!; [done|done|]. left. by exists doc.
  - intros [= <- <-]. split_and!; [done|done|]. right. by left.
Qed.

(* ===================================================================== *)
(** * The ledger invariant                                                *)
(* ===================================================================== *)

Lemma save_metadata_state_inv w st : state_inv st -> state_inv (save_metadata w st).2.
Proof.
  intros (Hl & Hj & Ht). destruct (save_metadata w st) as [r st'] eqn:E. cbn [snd].
  apply save_metadata_cases in E
    as (Hl' & _ & _ & [(-> & Hj' & Ht')|(e & -> & _ & Ht' & Hj')]).
  - split_and!; [by rewrite Hl'|rewrite Hj'; by intros doc [= <-]|].
    intros doc. rewrite Ht', elem_of_app, list_elem_of_singleton.
    intros [?|[= ->]]; [by apply Ht|done].
  - split_and!; [by rewrite Hl'| |by rewrite Ht'].
    intros doc. destruct Hj' as [-> | ->]; [apply Hj|done].
Qed.

Lemma initialize_state_inv w memories st :
  state_inv st ->
  state_inv ((bind (initialize_metadata w memories) set_metadata_list) st).2.
Proof.
  intros (Hl & Hj & Ht).
  destruct (bind _ _ st) as [r st'] eqn:E. cbn [snd].
  pose proof (entry_inv_seed memories) as Hs.
  apply initialize_metadata_cases in E
    as (_ & _ & [(doc & Hd & -> & Hl' & Hj' & Ht')
                |[(Hd & -> & ->)
                 |(Hd & Hl' & [(-> & Hj' & Ht')|(e & -> & _ & Ht' & Hj')])]]).
  - split_and!; [rewrite Hl'; by apply Hj|rewrite Hj'; intros ? [= <-]; by apply Hj|].
    by rewrite Ht'.
  - done.
  - split_and!; [by rewrite Hl'|rewrite Hj'; by intros ? [= <-]|].
    intros doc. rewrite Ht', elem_of_app, list_elem_of_singleton.
    intros [?|[= ->]]; [by apply Ht|done].
  - split_and!; [by rewrite Hl'| |by rewrite Ht'].
    intros doc. by destruct Hj' as [-> | ->].
Qed.

(** A run started on a document that satisfies the invariant keeps it, in
    memory, on disk and in every document it writes. *)
Lemma run_state_inv d w tz memories resume retry_failed fs mt :
  (forall doc, d = Stored doc -> Forall entry_inv doc) ->
  state_inv (download_all_memories w tz memories resume retry_failed
               (initial_state d fs mt)).2.
Proof.
  intros Hd.
  assert (H0 : state_inv (initial_state d fs mt)).
  { split_and!; [by apply Forall_nil|done|].
    intros doc Hin. by apply elem_of_nil in Hin. }
  apply (download_all_memories_preserves state_inv).
  - intros idx st r st'. apply item_outcome_state_inv.
  - done.
  - intros _. by apply initialize_state_inv.
  - intros st0. apply save_metadata_state_inv.
Qed.

Lemma reachable_inv d : reachable d -> forall doc, d = Stored doc -> Forall entry_inv doc.
Proof.
  induction 1 as [|d w tz memories resume retry_failed fs mt Hr IH
                  |d w tz memories resume retry_failed fs mt doc' Hr IH Hin].
  - done.
  - intros doc Hdoc.
    destruct (run_state_inv d w tz memories resume retry_failed fs mt IH)
      as (_ & Hj & _).
    by apply Hj.
  - intros doc [= <-].
    destruct (run_state_inv d w tz memories resume retry_failed fs mt IH)
      as (_ & _ & Ht).
    by apply Ht.
Qed.

(** C2.  The seeded ledger satisfies the invariant "[files] is non-empty
    exactly when [status] is ['success']" in every entry; and in a run of
    any mode, in any environment (also one in which writes of the ledger
    fail), started on a ledger document that the program itself has left
    behind (or on none), the invariant holds for every entry of the
    in-memory ledger at the end, of the ledger document at the end when
    it holds a ledger, and of every document the run has written, that
    is after the seeding and after each transition to ['in_progress'],
    ['success'] or ['failed']. *)
Theorem ledger_invariant (d : Document) (w : World) (tz : timezone)
    (memories : list Memory) (resume retry_failed : bool)
    (fs : gmap string bytes) (mt : gmap string Z) :
  reachable d ->
  Forall entry_inv (seed memories) /\
  state_inv (download_all_memories w tz memories resume retry_failed
               (initial_state d fs mt)).2.
Proof.
  intros Hr. split; [apply entry_inv_seed|].
  apply run_state_inv. by apply reachable_inv.
Qed.

Lemma ledger_invariant_witness :
  Forall entry_inv (seed Examples.two_memories) /\
  state_inv
    (download_all_memories (Examples.serving Examples.overlay_archive) UTC
       Examples.two_memories true false
       (initial_state
          (metadata_json
             (download_all_memories Examples.offline UTC Examples.two_memories
                false false (initial_state Absent ∅ ∅)).2)
          ∅ ∅)).2.
Proof.
  apply ledger_invariant. apply reach_run. apply reach_fresh.
Defined.

(** A document cut short by a write that failed is one the program can
    leave behind; the next run ends when it loads it, and changes
    nothing. *)
Example truncated_document_is_reachable :
  reachable Truncated /\
  download_all_memories Examples.offline UTC Examples.two_memories true false
    (initial_state Truncated ∅ ∅)
  = (Raise Examples.no_json, initial_state Truncated ∅ ∅).
Proof.
  split; [|reflexivity].
  change Truncated with (metadata_json (snd Examples.full_disk_run)).
  apply reach_run, reach_fresh.
Qed.

(* ===================================================================== *)
(** * Durability                                                          *)
(* ===================================================================== *)

Lemma durable_from_app p l1 l2 :
  durable_from p l1 = true ->
  durable_from p (l1 ++ l2) = durable_from None l2.
Proof.
  revert p. induction l1 as [|ev l1 IH]; intros p.
  - cbn. intros Hp. apply bool_decide_eq_true in Hp. by subst.
  - destruct ev as [u|path|path t|i s|doc]; cbn [durable_from app]; try apply IH.
    + destruct p as [[j s']|]; [done|apply IH].
    + destruct p as [[j s']|]; [|apply IH].
      intros H. apply andb_true_iff in H as [H1 H2]. rewrite H1. cbn. by apply IH.
Qed.

Lemma durable_from_io p io l :
  Forall io_event io -> durable_from p (io ++ l) = durable_from p l.
Proof.
  induction 1 as [|ev io Hev Hio IH]; [done|].
  by destruct ev.
Qed.

(** The events of a transition with the rewrite that follows it. *)
Lemma durable_from_transition idx s doc l :
  status <$> doc !! idx = Some s ->
  durable_from None (EvStatus idx s :: EvSave doc :: l) = durable_from None l.
Proof. intros H. cbn [durable_from]. by rewrite bool_decide_eq_true_2. Qed.

Lemma status_started idx l m :
  l !! idx = Some m -> status <$> started idx l !! idx = Some "in_progress".
Proof. intros H. by rewrite (lookup_started_eq idx l m H). Qed.

Lemma durable_started idx l m io tr :
  l !! idx = Some m -> Forall io_event io -> durable_from None tr = true ->
  durable_from None
    (tr ++ [EvStatus idx "in_progress"; EvSave (started idx l)] ++ io) = true.
Proof.
  intros Hm Hio Hd. rewrite (durable_from_app _ _ _ Hd). cbn [app].
  rewrite durable_from_transition by by eapply status_started.
  rewrite <- (app_nil_r io). by rewrite durable_from_io.
Qed.

(** An iteration keeps the trace durable, unless a write fails. *)
Lemma item_outcome_durable w idx st r st' :
  item_outcome w idx st r st' ->
  durable_from None (trace st) = true -> durable_or_ended w r st'.
Proof.
  intros Hout Hd.
  destruct Hout as [r
    | m e st' Hm Ha Hw Hl' Hj' Ht'
    | m e io st' Hm Ha Hio Hl' Hj' Ht'
    | m fsv io st' Hm Ha Hne Hio Hl' Hj' Ht'
    | m e io st' Hm Ha Hc Hio Hl' Hj' Ht'
    | m fsv e io st' Hm Ha Hne Hw Hio Hl' Hj' Ht'
    | m e0 e io st' Hm Ha Hc Hw Hio Hl' Hj' Ht'].
  - by left.
  - right. by exists e, idx, "in_progress", (trace st).
  - left. rewrite Ht'. by eapply durable_started.
  - left. rewrite Ht', (durable_from_app _ _ _ Hd). cbn [app].
    rewrite durable_from_transition by by eapply status_started.
    rewrite durable_from_io by done. rewrite durable_from_transition; [done|].
    by rewrite (lookup_succeeded_eq idx fsv _ m Hm).
  - left. rewrite Ht', (durable_from_app _ _ _ Hd). cbn [app].
    rewrite durable_from_transition by by eapply status_started.
    rewrite durable_from_io by done. rewrite durable_from_transition; [done|].
    by rewrite (lookup_failed_eq idx e _ m Hm).
  - right. exists e, idx, "success",
      (trace st ++ [EvStatus idx "in_progress";
                    EvSave (started idx (metadata_list st))] ++ io)%list.
    split_and!; [done|done| |by eapply durable_started].
    rewrite Ht'. by rewrite <- !app_assoc.
  - right. exists e, idx, "failed",
      (trace st ++ [EvStatus idx "in_progress";
                    EvSave (started idx (metadata_list st))] ++ io)%list.
    split_and!; [done|done| |by eapply durable_started].
    rewrite Ht'. by rewrite <- !app_assoc.
Qed.

Lemma durable_or_ended_ok w st :
  durable_or_ended w (Ok tt) st -> durable_from None (trace st) = true.
Proof. by intros [H|(e & i & s & tr & [=] & _)]. Qed.

Lemma process_items_durable w tz memories items st r st' :
  process_items w tz memories items st = (r, st') ->
  durable_from None (trace st) = true -> durable_or_ended w r st'.
Proof.
  revert st. induction items as [|[idx m] items IH]; intros st.
  - intros [= <- <-] Hd. by left.
  - cbn [process_items]. rewrite bind_run.
    destruct (process_item w tz memories idx st) as [[[]|e] st1] eqn:E;
      apply process_item_cases in E; intros H Hd.
    + eapply IH; [done|]. eapply durable_or_ended_ok. by eapply item_outcome_durable.
    + injection H as <- <-. by eapply item_outcome_durable.
Qed.

(** Loading or seeding the ledger keeps the trace durable. *)
Lemma initialize_durable w memories st r st' :
  initialize_metadata w memories st = (r, st') ->
  durable_from None (trace st) = true -> durable_from None (trace st') = true.
Proof.
  unfold initialize_metadata. destruct (metadata_json st) as [|doc|].
  - rewrite !bind_run. unfold set_metadata_list at 1. rewrite bind_run.
    destruct (write_ledger w (seed memories) _) as [[[]|e] st1] eqn:Ew;
      apply write_ledger_cases in Ew
        as (_ & _ & _ & [(_ & _ & Ht)|(e' & _ & _ & Ht & _)]);
      cbn [trace] in Ht; intros [= <- <-] Hd; rewrite Ht; try done.
    + by rewrite (durable_from_app _ _ _ Hd).
    + by rewrite (durable_from_app _ _ _ Hd).
  - by intros [= <- <-].
  - by intros [= <- <-].
Qed.

Lemma run_durable w tz memories resume retry_failed st r st' :
  download_all_memories w tz memories resume retry_failed st = (r, st') ->
  durable_from None (trace st) = true ->
  durable_or_ended w r st'.
Proof.
  intros Hrun Hd. revert Hrun. unfold download_all_memories.
  destruct memories as [|memory memories]; [intros [= <- <-]; by left|].
  set (ms := memory :: memories). clearbody ms.
  rewrite bind_run.
  destruct (initialize_metadata w ms st) as [rl st0] eqn:Ei.
  pose proof (initialize_durable _ _ _ _ _ Ei Hd) as Hd0.
  destruct rl as [l|e]; [|intros [= <- <-]; by left].
  rewrite bind_run. unfold set_metadata_list at 1.
  destruct (items_to_download resume retry_failed l) as [|item items];
    [intros [= <- <-]; by left|].
  rewrite bind_run.
  destruct (process_items w tz ms (item :: items) _) as [[[]|e] st2] eqn:Ep;
    apply process_items_durable in Ep; try done;
    [|by intros [= <- <-]].
  apply durable_or_ended_ok in Ep.
  intros Es. apply save_metadata_cases in Es
    as (_ & _ & _ & [(-> & _ & Ht)|(e' & -> & _ & Ht & _)]);
    unfold durable_or_ended; left; rewrite Ht.
  - by rewrite (durable_from_app _ _ _ Ep).
  - done.
Qed.

(** An iteration that completes leaves the document equal to the
    in-memory ledger. *)
Lemma item_outcome_persisted w idx st st' :
  item_outcome w idx st (Ok tt) st' ->
  metadata_json st = Stored (metadata_list st) ->
  metadata_json st' = Stored (metadata_list st').
Proof.
  intros Hout Hj. inversion Hout; subst; congruence.
Qed.

(** With a document that can be written, every iteration does. *)
Lemma item_outcome_persisted_writable w idx st r st' :
  ledger_writable w ->
  item_outcome w idx st r st' ->
  metadata_json st = Stored (metadata_list st) ->
  metadata_json st' = Stored (metadata_list st').
Proof.
  intros Hw Hout Hj. pose proof (not_write_failure w) as Hnf.
  destruct Hout; try congruence; exfalso; by eapply Hnf.
Qed.

(** Once the ledger is loaded, or seeded and written, the document is the
    in-memory ledger. *)
Lemma initialize_persisted w memories st st' :
  (bind (initialize_metadata w memories) set_metadata_list) st = (Ok tt, st') ->
  metadata_json st' = Stored (metadata_list st').
Proof.
  intros E. apply initialize_metadata_cases in E
    as (_ & _ & [(doc & _ & _ & Hl & Hj & _)
                |[(_ & [=] & _)
                 |(_ & Hl & [(_ & Hj & _)|(e' & [=] & _)])]]); congruence.
Qed.

(** A run on records that completes leaves the document equal to the
    in-memory ledger. *)
Lemma completed_run_persisted w tz memories resume retry_failed st st' :
  memories <> [] ->
  download_all_memories w tz memories resume retry_failed st = (Ok tt, st') ->
  metadata_json st' = Stored (metadata_list st').
Proof.
  intros Hne. unfold download_all_memories.
  destruct memories as [|memory memories]; [done|].
  set (ms := memory :: memories). clearbody ms.
  rewrite bind_run.
  pose proof (initialize_persisted w ms st) as Hc. rewrite bind_run in Hc.
  destruct (initialize_metadata w ms st) as [[l|e] st0] eqn:Ei; [|done].
  rewrite bind_run.
  destruct (set_metadata_list l st0) as [[[]|e] st1] eqn:Es; [|by inversion Es].
  specialize (Hc st1 eq_refl).
  destruct (items_to_download resume retry_failed l) as [|item items].
  { by intros [= <-]. }
  rewrite bind_run.
  destruct (process_items w tz ms (item :: items) _) as [[[]|e] st2]; [|done].
  intros Hs. apply save_metadata_cases in Hs
    as (Hl & _ & _ & [(_ & Hj & _)|(e' & [=] & _)]).
  by rewrite Hj, Hl.
Qed.

(** A first run in which the disk is full once the seeded ledger has been
    written: the first entry is marked ['in_progress'] in memory, the
    checkpoint that follows empties the document and cannot write it, and
    the run ends with the [OSError].  The transition is not written, and
    the document no longer holds the seeded ledger either. *)
Lemma failed_write_leaves_transition_unwritten :
  fst Examples.full_disk_run = Raise Examples.disk_full /\
  status <$> metadata_list (snd Examples.full_disk_run) = ["in_progress"; "pending"] /\
  metadata_json (snd Examples.full_disk_run) = Truncated /\
  trace (snd Examples.full_disk_run)
    = [EvSave (seed Examples.two_memories); EvStatus 0 "in_progress"] /\
  durable_from None (trace (snd Examples.full_disk_run)) = false.
Proof. by vm_compute. Qed.

(** C5 (amended).  In the trace of a run of any mode in any environment,
    every status transition is followed, before any other transition, by
    a rewrite of the ledger document that shows the new status, with one
    exception: when that rewrite raises, the run ends there with its
    exception and this last transition is not written.  When the
    document can be written throughout, no transition is left unwritten,
    even when the run is aborted, and the document at the end is the
    in-memory ledger.  A run on records that completes ends with the
    document equal to the in-memory ledger; and an iteration that
    completes, started with the document equal to the in-memory ledger,
    ends that way, so whenever the next entry begins the document has
    every transition made so far. *)
Theorem ledger_written_after_every_transition (w : World) (tz : timezone)
    (memories : list Memory) (resume retry_failed : bool)
    (d : option (list Entry)) (fs : gmap string bytes) (mt : gmap string Z) :
  (durable_from None
     (trace (download_all_memories w tz memories resume retry_failed
               (initial_state (document d) fs mt)).2) = true \/
   exists e i s tr,
     (download_all_memories w tz memories resume retry_failed
        (initial_state (document d) fs mt)).1 = Raise e /\
     write_failure w e /\
     trace (download_all_memories w tz memories resume retry_failed
              (initial_state (document d) fs mt)).2 = (tr ++ [EvStatus i s])%list /\
     durable_from None tr = true) /\
  (ledger_writable w ->
   durable_from None
     (trace (download_all_memories w tz memories resume retry_failed
               (initial_state (document d) fs mt)).2) = true /\
   (memories <> [] ->
    metadata_json (download_all_memories w tz memories resume retry_failed
                     (initial_state (document d) fs mt)).2
    = Stored (metadata_list (download_all_memories w tz memories resume retry_failed
                               (initial_state (document d) fs mt)).2))) /\
  ((download_all_memories w tz memories resume retry_failed
      (initial_state (document d) fs mt)).1 = Ok tt ->
   memories <> [] ->
   metadata_json (download_all_memories w tz memories resume retry_failed
                    (initial_state (document d) fs mt)).2
   = Stored (metadata_list (download_all_memories w tz memories resume retry_failed
                              (initial_state (document d) fs mt)).2)) /\
  (forall idx st st',
     process_item w tz memories idx st = (Ok tt, st') ->
     metadata_json st = Stored (metadata_list st) ->
     metadata_json st' = Stored (metadata_list st')).
Proof.
  pose proof (run_durable w tz memories resume retry_failed
                (initial_state (document d) fs mt) _ _ (surjective_pairing _) eq_refl)
    as Hrun.
  split_and!.
  - done.
  - intros Hw. split.
    + destruct Hrun as [H|(e & i & s & tr & _ & Hf & _)]; [done|].
      by destruct (not_write_failure w e Hw).
    + intros Hne.
      apply (download_all_memories_preserves
               (fun st => metadata_json st = Stored (metadata_list st))).
      * intros idx st r st'. by apply item_outcome_persisted_writable.
      * done.
      * intros _. destruct (bind _ _ _) as [r st'] eqn:E. cbn [snd].
        apply initialize_metadata_cases in E
          as (_ & _ & [(doc & _ & _ & Hl & Hj & _)
                      |[(Hd & _)
                       |(_ & Hl & [(_ & Hj & _)|(e' & _ & Hf & _)])]]).
        -- congruence.
        -- by destruct d.
        -- congruence.
        -- by destruct (not_write_failure w e' Hw).
      * intros st0 H0. destruct (save_metadata w st0) as [r st'] eqn:E. cbn [snd].
        apply save_metadata_cases in E
          as (Hl & _ & _ & [(_ & Hj & _)|(e' & _ & Hf & _)]).
        -- congruence.
        -- by destruct (not_write_failure w e' Hw).
  - intros Hok Hne.
    destruct (download_all_memories _ _ _ _ _ _) as [r st'] eqn:E.
    cbn [fst snd] in *. subst r.
    by eapply completed_run_persisted.
  - intros idx st st' Hrun' Hj.
    apply process_item_cases in Hrun'. by eapply item_outcome_persisted.
Qed.

(** A trace in which two transitions share one rewrite is not durable,
    nor one whose last transition is not written; the trace of a run that
    an encrypted archive aborts is. *)
Example durable_from_examples :
  durable_from None [EvStatus 0 "in_progress"; EvStatus 0 "success";
                     EvSave [mkEntry 1 "" "" "" "" "" "success" [] None]] = false /\
  durable_from None [EvStatus 0 "in_progress"] = false /\
  durable_from None
    (trace (download_all_memories (Examples.serving Examples.encrypted_archive) UTC
              Examples.two_memories false false (initial_state Absent ∅ ∅)).2) = true.
Proof. by vm_compute. Qed.

(* ===================================================================== *)
(** * Selection and skipping                                              *)
(* ===================================================================== *)

Lemma elem_of_enumerate {A} (l : list A) (i : nat) (x : A) :
  (i, x) ∈ enumerate l <-> l !! i = Some x.
Proof.
  unfold enumerate. rewrite list_elem_of_lookup. split.
  - intros [j Hj]. rewrite list_lookup_imap in Hj.
    destruct (l !! j) as [y|] eqn:E; [|done]. injection Hj as <- <-. done.
  - intros H. exists i. by rewrite list_lookup_imap, H.
Qed.




(** A write of the ledger leaves the in-memory ledger as it is. *)
Lemma save_metadata_ledger w st : metadata_list (save_metadata w st).2 = metadata_list st.
Proof.
  destruct (save_metadata w st) as [r st'] eqn:E.
  by apply save_metadata_cases in E as (Hl & _).
Qed.


(** A ledger with one entry of each status: what each mode selects. *)
Example items_to_download_examples :
  let e s := mkEntry 1 "" "Image" "" "" "" s [] None in
  let l := [e "success"; e "pending"; e "failed"; e "in_progress"] in
  (items_to_download true false l).*1 = [1; 2; 3]%nat /\
  (items_to_download true true l).*1 = [1; 2; 3]%nat /\
  (items_to_download false true l).*1 = [2]%nat /\
  (items_to_download false false l).*1 = [0; 1; 2; 3]%nat.
Proof. by vm_compute. Qed.

(* ===================================================================== *)
(** * Error isolation                                                     *)
(* ===================================================================== *)

(** An archive with an encrypted member as the answer for the first of
    two records, in a normal first run: [zf.read] raises a
    [RuntimeError] inside [download_and_extract]; the loop does not
    handle it, so the run ends with that exception, the first entry stays
    ['in_progress'] with no error recorded, and the second record is never
    requested. *)
Lemma uncaught_exception_aborts_batch :
  (download_and_extract (Examples.serving Examples.encrypted_archive)
     "https://example.com/1" "01" ".jpg" (initial_state Absent ∅ ∅)).1
    = Raise Examples.encrypted /\
  (exn_cls Examples.encrypted ∉ caught) /\
  fst Examples.encrypted_run = Raise Examples.encrypted /\
  status <$> metadata_list (snd Examples.encrypted_run) = ["in_progress"; "pending"] /\
  error <$> metadata_list (snd Examples.encrypted_run) = [None; None] /\
  EvGet "https://example.com/2" ∉ trace (snd Examples.encrypted_run).
Proof.
  split_and!; [by vm_compute| |by vm_compute..|].
  - intros Hin. apply list_elem_of_In in Hin. vm_compute in Hin.
    repeat (destruct Hin as [Hin|Hin]; [discriminate|]). done.
  - intros Hin. apply list_elem_of_In in Hin. vm_compute in Hin.
    repeat (destruct Hin as [Hin|Hin]; [discriminate|]). done.
Qed.

(** The disk is full when the result of the first record is to be
    written: the request has timed out, the entry is marked ['failed'] in
    memory with the message, the rewrite of the document raises outside
    the [try] block, and the run ends; the document is cut short and the
    second record is never requested. *)
Example ledger_error_aborts_batch :
  fst (download_all_memories (Examples.full_disk_from 3) UTC Examples.two_memories
         false false (initial_state Absent ∅ ∅)) = Raise Examples.disk_full /\
  status <$> metadata_list
    (snd (download_all_memories (Examples.full_disk_from 3) UTC Examples.two_memories
            false false (initial_state Absent ∅ ∅))) = ["failed"; "pending"] /\
  metadata_json
    (snd (download_all_memories (Examples.full_disk_from 3) UTC Examples.two_memories
            false false (initial_state Absent ∅ ∅))) = Truncated /\
  gets (trace
    (snd (download_all_memories (Examples.full_disk_from 3) UTC Examples.two_memories
            false false (initial_state Absent ∅ ∅)))) = ["https://example.com/1"].
Proof. by vm_compute. Qed.

(** C4 (amended).  When the [try] block of the iteration for a selected
    entry raises an [OSError], a [requests.RequestException] or a
    [zipfile.BadZipFile], the error line is printed and the ledger
    document can be written, the iteration completes: the entry's status
    is ['failed'], its [error] is the message of the exception, the
    ledger document has been rewritten with this, and the loop goes on
    with the next selected entry. *)
Theorem caught_errors_are_isolated (w : World) (tz : timezone)
    (memories : list Memory) (idx : nat) (st : State)
    (memory : Memory) (metadata : Entry) (e : exn) (st1 : State) :
  memories !! idx = Some memory ->
  metadata_list st !! idx = Some metadata ->
  already_downloaded metadata = false ->
  ledger_writable w ->
  attempt w tz idx memory metadata (begin_item w idx st).2 = (Raise e, st1) ->
  exn_cls e ∈ caught ->
  stdout w (now st1) (Line (error_line e)) = None ->
  exists st',
    process_item w tz memories idx st = (Ok tt, st') /\
    status <$> metadata_list st' !! idx = Some "failed" /\
    error <$> metadata_list st' !! idx = Some (Some (exn_msg e)) /\
    metadata_json st' = Stored (metadata_list st') /\
    (forall m rest,
       process_items w tz memories ((idx, m) :: rest) st
       = process_items w tz memories rest st').
Proof.
  intros Hmem Hm Ha Hw Hat Hc Hout.
  assert (Hb : begin_item w idx st = (Ok tt, (begin_item w idx st).2)).
  { unfold begin_item. rewrite bind_run.
    change (mark_status idx "in_progress" st)
      with (Ok tt, mkState (started idx (metadata_list st)) (metadata_json st)
                     (fs_files st) (fs_mtime st)
                     (trace st ++ [EvStatus idx "in_progress"])).
    unfold save_metadata. by rewrite write_ledger_writable. }
  assert (Hrun : exists st',
            process_item w tz memories idx st = (Ok tt, st') /\
            metadata_list st' =
              alter (set_error (exn_msg e)) idx
                (alter (set_status "failed") idx (metadata_list st1)) /\
            metadata_json st' = Stored (metadata_list st')).
  { unfold process_item. rewrite bind_run. unfold lift at 1, py_index at 1.
    rewrite Hmem. rewrite bind_run. unfold get_metadata_list at 1.
    rewrite bind_run. unfold lift at 1, py_index at 1. rewrite Hm, Ha.
    rewrite bind_run, Hb.
    rewrite bind_run. unfold try_catch. rewrite Hat.
    rewrite bool_decide_eq_true_2 by done.
    unfold on_error. rewrite bind_run. unfold print at 1, print_to. rewrite Hout.
    rewrite bind_run.
    change (mark_status idx "failed" st1)
      with (Ok tt, mkState (alter (set_status "failed") idx (metadata_list st1))
                     (metadata_json st1) (fs_files st1) (fs_mtime st1)
                     (trace st1 ++ [EvStatus idx "failed"])).
    unfold update_entry at 1. unfold save_metadata.
    rewrite write_ledger_writable by done.
    eexists. split; [reflexivity|]. split; reflexivity. }
  destruct Hrun as (st' & Hrun & Hl & Hj).
  assert (Hl1 : metadata_list st1 = started idx (metadata_list st)).
  { apply attempt_cases in Hat as [(e' & _ & Hl1 & _)|[? _]]; [|done].
    rewrite Hl1. destruct (begin_item w idx st) as [rb stb] eqn:Eb.
    by apply begin_item_cases in Eb as (Hlb & _). }
  exists st'. split_and!; [done| | |done|].
  - rewrite Hl, Hl1, !list_lookup_alter_eq, (lookup_started_eq idx _ metadata Hm). done.
  - rewrite Hl, Hl1, !list_lookup_alter_eq, (lookup_started_eq idx _ metadata Hm). done.
  - intros m rest. cbn [process_items]. by rewrite bind_run, Hrun.
Qed.

Lemma caught_errors_are_isolated_witness :
  exists st',
    process_item Examples.offline UTC Examples.two_memories 0 Examples.seeded
      = (Ok tt, st') /\
    status <$> metadata_list st' !! 0%nat = Some "failed" /\
    error <$> metadata_list st' !! 0%nat = Some (Some (exn_msg Examples.timed_out)) /\
    metadata_json st' = Stored (metadata_list st') /\
    (forall m rest,
       process_items Examples.offline UTC Examples.two_memories ((0%nat, m) :: rest)
         Examples.seeded
       = process_items Examples.offline UTC Examples.two_memories rest st').
Proof.
  apply (caught_errors_are_isolated Examples.offline UTC Examples.two_memories 0
           Examples.seeded
           (mkMemory "2024-01-01 12:00:00 UTC" "https://example.com/1" (Some "Image")
                     None None)
           (seed_entry 1 (mkMemory "2024-01-01 12:00:00 UTC" "https://example.com/1"
                                   (Some "Image") None None))
           Examples.timed_out
           (log (EvGet "https://example.com/1")
                (begin_item Examples.offline 0 Examples.seeded).2)).
  - reflexivity.
  - reflexivity.
  - reflexivity.
  - split; reflexivity.
  - reflexivity.
  - vm_compute. apply list_elem_of_In. right. left. reflexivity.
  - reflexivity.
Defined.

(** An iteration whose [try] block can only raise exceptions of the three
    classes completes, for an index that is in both lists, when the
    ledger can be written and standard output takes every message. *)
Lemma process_item_completes w tz memories idx st :
  ledger_writable w ->
  (forall n msg, stdout w n msg = None) ->
  (forall memory metadata st0 e st1,
     attempt w tz idx memory metadata st0 = (Raise e, st1) -> exn_cls e ∈ caught) ->
  is_Some (memories !! idx) ->
  is_Some (metadata_list st !! idx) ->
  exists st', process_item w tz memories idx st = (Ok tt, st') /\
              length (metadata_list st') = length (metadata_list st).
Proof.
  intros Hw Hout Hcaught [memory Hmem] [metadata Hm].
  destruct (process_item w tz memories idx st) as [r st'] eqn:E.
  assert (Hr : r = Ok tt).
  { revert E. unfold process_item. rewrite bind_run. unfold lift at 1, py_index at 1.
    rewrite Hmem. rewrite bind_run. unfold get_metadata_list at 1.
    rewrite bind_run. unfold lift at 1, py_index at 1. rewrite Hm.
    destruct (already_downloaded metadata); [by intros [= <- <-]|].
    rewrite bind_run. unfold begin_item at 1. rewrite bind_run.
    change (mark_status idx "in_progress" st)
      with (Ok tt, mkState (started idx (metadata_list st)) (metadata_json st)
                     (fs_files st) (fs_mtime st)
                     (trace st ++ [EvStatus idx "in_progress"])).
    unfold save_metadata at 1. rewrite write_ledger_writable by done.
    rewrite bind_run. unfold try_catch.
    destruct (attempt w tz idx memory metadata _) as [[[]|e] st2] eqn:Eat.
    - unfold save_metadata. rewrite write_ledger_writable by done.
      by intros [= <- <-].
    - rewrite bool_decide_eq_true_2 by by eapply Hcaught.
      unfold on_error. rewrite bind_run. unfold print at 1, print_to. rewrite Hout.
      rewrite bind_run.
      change (mark_status idx "failed" st2)
        with (Ok tt, mkState (alter (set_status "failed") idx (metadata_list st2))
                       (metadata_json st2) (fs_files st2) (fs_mtime st2)
                       (trace st2 ++ [EvStatus idx "failed"])).
      unfold update_entry at 1. unfold save_metadata.
      rewrite write_ledger_writable by done. by intros [= <- <-]. }
  subst r. exists st'. split; [done|].
  apply process_item_cases in E.
  inversion E; subst; try done;
    match goal with H : metadata_list _ = _ |- _ => rewrite H end;
    unfold succeeded, failed, started; by rewrite !length_alter.
Qed.

(** A batch in which the [try] blocks can only raise exceptions of the
    three classes runs to its end, under the same conditions. *)
Lemma process_items_completes w tz memories items st :
  ledger_writable w ->
  (forall n msg, stdout w n msg = None) ->
  (forall idx memory metadata st0 e st1,
     attempt w tz idx memory metadata st0 = (Raise e, st1) -> exn_cls e ∈ caught) ->
  (forall im, im ∈ items ->
     (im.1 < length memories)%nat /\ (im.1 < length (metadata_list st))%nat) ->
  exists st', process_items w tz memories items st = (Ok tt, st').
Proof.
  intros Hw Hout Hcaught. revert st. induction items as [|[idx m] items IH]; intros st Hin.
  - by exists st.
  - destruct (Hin (idx, m)) as [H1 H2]; [by left|]. cbn [fst] in *.
    destruct (process_item_completes w tz memories idx st Hw Hout (Hcaught idx))
      as (st1 & Hrun & Hlen);
      [by apply lookup_lt_is_Some|by apply lookup_lt_is_Some|].
    destruct (IH st1) as [st' Hrest].
    { intros im Him. rewrite Hlen. apply Hin. by right. }
    exists st'. cbn [process_items]. by rewrite bind_run, Hrun.
Qed.

(* ===================================================================== *)
(** * What [download_and_extract] does to the state                       *)
(* ===================================================================== *)

Lemma wrote_refl names st : wrote names st st.
Proof.
  split_and!; try done. exists []. split; [by rewrite app_nil_r|done].
Qed.

Lemma wrote_trans names st1 st2 st3 :
  wrote names st1 st2 -> wrote names st2 st3 -> wrote names st1 st3.
Proof.
  intros (Hl1 & Hj1 & Hm1 & Hf1 & ps1 & Ht1 & Hp1) (Hl2 & Hj2 & Hm2 & Hf2 & ps2 & Ht2 & Hp2).
  split_and!; try congruence.
  - intros p Hp. by rewrite Hf2, Hf1.
  - exists (ps1 ++ ps2)%list. split; [|by apply Forall_app].
    by rewrite Ht2, Ht1, fmap_app, app_assoc.
Qed.

Lemma write_file_wrote w names path data st r st' :
  path ∈ names ->
  write_file w path data st = (r, st') ->
  wrote names st st'.
Proof.
  intros Hin. unfold write_file. destruct (open_wb _ _ _); intros [= <- <-].
  - apply wrote_refl.
  - split_and!; try done.
    + intros p Hp. cbn. apply lookup_insert_ne. by intros ->.
    + exists [path]. split; [done|]. by apply Forall_singleton.
Qed.

Lemma classify_output_names file_num extension name :
  (classify file_num extension name).2 ∈ output_names file_num extension.
Proof.
  unfold output_names.
  destruct (classify_spec file_num extension name) as [[_ ->]|[_ ->]]; cbn [snd];
    rewrite !elem_of_cons; auto.
Qed.

Lemma extract_members_wrote w zf file_num extension names acc st r st' :
  extract_members w zf file_num extension names acc st = (r, st') ->
  wrote (output_names file_num extension) st st'.
Proof.
  revert acc st. induction names as [|name names IH]; intros acc st;
    cbn [extract_members].
  - intros [= <- <-]. apply wrote_refl.
  - rewrite bind_run. unfold lift at 1.
    destruct (zf_read zf name) as [data|e]; [|intros [= <- <-]; apply wrote_refl].
    pose proof (classify_output_names file_num extension name) as Hin.
    destruct (classify file_num extension name) as [ty out]. cbn [snd] in Hin.
    rewrite bind_run.
    destruct (write_file w out data st) as [[[]|e] st1] eqn:Ew.
    + intros Hrest. eapply wrote_trans; [by eapply write_file_wrote|by eapply IH].
    + intros [= <- <-]. by eapply write_file_wrote.
Qed.

Lemma download_and_extract_wrote w u file_num extension st :
  wrote (output_names file_num extension)
        (log (EvGet u) st)
        (download_and_extract w u file_num extension st).2.
Proof.
  unfold download_and_extract. rewrite bind_run. unfold http_get at 1.
  destruct (requests_get w (now st) u) as [content|e]; [|apply wrote_refl].
  destruct (is_zip_file content).
  - rewrite bind_run. unfold open_zip at 1.
    destruct (ZipFile w _ content) as [zf|e]; [|apply wrote_refl].
    destruct (extract_members _ _ _ _ _ _ _) as [r st'] eqn:E.
    by eapply extract_members_wrote.
  - rewrite bind_run.
    destruct (write_file _ _ _ _) as [[[]|e] st'] eqn:E; cbn [snd];
      (eapply write_file_wrote; [|done]); unfold output_names; by left.
Qed.

(** Whatever the outcome, [download_and_extract] makes exactly one
    request, the first thing it does, and then only writes files, under
    no other name than [{file_num}{ext}], [{file_num}-main{ext}] and
    [{file_num}-overlay{ext}]: it does not touch the ledger, its document,
    the time stamps or any other file. *)
Theorem download_and_extract_effects (w : World) (u file_num extension : string)
    (st : State) :
  wrote (output_names file_num extension)
        (log (EvGet u) st)
        (download_and_extract w u file_num extension st).2.
Proof. apply download_and_extract_wrote. Qed.

Lemma gets_app tr1 tr2 : gets (tr1 ++ tr2) = (gets tr1 ++ gets tr2)%list.
Proof. unfold gets. apply omap_app. Qed.

Lemma gets_writes paths : gets (EvWrite <$> paths) = [].
Proof. by induction paths. Qed.

Lemma gets_utimes t paths : gets ((fun p => EvUtime p t) <$> paths) = [].
Proof. by induction paths. Qed.

Lemma wrote_gets names st st' : wrote names st st' -> gets (trace st') = gets (trace st).
Proof.
  intros (_ & _ & _ & _ & ps & -> & _). by rewrite gets_app, gets_writes, app_nil_r.
Qed.

Lemma stamped_refl t st : stamped t st st.
Proof.
  split_and!; try done; [by left|]. exists []. by rewrite app_nil_r.
Qed.

Lemma stamped_trans t st1 st2 st3 :
  stamped t st1 st2 -> stamped t st2 st3 -> stamped t st1 st3.
Proof.
  intros (Hl1 & Hj1 & Hf1 & Hm1 & ps1 & Ht1) (Hl2 & Hj2 & Hf2 & Hm2 & ps2 & Ht2).
  split_and!; try congruence.
  - intros p. destruct (Hm2 p) as [H|H]; [rewrite H; apply Hm1|by right].
  - exists (ps1 ++ ps2)%list. by rewrite Ht2, Ht1, fmap_app, app_assoc.
Qed.

Lemma stamped_gets t st st' : stamped t st st' -> gets (trace st') = gets (trace st).
Proof.
  intros (_ & _ & _ & _ & ps & ->). by rewrite gets_app, gets_utimes, app_nil_r.
Qed.

Lemma utime_stamped w path t st r st' :
  utime w path t st = (r, st') ->
  stamped t st st' /\ (r = Ok tt -> fs_mtime st' !! path = Some t).
Proof.
  unfold utime. destruct (os_utime _ _ _); intros [= <- <-].
  - split; [apply stamped_refl|done].
  - split; [|intros _; apply lookup_insert_eq].
    split_and!; try done.
    + intros p. cbn. destruct (decide (path = p)) as [->|Hne].
      * right. apply lookup_insert_eq.
      * left. by apply lookup_insert_ne.
    + by exists [path].
Qed.

Lemma set_file_timestamps_stamped w files_saved t st r st' :
  set_file_timestamps w files_saved t st = (r, st') ->
  stamped t st st' /\
  (r = Ok tt -> forall ref, ref ∈ files_saved -> fs_mtime st' !! fr_path ref = Some t).
Proof.
  revert st. induction files_saved as [|file_info rest IH]; intros st;
    cbn [set_file_timestamps].
  - intros [= <- <-]. split; [apply stamped_refl|]. intros _ ref Hin.
    by apply elem_of_nil in Hin.
  - rewrite bind_run. destruct (utime w _ t st) as [[[]|e] st1] eqn:Eu.
    + apply utime_stamped in Eu as [Hs1 Hm1]. intros Hrest.
      apply IH in Hrest as [Hs2 Hm2]. split; [by eapply stamped_trans|].
      intros -> ref Hin. apply elem_of_cons in Hin as [->|Hin]; [|by apply Hm2].
      destruct Hs2 as (_ & _ & _ & Hm & _).
      destruct (Hm (fr_path file_info)) as [H|H]; [|done]. rewrite H. by apply Hm1.
    + intros [= <- <-]. apply utime_stamped in Eu as [Hs1 _]. done.
Qed.

(* ===================================================================== *)
(** * The [try] block in detail                                           *)
(* ===================================================================== *)

(** The [try] block of the main loop is [fetch_and_stamp] followed by the
    transition to ['success']. *)
Lemma attempt_fetch_and_stamp w tz idx memory metadata st :
  attempt w tz idx memory metadata st =
  bind (fetch_and_stamp w tz (m_url memory) (format_02d (number metadata))
          (get_file_extension (media_type metadata)) (date metadata))
       (fun files_saved =>
          run! mark_status idx "success" in
          update_entry idx (set_files files_saved)) st.
Proof.
  unfold attempt, fetch_and_stamp. rewrite !bind_run.
  destruct (download_and_extract _ _ _ _ st) as [[files_saved|e] st1]; [|done].
  rewrite !bind_run.
  destruct ((if (1 <? length files_saved)%nat then ret tt
             else bind (lift (py_index files_saved 0)) (fun _ => ret tt)) st1)
    as [[[]|e] st2]; [|done].
  rewrite !bind_run. unfold parse_date.
  destruct (parse_date_to_timestamp _ tz (PyStr (date metadata))) as [ts|e]; [|done].
  rewrite !bind_run.
  by destruct ((if truthy ts then set_file_timestamps w files_saved (default 0 ts)
                else ret tt) st2) as [[[]|e] st3].
Qed.

(** The outcomes of [fetch_and_stamp]: one request, then writes of the
    record's files, then time stamps; a result is never empty, and the
    files of a result carry the parsed time when there is one other than
    zero, and are not stamped otherwise. *)
Lemma fetch_and_stamp_cases w tz u file_num extension date_str st r st' :
  fetch_and_stamp w tz u file_num extension date_str st = (r, st') ->
  exists st1 t,
    wrote (output_names file_num extension) (log (EvGet u) st) st1 /\
    stamped t st1 st' /\
    forall files_saved,
      r = Ok files_saved ->
      exists ts,
        parse_date_to_timestamp (stdout w (now st1)) tz (PyStr date_str) = Ok ts /\
        download_and_extract w u file_num extension st = (Ok files_saved, st1) /\
        files_saved <> [] /\
        (truthy ts = true ->
         forall ref, ref ∈ files_saved ->
           fs_mtime st' !! fr_path ref = Some (default 0 ts)) /\
        (truthy ts = false -> st' = st1).
Proof.
  unfold fetch_and_stamp. rewrite bind_run.
  pose proof (download_and_extract_wrote w u file_num extension st) as Hw.
  destruct (download_and_extract _ _ _ _ st) as [[files_saved|e] st1] eqn:Ed;
    cbn [snd] in Hw.
  2:{ intros [= <- <-]. exists st1, 0. split_and!; [done|apply stamped_refl|done]. }
  rewrite bind_run.
  destruct files_saved as [|f0 rest].
  { cbn. intros [= <- <-]. exists st1, 0.
    split_and!; [done|apply stamped_refl|done]. }
  assert (Hchk : (if (1 <? length (f0 :: rest))%nat then ret tt
                  else bind (lift (py_index (f0 :: rest) 0)) (fun _ => ret tt)) st1
                 = (Ok tt, st1)) by (by destruct (1 <? _)%nat).
  rewrite Hchk, bind_run. unfold parse_date at 1.
  destruct (parse_date_to_timestamp _ tz (PyStr date_str)) as [ts|e] eqn:Hts.
  2:{ intros [= <- <-]. exists st1, 0. split_and!; [done|apply stamped_refl|done]. }
  rewrite bind_run.
  destruct (truthy ts) eqn:Etr.
  - destruct (set_file_timestamps w (f0 :: rest) (default 0 ts) st1)
      as [[[]|e] st2] eqn:Es;
      apply set_file_timestamps_stamped in Es as [Hs Hm]; intros [= <- <-];
      exists st1, (default 0 ts); (split_and!; [done|done|]).
    + intros fsv [= <-]. exists ts. split_and!; [done|done|done| |congruence].
      intros _. by apply Hm.
    + done.
  - intros [= <- <-]. exists st1, 0. split_and!; [done|apply stamped_refl|].
    intros fsv [= <-]. exists ts. split_and!; [done|done|done|congruence|done].
Qed.

(** The handler of the loop: the error line, then the transition to
    ['failed'] with the message. *)
Lemma on_error_cases w idx e st r st' :
  on_error w idx e st = (r, st') ->
  (exists e', r = Raise e' /\ st' = st /\
              stdout w (now st) (Line (error_line e)) = Some e') \/
  (r = Ok tt /\
   stdout w (now st) (Line (error_line e)) = None /\
   st' = mkState (alter (set_error (exn_msg e)) idx
                    (alter (set_status "failed") idx (metadata_list st)))
           (metadata_json st) (fs_files st) (fs_mtime st)
           (trace st ++ [EvStatus idx "failed"])).
Proof.
  unfold on_error. rewrite bind_run. unfold print at 1, print_to.
  destruct (stdout w (now st) _) as [e'|].
  - intros [= <- <-]. left. by exists e'.
  - intros [= <- <-]. right. done.
Qed.

(** One iteration of the main loop, case by case. *)
Lemma process_item_inv w tz memories idx st r st' :
  process_item w tz memories idx st = (r, st') ->
  (memories !! idx = None /\ st' = st /\ exists e, r = Raise e /\ exn_cls e = IndexError) \/
  (metadata_list st !! idx = None /\ st' = st /\
   exists e, r = Raise e /\ exn_cls e = IndexError) \/
  (exists metadata,
     metadata_list st !! idx = Some metadata /\ already_downloaded metadata = true /\
     st' = st /\ r = Ok tt) \/
  (exists memory metadata rb stb,
     memories !! idx = Some memory /\
     metadata_list st !! idx = Some metadata /\
     already_downloaded metadata = false /\
     begin_item w idx st = (rb, stb) /\
     match rb with
     | Raise e => r = Raise e /\ st' = stb
     | Ok _ =>
         exists r2 st2,
           fetch_and_stamp w tz (m_url memory) (format_02d (number metadata))
             (get_file_extension (media_type metadata)) (date metadata) stb
           = (r2, st2) /\
           match r2 with
           | Ok files_saved =>
               (r, st') =
               (bind (mark_status idx "success")
                  (fun _ => bind (update_entry idx (set_files files_saved))
                  (fun _ => save_metadata w))) st2
           | Raise e =>
               if bool_decide (exn_cls e ∈ caught)
               then (r, st') = (bind (on_error w idx e) (fun _ => save_metadata w)) st2
               else r = Raise e /\ st' = st2
           end
     end).
Proof.
  unfold process_item. rewrite bind_run. unfold lift at 1, py_index at 1.
  destruct (memories !! idx) as [memory|] eqn:Em.
  2:{ intros [= <- <-]. left. split_and!; [done|done|]. by eexists. }
  rewrite bind_run. unfold get_metadata_list at 1. rewrite bind_run.
  unfold lift at 1, py_index at 1.
  destruct (metadata_list st !! idx) as [metadata|] eqn:El.
  2:{ intros [= <- <-]. right. left. split_and!; [done|done|]. by eexists. }
  destruct (already_downloaded metadata) eqn:Ea.
  { intros [= <- <-]. right. right. left. by exists metadata. }
  rewrite bind_run. intros H. right. right. right.
  destruct (begin_item w idx st) as [[[]|eb] stb] eqn:Eb.
  2:{ injection H as <- <-. exists memory, metadata, (Raise eb), stb. by split_and!. }
  exists memory, metadata, (Ok tt), stb. split_and!; [done..|].
  revert H. rewrite bind_run. unfold try_catch.
  rewrite attempt_fetch_and_stamp, bind_run.
  destruct (fetch_and_stamp _ _ _ _ _ _ _) as [[files_saved|e] st2] eqn:Ef.
  - intros H. exists (Ok files_saved), st2. split; [done|].
    rewrite <- H. by rewrite !bind_run.
  - intros H. exists (Raise e), st2. split; [done|].
    destruct (bool_decide (exn_cls e ∈ caught)).
    + rewrite <- H. by rewrite !bind_run.
    + by injection H as <- <-.
Qed.

(* ===================================================================== *)
(** * What a run does to the ledger                                       *)
(* ===================================================================== *)

Lemma identity_alter (f : Entry -> Entry) (i : nat) (l : list Entry) :
  (forall x, identity (f x) = identity x) ->
  identity <$> alter f i l = identity <$> l.
Proof.
  intros Hf. apply list_eq. intros j. rewrite !list_lookup_fmap.
  destruct (decide (i = j)) as [<-|Hne].
  - rewrite list_lookup_alter_eq. destruct (l !! i); [|done]. cbn. by rewrite Hf.
  - by rewrite list_lookup_alter_ne.
Qed.

Lemma identity_started idx l : identity <$> started idx l = identity <$> l.
Proof. by apply identity_alter. Qed.

Lemma identity_succeeded idx files_saved l :
  identity <$> succeeded idx files_saved l = identity <$> l.
Proof.
  unfold succeeded. rewrite !identity_alter by done. apply identity_started.
Qed.

Lemma identity_failed idx e l : identity <$> failed idx e l = identity <$> l.
Proof.
  unfold failed. rewrite !identity_alter by done. apply identity_started.
Qed.

Lemma item_outcome_identity w idx st r st' :
  item_outcome w idx st r st' ->
  identity <$> metadata_list st' = identity <$> metadata_list st.
Proof.
  destruct 1 as [r
    | m e st' Hm Ha Hw Hl' Hj' Ht'
    | m e io st' Hm Ha Hio Hl' Hj' Ht'
    | m fsv io st' Hm Ha Hne Hio Hl' Hj' Ht'
    | m e io st' Hm Ha Hc Hio Hl' Hj' Ht'
    | m fsv e io st' Hm Ha Hne Hw Hio Hl' Hj' Ht'
    | m e0 e io st' Hm Ha Hc Hw Hio Hl' Hj' Ht']; [done|rewrite Hl'..].
  - apply identity_started.
  - apply identity_started.
  - apply identity_succeeded.
  - apply identity_failed.
  - apply identity_succeeded.
  - apply identity_failed.
Qed.

(** The identity fields of the in-memory ledger and of the document, when
    it holds a ledger, are those of [l]. *)
Lemma item_outcome_identities w l idx st r st' :
  item_outcome w idx st r st' ->
  identity <$> metadata_list st = identity <$> l /\
  (forall doc, metadata_json st = Stored doc -> identity <$> doc = identity <$> l) ->
  identity <$> metadata_list st' = identity <$> l /\
  (forall doc, metadata_json st' = Stored doc -> identity <$> doc = identity <$> l).
Proof.
  intros Hout [Hi Hd]. split.
  { by rewrite (item_outcome_identity w idx st r st' Hout). }
  intros doc.
  destruct Hout as [r
    | m e st' Hm Ha Hw Hl' Hj' Ht'
    | m e io st' Hm Ha Hio Hl' Hj' Ht'
    | m fsv io st' Hm Ha Hne Hio Hl' Hj' Ht'
    | m e io st' Hm Ha Hc Hio Hl' Hj' Ht'
    | m fsv e io st' Hm Ha Hne Hw Hio Hl' Hj' Ht'
    | m e0 e io st' Hm Ha Hc Hw Hio Hl' Hj' Ht'].
  - apply Hd.
  - destruct Hj' as [-> | ->]; [apply Hd|done].
  - rewrite Hj'. intros [= <-]. by rewrite identity_started.
  - rewrite Hj'. intros [= <-]. by rewrite identity_succeeded.
  - rewrite Hj'. intros [= <-]. by rewrite identity_failed.
  - destruct Hj' as [-> | ->]; [|done]. intros [= <-]. by rewrite identity_started.
  - destruct Hj' as [-> | ->]; [|done]. intros [= <-]. by rewrite identity_started.
Qed.

Lemma identity_preserved w tz memories resume retry_failed d fs mt :
  memories <> [] ->
  identity <$> metadata_list
    (download_all_memories w tz memories resume retry_failed
       (initial_state (document d) fs mt)).2
  = identity <$> default (seed memories) d /\
  forall doc,
    metadata_json
      (download_all_memories w tz memories resume retry_failed
         (initial_state (document d) fs mt)).2 = Stored doc ->
    identity <$> doc = identity <$> default (seed memories) d.
Proof.
  intros Hne.
  apply (download_all_memories_preserves
           (fun st =>
              identity <$> metadata_list st = identity <$> default (seed memories) d /\
              forall doc, metadata_json st = Stored doc ->
                          identity <$> doc = identity <$> default (seed memories) d)).
  - intros idx st r st'. apply item_outcome_identities.
  - done.
  - intros _. destruct (bind _ _ _) as [r st'] eqn:E. cbn [snd].
    apply initialize_metadata_cases in E
      as (_ & _ & [(doc & Hd & _ & Hl & Hj & _)
                  |[(Hd & _)
                   |(Hd & Hl & [(_ & Hj & _)|(e & _ & _ & _ & Hj)])]]);
      destruct d as [l|]; try done; cbn [default].
    + injection Hd as <-. rewrite Hl, Hj. split; [done|]. by intros ? [= <-].
    + rewrite Hl, Hj. split; [done|]. by intros ? [= <-].
    + rewrite Hl. split; [done|]. intros doc. by destruct Hj as [-> | ->].
  - intros st0 [Hi Hd]. destruct (save_metadata w st0) as [r st'] eqn:E. cbn [snd].
    apply save_metadata_cases in E
      as (Hl & _ & _ & [(_ & Hj & _)|(e & _ & _ & _ & Hj)]).
    + rewrite Hl, Hj. split; [done|]. by intros ? [= <-].
    + rewrite Hl. split; [done|]. intros doc. destruct Hj as [-> | ->]; [apply Hd|done].
Qed.

(** In a run of any mode, in any environment, the ledger keeps its length
    and every entry keeps its number, date, media type, coordinates and
    URL: at the end the in-memory ledger has the identity fields of the
    document that was loaded, or of the seeded ledger when there was
    none, and so has the ledger of the document, whenever the document
    holds one (it holds none when the last write of the run failed). *)
Theorem identity_is_stable (w : World) (tz : timezone) (memories : list Memory)
    (resume retry_failed : bool) (d : option (list Entry))
    (fs : gmap string bytes) (mt : gmap string Z) :
  memories <> [] ->
  identity <$> metadata_list
    (download_all_memories w tz memories resume retry_failed
       (initial_state (document d) fs mt)).2
  = identity <$> default (seed memories) d /\
  forall doc,
    metadata_json
      (download_all_memories w tz memories resume retry_failed
         (initial_state (document d) fs mt)).2 = Stored doc ->
    identity <$> doc = identity <$> default (seed memories) d.
Proof.
  intros Hne. by apply identity_preserved.
Qed.

Lemma identity_is_stable_witness :
  identity <$> metadata_list
    (download_all_memories Examples.offline UTC Examples.two_memories true false
       (initial_state (document None) ∅ ∅)).2
  = identity <$> default (seed Examples.two_memories) None /\
  forall doc,
    metadata_json
      (download_all_memories Examples.offline UTC Examples.two_memories true false
         (initial_state (document None) ∅ ∅)).2 = Stored doc ->
    identity <$> doc = identity <$> default (seed Examples.two_memories) None.
Proof.
  apply (identity_is_stable Examples.offline UTC Examples.two_memories true false
           None ∅ ∅).
  discriminate.
Defined.

(** After a first run (no ledger document before), whatever happened to
    the downloads, the ledger is aligned with the records: as many
    entries as records, and the entry at position [i] has number [i + 1]
    and the date and URL of the record at position [i]. *)
Theorem first_run_ledger_is_aligned (w : World) (tz : timezone)
    (memories : list Memory) (resume retry_failed : bool)
    (fs : gmap string bytes) (mt : gmap string Z) :
  memories <> [] ->
  length (metadata_list
    (download_all_memories w tz memories resume retry_failed
       (initial_state Absent fs mt)).2) = length memories /\
  forall i e,
    metadata_list
      (download_all_memories w tz memories resume retry_failed
         (initial_state Absent fs mt)).2 !! i = Some e ->
    exists memory,
      memories !! i = Some memory /\
      number e = Z.of_nat i + 1 /\ date e = m_date memory /\ url e = m_url memory.
Proof.
  intros Hne.
  destruct (identity_preserved w tz memories resume retry_failed None fs mt Hne)
    as [Hid _]. cbn [default document] in Hid.
  split.
  - apply (f_equal length) in Hid. rewrite !length_fmap in Hid. rewrite Hid.
    unfold seed. apply length_imap.
  - intros i e He.
    apply (f_equal (fun l => l !! i)) in Hid. rewrite !list_lookup_fmap, He in Hid.
    unfold seed in Hid. rewrite list_lookup_imap in Hid.
    destruct (memories !! i) as [memory|]; [|done].
    exists memory. cbn in Hid. injection Hid as Hn Hd _ _ _ Hu.
    split_and!; [done|lia|done|done].
Qed.

Lemma first_run_ledger_is_aligned_witness :
  length (metadata_list
    (download_all_memories (Examples.serving Examples.overlay_archive) UTC
       Examples.two_memories false false (initial_state Absent ∅ ∅)).2)
  = length Examples.two_memories /\
  forall i e,
    metadata_list
      (download_all_memories (Examples.serving Examples.overlay_archive) UTC
         Examples.two_memories false false (initial_state Absent ∅ ∅)).2 !! i = Some e ->
    exists memory,
      Examples.two_memories !! i = Some memory /\
      number e = Z.of_nat i + 1 /\ date e = m_date memory /\ url e = m_url memory.
Proof.
  apply (first_run_ledger_is_aligned (Examples.serving Examples.overlay_archive) UTC
           Examples.two_memories false false ∅ ∅).
  discriminate.
Defined.
Lemma fetch_and_stamp_ledger w tz u file_num extension date_str st r st' :
  fetch_and_stamp w tz u file_num extension date_str st = (r, st') ->
  metadata_list st' = metadata_list st /\
  metadata_json st' = metadata_json st /\
  gets (trace st') = (gets (trace st) ++ [u])%list /\
  (forall files_saved, r = Ok files_saved -> files_saved <> []).
Proof.
  intros H. apply fetch_and_stamp_cases in H as (st1 & t & Hw & Hs & Hok).
  pose proof (wrote_gets _ _ _ Hw) as Hg1. pose proof (stamped_gets _ _ _ Hs) as Hg2.
  destruct Hw as (Hl1 & Hj1 & _). destruct Hs as (Hl2 & Hj2 & _).
  split_and!.
  - by rewrite Hl2, Hl1.
  - by rewrite Hj2, Hj1.
  - rewrite Hg2, Hg1. unfold log. cbn [trace]. by rewrite gets_app.
  - intros fsv Hr. by destruct (Hok fsv Hr) as (ts & _ & _ & ? & _).
Qed.

Lemma save_metadata_gets w st :
  gets (trace (save_metadata w st).2) = gets (trace st).
Proof.
  destruct (save_metadata w st) as [r st'] eqn:E. cbn [snd].
  apply save_metadata_cases in E
    as (_ & _ & _ & [(_ & _ & ->)|(e & _ & _ & -> & _)]); [|done].
  rewrite gets_app. cbn. by rewrite app_nil_r.
Qed.

Lemma save_metadata_result w st : written_or_failed w (save_metadata w st).1.
Proof.
  destruct (save_metadata w st) as [r st'] eqn:E. cbn [fst].
  apply save_metadata_cases in E
    as (_ & _ & _ & [(-> & _)|(e & -> & Hw & _)]); [by left|right; by exists e].
Qed.

(** One iteration: either nothing happens (and then it completes only
    for an entry that is already downloaded); or the checkpoint cannot be
    written, and nothing is requested; or the record's URL is requested
    once and the entry ends as succeeded or failed (written, unless the
    write raises), or as started when an exception ends the iteration. *)
Lemma process_item_full w tz memories idx st r st' :
  process_item w tz memories idx st = (r, st') ->
  (st' = st /\
   (r = Ok tt ->
    exists metadata, metadata_list st !! idx = Some metadata /\
                     already_downloaded metadata = true /\
                     is_Some (memories !! idx)) /\
   (forall e, r = Raise e -> exn_cls e = IndexError)) \/
  (exists memory metadata,
     memories !! idx = Some memory /\
     metadata_list st !! idx = Some metadata /\
     already_downloaded metadata = false /\
     ((exists e, r = Raise e /\ write_failure w e /\
         gets (trace st') = gets (trace st) /\
         metadata_list st' = started idx (metadata_list st)) \/
      (gets (trace st') = (gets (trace st) ++ [m_url memory])%list /\
       ((exists files_saved, written_or_failed w r /\ files_saved <> [] /\
           metadata_list st' = succeeded idx files_saved (metadata_list st)) \/
        (exists e, written_or_failed w r /\ exn_cls e ∈ caught /\
           metadata_list st' = failed idx e (metadata_list st)) \/
        (exists e, r = Raise e /\
           metadata_list st' = started idx (metadata_list st)))))).
Proof.
  intros H. pose proof H as Hinv. apply process_item_inv in Hinv
    as [(Hm & -> & e & -> & He)|[(Hl & -> & e & -> & He)|[(m & Hl & Ha & -> & ->)
       |(memory & metadata & rb & stb & Hm & Hl & Ha & Hb & Hr)]]].
  - left. split_and!; [done|done|]. by intros e' [= <-].
  - left. split_and!; [done|done|]. by intros e' [= <-].
  - left. split_and!; [done| |done]. intros _. exists m. split_and!; [done|done|].
    unfold process_item in H. rewrite bind_run in H. unfold lift at 1, py_index at 1 in H.
    destruct (memories !! idx); [by eexists|by inversion H].
  - right. exists memory, metadata. split_and!; [done|done|done|].
    apply begin_item_cases in Hb
      as (Hlb & _ & _ & [(-> & Hjb & Htb)|(e & -> & Hwb & Htb & Hjb)]).
    2:{ destruct Hr as [-> ->]. left. exists e. split_and!; [done|done| |done].
        rewrite Htb, gets_app. cbn. by rewrite app_nil_r. }
    right. destruct Hr as (r2 & st2 & Hf & Hr).
    apply fetch_and_stamp_ledger in Hf as (Hl2 & _ & Hg & Hne).
    assert (Hg0 : gets (trace stb) = gets (trace st)).
    { rewrite Htb, gets_app. cbn. by rewrite app_nil_r. }
    rewrite Hg0 in Hg.
    destruct r2 as [fsv|e].
    + rewrite !bind_run in Hr.
      change (mark_status idx "success" st2)
        with (Ok tt, mkState (alter (set_status "success") idx (metadata_list st2))
                       (metadata_json st2) (fs_files st2) (fs_mtime st2)
                       (trace st2 ++ [EvStatus idx "success"])) in Hr.
      unfold update_entry at 1 in Hr. rewrite bind_run in Hr.
      cbn beta iota in Hr.
      cbn [metadata_list metadata_json fs_files fs_mtime trace] in Hr.
      match type of Hr with (_, _) = save_metadata w ?s =>
        pose proof (save_metadata_gets w s) as Hsg;
        pose proof (save_metadata_result w s) as Hsr;
        pose proof (save_metadata_ledger w s) as Hsl;
        rewrite <- Hr in Hsg, Hsr, Hsl
      end.
      cbn [fst snd metadata_list trace] in Hsg, Hsr, Hsl. split.
      * rewrite Hsg, gets_app, Hg. cbn. by rewrite app_nil_r.
      * left. exists fsv. split_and!; [done|by apply Hne|].
        rewrite Hsl. unfold succeeded. by rewrite Hl2, Hlb.
    + case_bool_decide as Hc.
      * rewrite bind_run in Hr.
        destruct (on_error w idx e st2) as [ro sto] eqn:Eo.
        apply on_error_cases in Eo as [(e' & -> & -> & _)|(-> & _ & ->)].
        -- injection Hr as -> ->. split; [done|]. right. right. exists e'.
           split; [done|]. by rewrite Hl2.
        -- match type of Hr with (_, _) = save_metadata w ?s =>
             pose proof (save_metadata_gets w s) as Hsg;
             pose proof (save_metadata_result w s) as Hsr;
             pose proof (save_metadata_ledger w s) as Hsl;
             rewrite <- Hr in Hsg, Hsr, Hsl
           end.
           cbn [fst snd metadata_list trace] in Hsg, Hsr, Hsl. split.
           ++ rewrite Hsg, gets_app, Hg. cbn. by rewrite app_nil_r.
           ++ right. left. exists e. split_and!; [done|done|].
              rewrite Hsl. unfold failed. by rewrite Hl2, Hlb.
      * destruct Hr as [-> ->]. split; [done|]. right. right. exists e.
        split; [done|]. by rewrite Hl2.
Qed.

(** A run on records: the ledger is loaded, or seeded and written; then
    the selected entries are processed and the document is rewritten, and
    with nothing selected the run ends at once.  When the seeded ledger
    cannot be written the run ends there, with nothing requested. *)
Lemma download_all_memories_inv w tz memories resume retry_failed d fs mt r st' :
  memories <> [] ->
  download_all_memories w tz memories resume retry_failed
    (initial_state (document d) fs mt) = (r, st') ->
  (d = None /\ (exists e, r = Raise e /\ write_failure w e) /\
   trace st' = [] /\ metadata_list st' = seed memories) \/
  (r, st') =
  match items_to_download resume retry_failed (default (seed memories) d) with
  | [] => (Ok tt, loaded d (default (seed memories) d) fs mt)
  | items =>
      bind (process_items w tz memories items) (fun _ => save_metadata w)
           (loaded d (default (seed memories) d) fs mt)
  end.
Proof.
  intros Hne. unfold download_all_memories.
  destruct memories as [|memory memories]; [done|].
  set (ms := memory :: memories). clearbody ms.
  rewrite bind_run. unfold initialize_metadata, initial_state, loaded.
  destruct d as [l|]; cbn [document metadata_json default].
  - rewrite bind_run. unfold set_metadata_list.
    cbn [metadata_json fs_files fs_mtime trace].
    intros <-. right. by destruct (items_to_download _ _ _).
  - rewrite !bind_run. unfold set_metadata_list at 1. rewrite bind_run.
    cbn [metadata_json fs_files fs_mtime trace].
    destruct (write_ledger w (seed ms) _) as [[[]|e] st1] eqn:Ew.
    + unfold write_ledger in Ew.
      cbn [metadata_list metadata_json fs_files fs_mtime trace] in Ew.
      destruct (open_w w _); [done|]. destruct (json_dump w _ _); [done|].
      injection Ew as <-. unfold log, ret.
      cbn [metadata_list metadata_json fs_files fs_mtime trace app].
      rewrite bind_run. unfold set_metadata_list.
      cbn [metadata_list metadata_json fs_files fs_mtime trace].
      intros <-. right. by destruct (items_to_download _ _ _).
    + apply write_ledger_cases in Ew
        as (Hl & _ & _ & [([=] & _)|(e' & [= <-] & Hw & Ht & _)]).
      intros [= <- <-]. left. split_and!; [done|by exists e|done|done].
Qed.

Lemma filter_enumerate_nil (P : nat * Entry -> Prop) `{!forall x, Decision (P x)}
    (l : list Entry) :
  (forall i m, l !! i = Some m -> ~ P (i, m)) ->
  filter P (enumerate l) = [].
Proof.
  intros Hall. apply elem_of_nil_inv. intros [i m] Hin.
  apply list_elem_of_filter in Hin as [HP Hin]. apply elem_of_enumerate in Hin.
  by apply (Hall i m).
Qed.

(** A resume or retry-failed run on a ledger in which every entry has
    succeeded does nothing: it completes without a request, without
    writing a file, and without rewriting the ledger document. *)
Theorem nothing_to_resume (w : World) (tz : timezone) (memories : list Memory)
    (resume retry_failed : bool) (l : list Entry)
    (fs : gmap string bytes) (mt : gmap string Z) :
  memories <> [] ->
  Forall (fun e => status e = "success") l ->
  resume = true \/ retry_failed = true ->
  download_all_memories w tz memories resume retry_failed (initial_state (Stored l) fs mt)
  = (Ok tt, mkState l (Stored l) fs mt []).
Proof.
  intros Hne Hall Hmode.
  destruct (download_all_memories w tz memories resume retry_failed
              (initial_state (Stored l) fs mt)) as [r st'] eqn:Erun.
  apply (download_all_memories_inv w tz memories resume retry_failed (Some l)) in Erun
    as [([=] & _)|Erun]; [|done].
  rewrite Erun. change (default (seed memories) (Some l)) with l.
  assert (Hsel : items_to_download resume retry_failed l = []).
  { unfold items_to_download.
    destruct resume; [|destruct retry_failed; [|by destruct Hmode]].
    - apply filter_enumerate_nil. intros i m Hm.
      pose proof (Forall_lookup_1 _ _ _ _ Hall Hm) as He. cbn in He.
      unfold resumable. cbn [snd]. rewrite He. done.
    - apply filter_enumerate_nil. intros i m Hm.
      pose proof (Forall_lookup_1 _ _ _ _ Hall Hm) as He. cbn in He.
      unfold is_failed. cbn [snd]. rewrite He. done. }
  by rewrite Hsel.
Qed.

Lemma nothing_to_resume_witness :
  download_all_memories Examples.offline UTC Examples.two_memories true false
    (initial_state
       (Stored [set_files [mkFileRef "01.jpg" 5 "single"]
                (set_status "success"
                   (seed_entry 1 (mkMemory "2024-01-01 12:00:00 UTC"
                      "https://example.com/1" (Some "Image") None None)))]) ∅ ∅)
  = (Ok tt,
     mkState
       [set_files [mkFileRef "01.jpg" 5 "single"]
          (set_status "success"
             (seed_entry 1 (mkMemory "2024-01-01 12:00:00 UTC"
                "https://example.com/1" (Some "Image") None None)))]
       (Stored [set_files [mkFileRef "01.jpg" 5 "single"]
          (set_status "success"
             (seed_entry 1 (mkMemory "2024-01-01 12:00:00 UTC"
                "https://example.com/1" (Some "Image") None None)))])
       ∅ ∅ []).
Proof.
  apply nothing_to_resume.
  - discriminate.
  - repeat constructor.
  - by left.
Defined.

Lemma process_items_in_range w tz memories items st st' :
  process_items w tz memories items st = (Ok tt, st') ->
  forall im, im ∈ items -> is_Some (memories !! im.1).
Proof.
  revert st. induction items as [|[idx m] items IH]; intros st Hrun im Hin.
  - by apply elem_of_nil in Hin.
  - cbn [process_items] in Hrun. rewrite bind_run in Hrun.
    destruct (process_item w tz memories idx st) as [[[]|e] st1] eqn:E; [|done].
    apply elem_of_cons in Hin as [->|Hin]; [|by eapply IH].
    apply process_item_full in E as [(_ & Hok & _)|(memory & _ & Hm & _)].
    + by destruct (Hok eq_refl) as (_ & _ & _ & ?).
    + by eexists.
Qed.

(** A run that completes has found a record for every selected entry: a
    ledger that selects an entry beyond the records does not complete. *)
Theorem completed_run_is_in_range (w : World) (tz : timezone)
    (memories : list Memory) (resume retry_failed : bool)
    (d : option (list Entry)) (fs : gmap string bytes) (mt : gmap string Z) :
  memories <> [] ->
  (download_all_memories w tz memories resume retry_failed
     (initial_state (document d) fs mt)).1
    = Ok tt ->
  Forall (fun im => (im.1 < length memories)%nat)
         (items_to_download resume retry_failed (default (seed memories) d)).
Proof.
  intros Hne Hok. apply Forall_forall. intros [i m] Hin.
  destruct (download_all_memories w tz memories resume retry_failed
              (initial_state (document d) fs mt)) as [r st'] eqn:Erun.
  cbn [fst] in Hok. subst r.
  apply download_all_memories_inv in Erun as [(_ & (e & [=] & _) & _)|Erun]; [|done].
  destruct (items_to_download _ _ _) as [|item items] eqn:Eit;
    [by apply elem_of_nil in Hin|].
  rewrite bind_run in Erun.
  destruct (process_items _ _ _ _ _) as [[[]|e] st1] eqn:Ep; [|done].
  apply lookup_lt_is_Some.
  by apply (process_items_in_range _ _ _ _ _ _ Ep (i, m)).
Qed.

Lemma completed_run_is_in_range_witness :
  Forall (fun im => (im.1 < length Examples.two_memories)%nat)
         (items_to_download false false (default (seed Examples.two_memories) None)).
Proof.
  apply (completed_run_is_in_range (Examples.serving Examples.overlay_archive) UTC
           Examples.two_memories false false None ∅ ∅).
  - discriminate.
  - by vm_compute.
Defined.

Lemma finished_succeeded idx files_saved l m st :
  l !! idx = Some m -> metadata_list st = succeeded idx files_saved l -> finished idx st.
Proof.
  intros Hm Hl. eexists. rewrite Hl, (lookup_succeeded_eq idx files_saved l m Hm).
  split; [done|]. cbn. by left.
Qed.

Lemma finished_failed idx e l m st :
  l !! idx = Some m -> metadata_list st = failed idx e l -> finished idx st.
Proof.
  intros Hm Hl. eexists. rewrite Hl, (lookup_failed_eq idx e l m Hm).
  split; [done|]. cbn. right. by left.
Qed.

(** An iteration that completes finishes its entry and leaves finished
    entries finished. *)
Lemma process_item_finishes w tz memories idx st st' :
  process_item w tz memories idx st = (Ok tt, st') ->
  finished idx st' /\ forall j, finished j st -> finished j st'.
Proof.
  intros H. apply process_item_full in H
    as [(-> & Hok & _)
       |(memory & metadata & _ & Hl & Ha &
         [(e & [=] & _)
         |(_ & [(fsv & _ & _ & Hl')|[(e & _ & _ & Hl')|(e & [=] & _)]])])].
  - split; [|done]. destruct (Hok eq_refl) as (metadata & Hl & Ha & _).
    exists metadata. split; [done|]. unfold already_downloaded in Ha.
    apply andb_true_iff in Ha as [Ha _]. apply bool_decide_eq_true in Ha.
    rewrite Ha. by left.
  - pose proof (finished_succeeded idx fsv _ metadata st' Hl Hl') as Hf.
    split; [done|]. intros j Hj. destruct (decide (idx = j)) as [<-|Hne]; [done|].
    destruct Hj as (e & He & Hs). exists e. by rewrite Hl', lookup_succeeded_ne.
  - pose proof (finished_failed idx e _ metadata st' Hl Hl') as Hf.
    split; [done|]. intros j Hj. destruct (decide (idx = j)) as [<-|Hne]; [done|].
    destruct Hj as (e' & He & Hs). exists e'. by rewrite Hl', lookup_failed_ne.
Qed.

Lemma process_items_finish w tz memories items st st' :
  process_items w tz memories items st = (Ok tt, st') ->
  (forall j, finished j st -> finished j st') /\
  forall im, im ∈ items -> finished im.1 st'.
Proof.
  revert st. induction items as [|[idx m] items IH]; intros st Hrun.
  - injection Hrun as <-. split; [done|]. intros im Hin. by apply elem_of_nil in Hin.
  - cbn [process_items] in Hrun. rewrite bind_run in Hrun.
    destruct (process_item w tz memories idx st) as [[[]|e] st1] eqn:E; [|done].
    apply process_item_finishes in E as [Hidx Hkeep].
    apply IH in Hrun as [Hkeep' Hall]. split; [by auto|].
    intros im Hin. apply elem_of_cons in Hin as [->|Hin]; [|by apply Hall].
    by apply Hkeep'.
Qed.

(** When a run completes, every selected entry has succeeded or failed,
    in memory and in the document: none is left ['pending'] or
    ['in_progress']. *)
Theorem completed_run_finishes_selection (w : World) (tz : timezone)
    (memories : list Memory) (resume retry_failed : bool)
    (d : option (list Entry)) (fs : gmap string bytes) (mt : gmap string Z)
    (st' : State) :
  memories <> [] ->
  download_all_memories w tz memories resume retry_failed
    (initial_state (document d) fs mt) = (Ok tt, st') ->
  metadata_json st' = Stored (metadata_list st') /\
  forall i m,
    (i, m) ∈ items_to_download resume retry_failed (default (seed memories) d) ->
    exists e, metadata_list st' !! i = Some e /\ status e ∈ ["success"; "failed"].
Proof.
  intros Hne Hrun. split.
  - by apply (completed_run_persisted w tz memories resume retry_failed _ st' Hne Hrun).
  - intros i m Hin.
    apply download_all_memories_inv in Hrun as [(_ & (e & [=] & _) & _)|Hrun]; [|done].
    destruct (items_to_download _ _ _) as [|item items] eqn:Eit;
      [by apply elem_of_nil in Hin|].
    rewrite bind_run in Hrun.
    destruct (process_items _ _ _ _ _) as [[[]|e] st1] eqn:Ep; [|done].
    apply process_items_finish in Ep as [_ Hall].
    destruct (Hall (i, m) Hin) as (en & Hen & Hs). exists en. split; [|done].
    pose proof (save_metadata_ledger w st1) as Hsl. rewrite <- Hrun in Hsl.
    cbn [snd] in Hsl. by rewrite Hsl.
Qed.

Lemma completed_run_finishes_selection_witness :
  metadata_json
    (download_all_memories Examples.offline UTC Examples.two_memories false false
       (initial_state (document None) ∅ ∅)).2
  = Stored (metadata_list
    (download_all_memories Examples.offline UTC Examples.two_memories false false
       (initial_state (document None) ∅ ∅)).2) /\
  forall i m,
    (i, m) ∈ items_to_download false false (default (seed Examples.two_memories) None) ->
    exists e,
      metadata_list
        (download_all_memories Examples.offline UTC Examples.two_memories false false
           (initial_state (document None) ∅ ∅)).2 !! i = Some e /\
      status e ∈ ["success"; "failed"].
Proof.
  apply (completed_run_finishes_selection Examples.offline UTC Examples.two_memories
           false false None ∅ ∅).
  - discriminate.
  - by vm_compute.
Defined.

(* ===================================================================== *)
(** * Requests                                                            *)
(* ===================================================================== *)

Lemma fst_enumerate {A} (l : list A) : (enumerate l).*1 = seq 0 (length l).
Proof.
  unfold enumerate. rewrite fmap_imap.
  rewrite (imap_ext _ (fun i _ => i)) by done.
  rewrite (imap_seq_0 l (fun i => i)). apply list_fmap_id.
Qed.

Lemma NoDup_fst_filter {A B} (P : A * B -> Prop) `{!forall x, Decision (P x)}
    (l : list (A * B)) :
  NoDup l.*1 -> NoDup (filter P l).*1.
Proof.
  induction l as [|[a b] l IH]; [done|]. rewrite fmap_cons. intros Hnd.
  apply NoDup_cons in Hnd as [Hnotin Hnd]. rewrite filter_cons.
  destruct (decide (P (a, b))); [|by apply IH].
  rewrite fmap_cons. apply NoDup_cons. split; [|by apply IH].
  intros Hin. apply Hnotin. apply list_elem_of_fmap in Hin as ([a' b'] & Ha & Hin).
  apply list_elem_of_filter in Hin as [_ Hin].
  apply list_elem_of_fmap. by exists (a', b').
Qed.

Lemma NoDup_fst_items_to_download resume retry_failed l :
  NoDup (items_to_download resume retry_failed l).*1.
Proof.
  assert (NoDup (enumerate l).*1) by (rewrite fst_enumerate; apply NoDup_seq).
  unfold items_to_download. destruct resume; [by apply NoDup_fst_filter|].
  destruct retry_failed; [by apply NoDup_fst_filter|done].
Qed.

Lemma elem_of_items_to_download resume retry_failed l i m :
  (i, m) ∈ items_to_download resume retry_failed l -> l !! i = Some m.
Proof.
  unfold items_to_download. destruct resume; [|destruct retry_failed].
  - intros H. apply list_elem_of_filter in H as [_ H]. by apply elem_of_enumerate.
  - intros H. apply list_elem_of_filter in H as [_ H]. by apply elem_of_enumerate.
  - apply elem_of_enumerate.
Qed.

(** The requests of the loop: one for each entry of a sub-list of the
    items, in order, provided the items are the entries at distinct
    positions. *)
Lemma process_items_requests w tz memories items st r st' :
  NoDup items.*1 ->
  (forall im, im ∈ items -> metadata_list st !! im.1 = Some im.2) ->
  process_items w tz memories items st = (r, st') ->
  exists fetched us,
    fetched `sublist_of` items /\
    gets (trace st') = (gets (trace st) ++ us)%list /\
    Forall2 (request_for memories) us fetched.
Proof.
  revert st. induction items as [|[idx m] items IH]; intros st Hnd Hinv Hrun.
  - injection Hrun as <- <-. exists [], []. by rewrite app_nil_r.
  - cbn in Hnd. apply NoDup_cons in Hnd as [Hnotin Hnd].
    cbn [process_items] in Hrun. rewrite bind_run in Hrun.
    destruct (process_item w tz memories idx st) as [r1 st1] eqn:E.
    assert (Hrest : forall st2, (forall j, j ≠ idx ->
                metadata_list st2 !! j = metadata_list st !! j) ->
              forall im, im ∈ items -> metadata_list st2 !! im.1 = Some im.2).
    { intros st2 Hsame [j mj] Hin. cbn. rewrite Hsame.
      - apply (Hinv (j, mj)). by right.
      - intros ->. apply Hnotin. apply list_elem_of_fmap. by exists (idx, mj). }
    apply process_item_full in E
      as [(-> & _ & _)|(memory & metadata & Hm & Hl & Ha & Hcases)].
    + destruct r1 as [[]|e].
      * destruct (IH st Hnd (Hrest st (fun _ _ => eq_refl)) Hrun)
          as (fetched & us & Hsub & Hgets & Hreq).
        exists fetched, us. split_and!; [by apply sublist_cons|done|done].
      * injection Hrun as <- <-. exists [], []. rewrite app_nil_r.
        split_and!; [apply sublist_nil_l|done|done].
    + assert (Hmm : metadata = m).
      { specialize (Hinv (idx, m) ltac:(by left)). cbn in Hinv. congruence. }
      subst metadata.
      assert (Hreq1 : request_for memories (m_url memory) (idx, m)) by (by exists memory).
      destruct Hcases as [(e & -> & _ & Hg & _)|(Hg & Hcases)].
      { injection Hrun as <- <-. exists [], []. rewrite app_nil_r.
        split_and!; [apply sublist_nil_l|done|done]. }
      destruct r1 as [[]|e].
      * assert (Hsame : forall j, j ≠ idx ->
                  metadata_list st1 !! j = metadata_list st !! j).
        { intros j Hj.
          destruct Hcases as [(fsv & _ & _ & ->)|[(e & _ & _ & ->)|(e & [=] & _)]].
          - by apply lookup_succeeded_ne.
          - by apply lookup_failed_ne. }
        destruct (IH st1 Hnd (Hrest st1 Hsame) Hrun)
          as (fetched & us & Hsub & Hgets & Hreq).
        exists ((idx, m) :: fetched), (m_url memory :: us).
        split_and!; [by apply sublist_skip| |by constructor].
        rewrite Hgets, Hg. by rewrite <- app_assoc.
      * injection Hrun as <- <-. exists [(idx, m)], [m_url memory].
        split_and!; [|done|by repeat constructor].
        apply sublist_skip, sublist_nil_l.
Qed.

(** The requests of a run are, in order, the URLs of the records at the
    positions of a sub-list of the selected entries, none of which was
    already downloaded: at most one request for a selected entry, in the
    order of the ledger, none for an entry that is skipped or not
    selected, none repeated after a failure; and the URL comes from the
    record of the export, not from the ledger entry. *)
Theorem requests_follow_selection (w : World) (tz : timezone)
    (memories : list Memory) (resume retry_failed : bool)
    (d : option (list Entry)) (fs : gmap string bytes) (mt : gmap string Z) :
  memories <> [] ->
  exists fetched,
    fetched `sublist_of`
      items_to_download resume retry_failed (default (seed memories) d) /\
    Forall2 (request_for memories)
      (gets (trace (download_all_memories w tz memories resume retry_failed
                      (initial_state (document d) fs mt)).2))
      fetched.
Proof.
  intros Hne.
  destruct (download_all_memories w tz memories resume retry_failed
              (initial_state (document d) fs mt)) as [r st'] eqn:Erun.
  cbn [snd].
  apply download_all_memories_inv in Erun as [(_ & _ & Ht & _)|Erun]; [| |done].
  { exists []. rewrite Ht. split; [apply sublist_nil_l|constructor]. }
  set (l := default (seed memories) d) in *.
  assert (Hg0 : gets (trace (loaded d l fs mt)) = []) by (by destruct d).
  pose proof (NoDup_fst_items_to_download resume retry_failed l) as Hnd.
  assert (Hinv : forall im, im ∈ items_to_download resume retry_failed l ->
            metadata_list (loaded d l fs mt) !! im.1 = Some im.2).
  { intros [i m] Hin. by apply elem_of_items_to_download in Hin. }
  destruct (items_to_download resume retry_failed l) as [|item items] eqn:Eit.
  - injection Erun as -> ->. exists []. rewrite Hg0. split; [done|constructor].
  - rewrite bind_run in Erun.
    destruct (process_items w tz memories (item :: items) (loaded d l fs mt))
      as [r1 st1] eqn:Ep.
    destruct (process_items_requests _ _ _ _ _ _ _ Hnd Hinv Ep)
      as (fetched & us & Hsub & Hgets & Hreq).
    rewrite Hg0 in Hgets. cbn [app] in Hgets.
    exists fetched. split; [done|].
    destruct r1 as [[]|e].
    + pose proof (save_metadata_gets w st1) as Hsg. rewrite <- Erun in Hsg.
      cbn [snd] in Hsg. by rewrite Hsg, Hgets.
    + injection Erun as -> ->. by rewrite Hgets.
Qed.

Lemma requests_follow_selection_witness :
  exists fetched,
    fetched `sublist_of`
      items_to_download false false (default (seed Examples.two_memories) None) /\
    Forall2 (request_for Examples.two_memories)
      (gets (trace (download_all_memories (Examples.serving Examples.overlay_archive)
                      UTC Examples.two_memories false false
                      (initial_state (document None) ∅ ∅)).2))
      fetched.
Proof.
  apply (requests_follow_selection (Examples.serving Examples.overlay_archive) UTC
           Examples.two_memories false false None ∅ ∅).
  discriminate.
Defined.

(* ===================================================================== *)
(** * Edge cases of an iteration                                          *)
(* ===================================================================== *)

Lemma now_log ev st : now (log ev st) = S (now st).
Proof. unfold now, log. cbn. rewrite length_app. cbn. lia. Qed.

(** An archive without members: [download_and_extract] returns the empty
    list, the report then reads [files_saved[0]], and the [IndexError] is
    not one the loop handles.  Where the ledger can be written, the run
    ends there, with the entry ['in_progress'] in memory and in the
    document, whatever entries were still to come. *)
Theorem empty_archive_aborts_run (w : World) (tz : timezone)
    (memories : list Memory) (idx : nat) (st : State)
    (memory : Memory) (metadata : Entry) (content : bytes) :
  memories !! idx = Some memory ->
  metadata_list st !! idx = Some metadata ->
  already_downloaded metadata = false ->
  ledger_writable w ->
  (forall n, requests_get w n (m_url memory) = Ok content) ->
  is_zip_file content = true ->
  (forall n, ZipFile w n content = Ok []) ->
  exists e st',
    process_item w tz memories idx st = (Raise e, st') /\
    exn_cls e = IndexError /\
    status <$> metadata_list st' !! idx = Some "in_progress" /\
    metadata_json st' = Stored (metadata_list st') /\
    forall m rest,
      process_items w tz memories ((idx, m) :: rest) st = (Raise e, st').
Proof.
  intros Hm Hl Ha Hw Hget Hzip Hopen.
  destruct (begin_item w idx st) as [rb st1] eqn:Eb.
  pose proof Eb as Hb. apply begin_item_cases in Hb
    as (Hl1 & _ & _ & [(-> & Hj1 & _)|(e & _ & Hf & _)]);
    [|by apply not_write_failure in Hf].
  assert (Hd : download_and_extract w (m_url memory) (format_02d (number metadata))
                 (get_file_extension (media_type metadata)) st1
               = (Ok [], log (EvGet (m_url memory)) st1)).
  { unfold download_and_extract. rewrite bind_run. unfold http_get at 1.
    rewrite Hget, Hzip, bind_run. unfold open_zip at 1. by rewrite Hopen. }
  assert (Hrun : process_item w tz memories idx st
                 = (Raise (Exn IndexError "list index out of range"),
                    log (EvGet (m_url memory)) st1)).
  { unfold process_item. rewrite bind_run. unfold lift at 1, py_index at 1.
    rewrite Hm, bind_run. unfold get_metadata_list at 1. rewrite bind_run.
    unfold lift at 1, py_index at 1. rewrite Hl, Ha, bind_run.
    rewrite Eb, bind_run. unfold try_catch, attempt. rewrite bind_run.
    rewrite Hd. reflexivity. }
  eexists _, _. split_and!; [exact Hrun|done| | |].
  - cbn [log metadata_list]. rewrite Hl1.
    by rewrite (lookup_started_eq idx _ metadata Hl).
  - cbn [log metadata_list metadata_json]. by rewrite Hj1, Hl1.
  - intros m rest. cbn [process_items]. by rewrite bind_run, Hrun.
Qed.

Lemma empty_archive_aborts_run_witness :
  exists e st',
    process_item (Examples.serving []) UTC Examples.two_memories 0 Examples.seeded
      = (Raise e, st') /\
    exn_cls e = IndexError /\
    status <$> metadata_list st' !! 0%nat = Some "in_progress" /\
    metadata_json st' = Stored (metadata_list st') /\
    forall m rest,
      process_items (Examples.serving []) UTC Examples.two_memories
        ((0%nat, m) :: rest) Examples.seeded = (Raise e, st').
Proof.
  apply (empty_archive_aborts_run (Examples.serving []) UTC Examples.two_memories 0
           Examples.seeded
           (mkMemory "2024-01-01 12:00:00 UTC" "https://example.com/1" (Some "Image")
                     None None)
           (seed_entry 1 (mkMemory "2024-01-01 12:00:00 UTC" "https://example.com/1"
                                   (Some "Image") None None))
           Examples.zip_payload); try reflexivity.
  split; reflexivity.
Defined.

(** The transition to ['success'] sets [status] and [files] only: an
    entry that succeeds keeps the [error] it had, so an entry that failed
    in an earlier run and succeeds on retry still shows the message of the
    old failure. *)
Theorem success_keeps_old_error (w : World) (tz : timezone)
    (memories : list Memory) (idx : nat) (st st' : State) (r : result unit)
    (m m' : Entry) :
  process_item w tz memories idx st = (r, st') ->
  metadata_list st !! idx = Some m ->
  metadata_list st' !! idx = Some m' ->
  status m' = "success" ->
  error m' = error m.
Proof.
  intros Hrun Hm Hm' Hs.
  apply process_item_full in Hrun
    as [(-> & _)|(memory & metadata & _ & Hl & _ &
                  [(e & _ & _ & _ & Hl')
                  |(_ & [(fsv & _ & _ & Hl')|[(e & _ & _ & Hl')|(e & _ & Hl')]])])].
  - congruence.
  - rewrite Hl', (lookup_started_eq idx _ m Hm) in Hm'. injection Hm' as <-.
    discriminate.
  - rewrite Hl', (lookup_succeeded_eq idx fsv _ m Hm) in Hm'. by injection Hm' as <-.
  - rewrite Hl', (lookup_failed_eq idx e _ m Hm) in Hm'. injection Hm' as <-.
    discriminate.
  - rewrite Hl', (lookup_started_eq idx _ m Hm) in Hm'. injection Hm' as <-.
    discriminate.
Qed.

Lemma success_keeps_old_error_witness :
  error (set_files [mkFileRef "01.jpg" 5 "single"]
           (set_status "success"
              (set_status "in_progress"
                 (set_error "Read timed out."
                    (set_status "failed"
                       (seed_entry 1 (mkMemory "2024-01-01 12:00:00 UTC"
                          "https://example.com/1" (Some "Image") None None)))))))
  = Some "Read timed out.".
Proof.
  apply (success_keeps_old_error
           (mkWorld (fun _ _ => Ok Examples.jpeg) (fun _ _ => Ok [])
                    (fun _ _ => None) (fun _ _ => None)
                    (fun _ => None) (fun _ _ => None) Examples.no_json
                    (fun _ => quiet))
           UTC Cases.one_memory 0 Cases.retrying
           (process_item
              (mkWorld (fun _ _ => Ok Examples.jpeg) (fun _ _ => Ok [])
                       (fun _ _ => None) (fun _ _ => None)
                       (fun _ => None) (fun _ _ => None) Examples.no_json
                       (fun _ => quiet))
              UTC Cases.one_memory 0 Cases.retrying).2
           (Ok tt)
           (set_error "Read timed out."
              (set_status "failed"
                 (seed_entry 1 (mkMemory "2024-01-01 12:00:00 UTC"
                    "https://example.com/1" (Some "Image") None None))))).
  - by vm_compute.
  - reflexivity.
  - by vm_compute.
  - reflexivity.
Defined.


(** The end of an iteration whose files are saved: the entry is marked
    and the ledger written. *)
Lemma finish_success_cases w idx files_saved st r st' :
  (bind (mark_status idx "success")
     (fun _ => bind (update_entry idx (set_files files_saved))
     (fun _ => save_metadata w))) st = (r, st') ->
  metadata_list st' =
    alter (set_files files_saved) idx (alter (set_status "success") idx (metadata_list st)) /\
  fs_files st' = fs_files st /\
  fs_mtime st' = fs_mtime st /\
  written_or_failed w r.
Proof.
  rewrite !bind_run.
  change (mark_status idx "success" st)
    with (Ok tt, mkState (alter (set_status "success") idx (metadata_list st))
                   (metadata_json st) (fs_files st) (fs_mtime st)
                   (trace st ++ [EvStatus idx "success"])).
  unfold update_entry at 1. rewrite bind_run. cbn beta iota.
  cbn [metadata_list metadata_json fs_files fs_mtime trace].
  intros H.
  match type of H with save_metadata w ?s = _ =>
    pose proof (save_metadata_result w s) as Hr end.
  rewrite H in Hr.
  apply save_metadata_cases in H as (Hl & Hf & Hm & _).
  by rewrite Hl, Hf, Hm.
Qed.

(** The end of an iteration whose exception is handled: the error line is
    printed, the entry marked and the ledger written. *)
Lemma finish_failed_cases w idx e st r st' :
  (bind (on_error w idx e) (fun _ => save_metadata w)) st = (r, st') ->
  fs_files st' = fs_files st /\
  fs_mtime st' = fs_mtime st /\
  ((exists e', r = Raise e' /\ st' = st /\
               stdout w (now st) (Line (error_line e)) = Some e') \/
   (stdout w (now st) (Line (error_line e)) = None /\
    written_or_failed w r /\
    metadata_list st' =
      alter (set_error (exn_msg e)) idx
        (alter (set_status "failed") idx (metadata_list st)))).
Proof.
  rewrite bind_run. destruct (on_error w idx e st) as [ro sto] eqn:Eo.
  apply on_error_cases in Eo as [(e' & -> & -> & Hp)|(-> & Hp & ->)].
  - intros [= <- <-]. split_and!; [done|done|]. left. by exists e'.
  - intros H.
    match type of H with save_metadata w ?s = _ =>
      pose proof (save_metadata_result w s) as Hr end.
    rewrite H in Hr.
    apply save_metadata_cases in H as (Hl & Hf & Hm & _).
    split_and!; [done|done|]. right. by rewrite Hl.
Qed.

Lemma written_or_failed_writable w r :
  ledger_writable w -> written_or_failed w r -> r = Ok tt.
Proof.
  intros Hw [->|(e & _ & Hf)]; [done|]. by apply not_write_failure in Hf.
Qed.

(** A failure in the middle of an archive: the first member is read and
    written, reading the second raises an exception the loop handles.
    Where the error line can be printed and the ledger written, the entry
    ends ['failed'] with its [files] as they were, though the file of the
    first member is in the output directory. *)
Theorem failed_item_leaves_files (w : World) (tz : timezone)
    (memories : list Memory) (idx : nat) (st : State)
    (memory : Memory) (metadata : Entry) (content : bytes)
    (n1 n2 : string) (d1 : bytes) (e : exn) :
  memories !! idx = Some memory ->
  metadata_list st !! idx = Some metadata ->
  already_downloaded metadata = false ->
  ledger_writable w ->
  (forall n, stdout w n (Line (error_line e)) = None) ->
  (forall n, requests_get w n (m_url memory) = Ok content) ->
  is_zip_file content = true ->
  (forall n, ZipFile w n content = Ok [(n1, Ok d1); (n2, Raise e)]) ->
  n1 <> n2 ->
  exn_cls e ∈ caught ->
  (forall n, open_wb w n
     (classify (format_02d (number metadata))
        (get_file_extension (media_type metadata)) n1).2 = None) ->
  exists st',
    process_item w tz memories idx st = (Ok tt, st') /\
    status <$> metadata_list st' !! idx = Some "failed" /\
    files <$> metadata_list st' !! idx = Some (files metadata) /\
    fs_files st' !!
      (classify (format_02d (number metadata))
         (get_file_extension (media_type metadata)) n1).2 = Some d1.
Proof.
  intros Hm Hl Ha Hled Hout Hget Hzip Hopen Hne Hc Hw.
  set (file_num := format_02d (number metadata)) in *.
  set (extension := get_file_extension (media_type metadata)) in *.
  destruct (begin_item w idx st) as [rb st1] eqn:Eb.
  pose proof Eb as Hb. apply begin_item_cases in Hb
    as (Hl1 & _ & _ & [(-> & _)|(e' & _ & Hf & _)]);
    [|by apply not_write_failure in Hf].
  destruct (zf_read_two n1 (Ok d1) n2 (Raise e) Hne) as [Hr1 Hr2].
  assert (Hd : exists st2,
             download_and_extract w (m_url memory) file_num extension st1
               = (Raise e, st2) /\
             metadata_list st2 = metadata_list st1 /\
             fs_files st2 !! (classify file_num extension n1).2 = Some d1).
  { unfold download_and_extract. rewrite bind_run. unfold http_get at 1.
    rewrite Hget, Hzip, bind_run. unfold open_zip at 1. rewrite Hopen.
    unfold namelist. cbn [fmap list_fmap fst extract_members].
    rewrite bind_run. unfold lift at 1. rewrite Hr1.
    destruct (classify file_num extension n1) as [ty out] eqn:Ec. cbn [snd] in Hw.
    rewrite bind_run. unfold write_file at 1. rewrite Hw.
    rewrite bind_run. unfold lift at 1. rewrite Hr2.
    eexists. split; [reflexivity|]. split; [reflexivity|]. cbn. apply lookup_insert_eq. }
  destruct Hd as (st2 & Hd & Hl2 & Hf2).
  destruct (bind (on_error w idx e) (fun _ => save_metadata w) st2) as [r st'] eqn:Ee.
  assert (Hrun : process_item w tz memories idx st = (r, st')).
  { unfold process_item. rewrite bind_run. unfold lift at 1, py_index at 1.
    rewrite Hm, bind_run. unfold get_metadata_list at 1. rewrite bind_run.
    unfold lift at 1, py_index at 1. rewrite Hl, Ha, bind_run.
    rewrite Eb, bind_run. unfold try_catch, attempt. rewrite bind_run.
    fold file_num extension. rewrite Hd.
    rewrite bool_decide_eq_true_2 by done. by rewrite bind_run in Ee. }
  apply finish_failed_cases in Ee
    as (Hfs & _ & [(e' & _ & _ & Hp)|(_ & Hr & Hl')]); [by rewrite Hout in Hp|].
  apply (written_or_failed_writable w r Hled) in Hr as ->.
  exists st'. split; [exact Hrun|].
  rewrite Hl2, Hl1 in Hl'. change (metadata_list st' = failed idx e (metadata_list st)) in Hl'.
  rewrite Hl', (lookup_failed_eq idx e _ metadata Hl). split_and!; [done|done|].
  by rewrite Hfs.
Qed.

Lemma failed_item_leaves_files_witness :
  exists st',
    process_item (Examples.serving Cases.damaged_archive) UTC Examples.two_memories 0
      Examples.seeded = (Ok tt, st') /\
    status <$> metadata_list st' !! 0%nat = Some "failed" /\
    files <$> metadata_list st' !! 0%nat = Some [] /\
    fs_files st' !! "01-overlay.jpg" = Some [x01].
Proof.
  apply (failed_item_leaves_files (Examples.serving Cases.damaged_archive) UTC
           Examples.two_memories 0 Examples.seeded
           (mkMemory "2024-01-01 12:00:00 UTC" "https://example.com/1" (Some "Image")
                     None None)
           (seed_entry 1 (mkMemory "2024-01-01 12:00:00 UTC" "https://example.com/1"
                                   (Some "Image") None None))
           Examples.zip_payload "a-overlay.png" "b.jpg" [x01] Cases.bad_crc);
    try reflexivity.
  - split; reflexivity.
  - discriminate.
  - vm_compute. apply list_elem_of_In. right. right. left. reflexivity.
Defined.

(** The time stamps of a success.  When the entry's date parses to a
    time other than zero, every file listed in the entry carries that
    time as its modification time; when the date does not parse, or
    parses to zero (the epoch on the host's clock), no time stamp is
    set.  What the date parses to does not depend on the standard output
    [out] the parser is given. *)
Theorem success_stamps_files (w : World) (tz : timezone)
    (memories : list Memory) (idx : nat) (st st' : State)
    (metadata m' : Entry) (out : Stdout) (ts : option Z) :
  process_item w tz memories idx st = (Ok tt, st') ->
  metadata_list st !! idx = Some metadata ->
  already_downloaded metadata = false ->
  metadata_list st' !! idx = Some m' ->
  status m' = "success" ->
  parse_date_to_timestamp out tz (PyStr (date metadata)) = Ok ts ->
  (truthy ts = true ->
   Forall (fun ref => fs_mtime st' !! fr_path ref = ts) (files m')) /\
  (truthy ts = false -> fs_mtime st' = fs_mtime st).
Proof.
  intros Hrun Hl Ha Hm' Hs Hts. apply process_item_inv in Hrun
    as [(_ & _ & e & [=] & _)|[(_ & _ & e & [=] & _)|[(m & Hlm & Ham & _)
       |(memory & m & rb & stb & Hm & Hlm & _ & Hb & Hr)]]]; [congruence|].
  assert (m = metadata) as -> by congruence.
  apply begin_item_cases in Hb as (Hlb & _ & Hmb & Hcases).
  destruct rb as [[]|e]; [|by destruct Hr].
  destruct Hr as (r2 & st2 & Hf & Hr).
  apply fetch_and_stamp_cases in Hf as (st1 & t & Hw & Hstamp & Hok).
  assert (Hl2 : metadata_list st2 = started idx (metadata_list st)).
  { destruct Hw as (Hw & _), Hstamp as (Hs2 & _). by rewrite Hs2, Hw. }
  destruct r2 as [fsv|e].
  - symmetry in Hr. apply finish_success_cases in Hr as (Hl' & _ & Hmt & _).
    destruct (Hok fsv eq_refl) as (ts' & Hts' & _ & _ & Hyes & Hno).
    assert (ts' = ts) as ->
      by apply (parse_date_to_timestamp_agree _ _ _ _ _ _ Hts' Hts).
    assert (Hfiles : files m' = fsv).
    { rewrite Hl', Hl2 in Hm'.
      change (succeeded idx fsv (metadata_list st) !! idx = Some m') in Hm'.
      rewrite (lookup_succeeded_eq idx fsv _ metadata Hl) in Hm'. by injection Hm' as <-. }
    split.
    + intros Htr. rewrite Hfiles. apply Forall_forall. intros ref Hin. cbn.
      rewrite Hmt, (Hyes Htr ref Hin). destruct ts; [done|discriminate].
    + intros Htr. rewrite Hmt, (Hno Htr).
      destruct Hw as (_ & _ & -> & _). by cbn.
  - exfalso. case_bool_decide; [|by destruct Hr].
    symmetry in Hr. apply finish_failed_cases in Hr
      as (_ & _ & [(e' & [=] & _)|(_ & _ & Hl')]).
    rewrite Hl', Hl2 in Hm'.
    change (failed idx e (metadata_list st) !! idx = Some m') in Hm'.
    rewrite (lookup_failed_eq idx e _ metadata Hl) in Hm'. injection Hm' as <-.
    discriminate.
Qed.

Lemma success_stamps_files_witness :
  (truthy (Some 1704110400) = true ->
   Forall (fun ref =>
             fs_mtime (process_item (Examples.serving Examples.overlay_archive) UTC
                         Examples.two_memories 0 Examples.seeded).2 !! fr_path ref
             = Some 1704110400)
          [mkFileRef "01-overlay.jpg" 1 "overlay"; mkFileRef "01-main.jpg" 2 "main"]) /\
  (truthy (Some 1704110400) = false ->
   fs_mtime (process_item (Examples.serving Examples.overlay_archive) UTC
               Examples.two_memories 0 Examples.seeded).2
   = fs_mtime Examples.seeded).
Proof.
  apply (success_stamps_files (Examples.serving Examples.overlay_archive) UTC
           Examples.two_memories 0 Examples.seeded
           (process_item (Examples.serving Examples.overlay_archive) UTC
              Examples.two_memories 0 Examples.seeded).2
           (seed_entry 1 (mkMemory "2024-01-01 12:00:00 UTC" "https://example.com/1"
                                   (Some "Image") None None))
           (set_files [mkFileRef "01-overlay.jpg" 1 "overlay";
                       mkFileRef "01-main.jpg" 2 "main"]
              (set_status "success"
                 (set_status "in_progress"
                    (seed_entry 1 (mkMemory "2024-01-01 12:00:00 UTC"
                       "https://example.com/1" (Some "Image") None None)))))
           quiet (Some 1704110400)).
  - by vm_compute.
  - reflexivity.
  - reflexivity.
  - by vm_compute.
  - reflexivity.
  - by vm_compute.
Defined.

(** A record dated at the epoch, on a host set to UTC: the download
    succeeds and the file is not stamped. *)
Example epoch_record_is_not_stamped :
  status <$> metadata_list
    (download_all_memories (Examples.serving []) UTC Cases.epoch_memory false false
       (initial_state Absent ∅ ∅)).2 = ["success"] /\
  fs_mtime
    (download_all_memories (Examples.serving []) UTC Cases.epoch_memory false false
       (initial_state Absent ∅ ∅)).2 = ∅.
Proof. by vm_compute. Qed.

(* ===================================================================== *)
(** * The [--test] mode                                                   *)
(* ===================================================================== *)

(** One iteration of the test loop: it either ends the run with an
    exception the loop does not handle, or appends one entry, succeeded
    with files or failed with a message. *)
Lemma test_item_cases w tz i memory st r st' :
  test_item w tz i memory st = (r, st') ->
  metadata_json st' = metadata_json st /\
  ((exists e, r = Raise e /\ metadata_list st' = metadata_list st) \/
   (r = Ok tt /\ exists entry,
      metadata_list st' = (metadata_list st ++ [entry])%list /\
      identity entry = identity (seed_entry (Z.of_nat (S i)) memory) /\
      entry_inv entry /\ status entry ∈ ["success"; "failed"])).
Proof.
  unfold test_item. rewrite bind_run. unfold try_catch. rewrite bind_run.
  destruct (fetch_and_stamp _ _ _ _ _ _ st) as [[fsv|e] st1] eqn:Ef;
    apply fetch_and_stamp_ledger in Ef as (Hl & Hj & _ & Hne).
  - intros [= <- <-]. split; [done|]. right. split; [done|].
    eexists. split; [cbn; by rewrite Hl|]. split_and!; [done| |cbn; by left].
    unfold entry_inv. cbn. split; [done|]. intros _. by apply Hne.
  - case_bool_decide.
    + rewrite bind_run. unfold print at 1, print_to.
      destruct (stdout w (now st1) _) as [e'|].
      * intros [= <- <-]. split; [done|]. left. by exists e'.
      * intros [= <- <-]. split; [done|]. right. split; [done|].
        eexists. split; [cbn; by rewrite Hl|].
        split_and!; [done| |cbn; right; by left].
        unfold entry_inv. cbn. split; [done|discriminate].
    + intros [= <- <-]. split; [done|]. left. by exists e.
Qed.

Lemma test_items_cases w tz items st r st' :
  test_items w tz items st = (r, st') ->
  metadata_json st' = metadata_json st /\
  (r = Ok tt ->
   exists entries,
     metadata_list st' = (metadata_list st ++ entries)%list /\
     identity <$> entries =
       (fun im => identity (seed_entry (Z.of_nat (S im.1)) im.2)) <$> items /\
     Forall entry_inv entries /\
     Forall (fun e => status e ∈ ["success"; "failed"]) entries).
Proof.
  revert st. induction items as [|[i memory] items IH]; intros st; cbn [test_items].
  - intros [= <- <-]. split; [done|]. intros _. exists []. by rewrite app_nil_r.
  - rewrite bind_run. destruct (test_item w tz i memory st) as [[[]|e] st1] eqn:E;
      apply test_item_cases in E as [Hj Hcases].
    + destruct Hcases as [(e & [=] & _)|(_ & entry & Hl & Hid & Hinv & Hs)].
      intros Hrest. apply IH in Hrest as [Hj' Hok]. split; [congruence|].
      intros ->. destruct (Hok eq_refl) as (entries & Hl' & Hids & Hinvs & Hss).
      exists (entry :: entries). split_and!.
      * rewrite Hl', Hl. by rewrite <- app_assoc.
      * cbn. by rewrite Hid, Hids.
      * by constructor.
      * by constructor.
    + intros [= <- <-]. split; [done|]. discriminate.
Qed.

Lemma seed_as_enumerate memories :
  identity <$> seed memories =
  (fun im => identity (seed_entry (Z.of_nat (S im.1)) im.2)) <$> enumerate memories.
Proof.
  unfold seed, enumerate. rewrite !fmap_imap. by apply imap_ext.
Qed.

(** A test run that completes has replaced the ledger document, whatever
    it was, by a ledger of the first three records at most: numbered from 1,
    with the records' dates and URLs, each entry succeeded with files or
    failed without.  An existing ledger of a full run is lost. *)
Theorem test_mode_replaces_ledger (w : World) (tz : timezone)
    (memories : list Memory) (st st' : State) :
  test_mode w tz memories st = (Ok tt, st') ->
  metadata_json st' = Stored (metadata_list st') /\
  (length (metadata_list st') <= 3)%nat /\
  identity <$> metadata_list st' = identity <$> seed (take 3 memories) /\
  Forall entry_inv (metadata_list st') /\
  Forall (fun e => status e ∈ ["success"; "failed"]) (metadata_list st').
Proof.
  unfold test_mode. rewrite bind_run. unfold set_metadata_list at 1. rewrite bind_run.
  destruct (test_items _ _ _ _) as [[[]|e] st1] eqn:E; [|done].
  apply test_items_cases in E as [_ Hok].
  destruct (Hok eq_refl) as (entries & Hl & Hids & Hinvs & Hss). cbn in Hl.
  intros Hs. apply save_metadata_cases in Hs
    as (Hl' & _ & _ & [(_ & Hj & _)|(e & [=] & _)]).
  rewrite Hj, Hl', Hl.
  split_and!; [done| |by rewrite seed_as_enumerate|done|done].
  apply (f_equal length) in Hids. rewrite !length_fmap in Hids. rewrite Hids.
  unfold enumerate. rewrite length_imap, length_take. lia.
Qed.

Lemma test_mode_replaces_ledger_witness :
  metadata_json
    (test_mode Examples.offline UTC Examples.two_memories
       (initial_state (Stored Cases.failed_once) ∅ ∅)).2
  = Stored (metadata_list
    (test_mode Examples.offline UTC Examples.two_memories
       (initial_state (Stored Cases.failed_once) ∅ ∅)).2) /\
  (length (metadata_list
    (test_mode Examples.offline UTC Examples.two_memories
       (initial_state (Stored Cases.failed_once) ∅ ∅)).2) <= 3)%nat /\
  identity <$> metadata_list
    (test_mode Examples.offline UTC Examples.two_memories
       (initial_state (Stored Cases.failed_once) ∅ ∅)).2
  = identity <$> seed (take 3 Examples.two_memories) /\
  Forall entry_inv (metadata_list
    (test_mode Examples.offline UTC Examples.two_memories
       (initial_state (Stored Cases.failed_once) ∅ ∅)).2) /\
  Forall (fun e => status e ∈ ["success"; "failed"]) (metadata_list
    (test_mode Examples.offline UTC Examples.two_memories
       (initial_state (Stored Cases.failed_once) ∅ ∅)).2).
Proof.
  apply (test_mode_replaces_ledger Examples.offline UTC Examples.two_memories
           (initial_state (Stored Cases.failed_once) ∅ ∅)).
  by vm_compute.
Defined.

(** The test loop writes the ledger document once, at the end: a test run
    that an exception ends leaves the document as it was, with no record
    of what was downloaded before; unless the exception is that of the
    final write itself, which can leave the document cut short. *)
Theorem test_mode_aborted_writes_no_ledger (w : World) (tz : timezone)
    (memories : list Memory) (st st' : State) (e : exn) :
  test_mode w tz memories st = (Raise e, st') ->
  metadata_json st' = metadata_json st \/
  (write_failure w e /\ metadata_json st' = Truncated).
Proof.
  unfold test_mode. rewrite bind_run. unfold set_metadata_list at 1. rewrite bind_run.
  destruct (test_items _ _ _ _) as [[[]|e'] st1] eqn:E.
  - apply test_items_cases in E as [Hj _]. cbn [metadata_json] in Hj.
    intros Hs. apply save_metadata_cases in Hs
      as (_ & _ & _ & [([=] & _)|(e' & [= <-] & Hw & _ & [Hj'|Hj'])]).
    + left. by rewrite Hj', Hj.
    + right. done.
  - apply test_items_cases in E as [Hj _]. intros [= <- <-]. by left.
Qed.

Lemma test_mode_aborted_writes_no_ledger_witness :
  metadata_json
    (test_mode (Examples.serving Examples.encrypted_archive) UTC Examples.two_memories
       (initial_state (Stored Cases.failed_once) ∅ ∅)).2
  = metadata_json (initial_state (Stored Cases.failed_once) ∅ ∅) \/
  (write_failure (Examples.serving Examples.encrypted_archive) Examples.encrypted /\
   metadata_json
     (test_mode (Examples.serving Examples.encrypted_archive) UTC Examples.two_memories
        (initial_state (Stored Cases.failed_once) ∅ ∅)).2
   = Truncated).
Proof.
  apply (test_mode_aborted_writes_no_ledger
           (Examples.serving Examples.encrypted_archive) UTC Examples.two_memories
           (initial_state (Stored Cases.failed_once) ∅ ∅)
           (test_mode (Examples.serving Examples.encrypted_archive) UTC
              Examples.two_memories (initial_state (Stored Cases.failed_once) ∅ ∅)).2
           Examples.encrypted).
  by vm_compute.
Defined.

(* ===================================================================== *)
(** * The HTML parser                                                     *)
(* ===================================================================== *)

Lemma match_url_here_nonempty s u : match_url_here s = Some u -> u <> "".
Proof.
  unfold match_url_here. destruct (strip_prefix _ s) as [rest|]; [|done].
  destruct (span_unquoted rest) as [[|c run] [|c' rest']]; try done.
  by intros [= <-].
Qed.

Lemma search_url_nonempty s u : search_url s = Some u -> u <> "".
Proof.
  induction s as [|c s IH]; cbn [search_url].
  - destruct (match_url_here "") eqn:E; [|done].
    intros [= <-]. by eapply match_url_here_nonempty.
  - destruct (match_url_here (String c s)) eqn:E; [|done].
    intros [= <-]. by eapply match_url_here_nonempty.
Qed.

Lemma row_ok_empty : row_ok ∅.
Proof.
  unfold row_ok. rewrite !lookup_empty. split_and!; try done.
Qed.

Lemma row_ok_url row u : row_ok row -> u <> "" -> row_ok (<["url" := u]> row).
Proof.
  intros (Hu & Hd & Hm & Hl) Hne. unfold row_ok.
  rewrite lookup_insert_eq, !lookup_insert_ne by done.
  split_and!; [by intros ? [= <-]|done..].
Qed.

Lemma row_ok_scan_attrs attrs row :
  row_ok row -> row_ok (MemoriesParser.scan_attrs attrs row).
Proof.
  revert row. induction attrs as [|[name [v|]] attrs IH]; intros row Hok;
    cbn [MemoriesParser.scan_attrs]; [done| |by apply IH].
  apply IH. destruct (_ && _); [|done].
  destruct (search_url v) as [u|] eqn:E; [|done].
  apply row_ok_url; [done|]. by eapply search_url_nonempty.
Qed.

Lemma handle_data_row_ok self data :
  row_ok (MemoriesParser.current_row self) ->
  row_ok (MemoriesParser.current_row (MemoriesParser.handle_data self data)).
Proof.
  intros Hok. pose proof Hok as (Hu & Hd & Hm & Hl).
  unfold MemoriesParser.handle_data.
  destruct (_ && _); [|done].
  destruct (contains "UTC" (strip data)) eqn:Eutc.
  { cbn. unfold row_ok. rewrite lookup_insert_eq, !lookup_insert_ne by done.
    split_and!; [done| |done|done]. intros ? [= <-]. by apply contains_spec. }
  case_bool_decide as Emt.
  { cbn. unfold row_ok. rewrite lookup_insert_eq, !lookup_insert_ne by done.
    split_and!; [done|done| |done]. intros ? [= <-].
    apply elem_of_cons in Emt as [?|Emt]; [by left|].
    apply list_elem_of_singleton in Emt. by right. }
  destruct (contains "Latitude, Longitude:" (strip data)); [|done].
  destruct (split_on "," _) as [|lat [|lon [|? ?]]]; try done.
  cbn. unfold row_ok.
  repeat (rewrite lookup_insert_eq || rewrite lookup_insert_ne by done).
  split_and!; [done|done|done|]. split; by eexists.
Qed.

(** The rows kept so far and the row under construction satisfy [row_ok],
    and every kept row has a URL and a date. *)
Lemma handle_keeps_rows_ok self ev :
  row_ok (MemoriesParser.current_row self) ->
  Forall (fun row => is_Some (to_memory row) /\ row_ok row)
         (MemoriesParser.memories self) ->
  row_ok (MemoriesParser.current_row (MemoriesParser.handle self ev)) /\
  Forall (fun row => is_Some (to_memory row) /\ row_ok row)
         (MemoriesParser.memories (MemoriesParser.handle self ev)).
Proof.
  intros Hrow Hmem. destruct ev as [tag attrs|data|tag]; cbn [MemoriesParser.handle].
  - unfold MemoriesParser.handle_starttag.
    case_bool_decide; [split; [apply row_ok_empty|done]|].
    destruct (_ && _); [done|]. destruct (_ && _); [|done].
    split; [|done]. by apply row_ok_scan_attrs.
  - split; [by apply handle_data_row_ok|].
    unfold MemoriesParser.handle_data. destruct (_ && _); [|done].
    destruct (contains "UTC" _); [done|]. case_bool_decide; [done|].
    destruct (contains "Latitude, Longitude:" _); [|done].
    by destruct (split_on "," _) as [|lat [|lon [|? ?]]].
  - unfold MemoriesParser.handle_endtag.
    case_bool_decide; [done|]. destruct (_ && _); [|done].
    cbn. split; [apply row_ok_empty|].
    destruct (bool_decide (is_Some (MemoriesParser.current_row self !! "url"))) eqn:Eu;
      [|done].
    destruct (bool_decide (is_Some (MemoriesParser.current_row self !! "date"))) eqn:Ed;
      [|done].
    cbn. apply Forall_app. split; [done|]. apply Forall_singleton. split; [|done].
    apply bool_decide_eq_true in Eu as [u Hu], Ed as [d Hd].
    unfold to_memory. rewrite Hu, Hd. by eexists.
Qed.

(** Every row that the parser delivers has a URL, which is not empty, and
    a date, which contains ['UTC'], so that the orchestrator's
    [memory['url']] never fails; its media type, when it has one, is
    ['Image'] or ['Video']; and it has a latitude exactly when it has a
    longitude.  Rows of the document without a link or without a date are
    dropped. *)
Theorem parsed_rows_are_well_formed (evs : list html_event) :
  Forall (fun row => is_Some (to_memory row) /\ row_ok row) (parse_html_events evs).
Proof.
  unfold parse_html_events, MemoriesParser.feed.
  assert (Hgen : forall self,
            row_ok (MemoriesParser.current_row self) ->
            Forall (fun row => is_Some (to_memory row) /\ row_ok row)
                   (MemoriesParser.memories self) ->
            Forall (fun row => is_Some (to_memory row) /\ row_ok row)
                   (MemoriesParser.memories (foldl MemoriesParser.handle self evs))).
  { induction evs as [|ev evs IH]; intros self Hrow Hmem; [done|].
    cbn [foldl]. destruct (handle_keeps_rows_ok self ev Hrow Hmem). by apply IH. }
  apply Hgen; [apply row_ok_empty|done].
Qed.

(** A table without a link in one row and without a date in another: only
    the complete row is kept. *)
Example incomplete_rows_are_dropped :
  map_to_list <$> parse_html_events
    ([StartTag "tr" []; StartTag "td" []; Data "2024-01-01 12:00:00 UTC"; EndTag "td";
      EndTag "tr"] ++
     [StartTag "tr" []; StartTag "td" [];
      StartTag "a" [("onclick", Some "downloadMemories('https://example.com/1', this)")];
      EndTag "a"; EndTag "td"; EndTag "tr"] ++
     export_row "2024-01-02 13:30:00 UTC"
       "downloadMemories('https://example.com/2', this, true); return false;"
       "Video" "Latitude, Longitude: 40.71, -74.00")
  = [[("media_type", "Video"); ("url", "https://example.com/2");
      ("longitude", "-74.00"); ("latitude", "40.71");
      ("date", "2024-01-02 13:30:00 UTC")]].
Proof. by vm_compute. Qed.

(** Two parser states that are alike handle an event alike: they stay
    alike and keep the same new rows. *)
Lemma handle_alike p q ev :
  alike p q ->
  alike (MemoriesParser.handle p ev) (MemoriesParser.handle q ev) /\
  exists new,
    MemoriesParser.memories (MemoriesParser.handle p ev)
      = (MemoriesParser.memories p ++ new)%list /\
    MemoriesParser.memories (MemoriesParser.handle q ev)
      = (MemoriesParser.memories q ++ new)%list.
Proof.
  intros (Htag & Hin & Hrow).
  destruct ev as [tag attrs|data|tag]; cbn [MemoriesParser.handle].
  - unfold MemoriesParser.handle_starttag. rewrite <- Hin.
    case_bool_decide.
    { split; [done|]. exists []. by rewrite !app_nil_r. }
    destruct (bool_decide (tag = "td") && MemoriesParser.in_table_row p) eqn:E1.
    { split; [by split_and!|]. exists []. by rewrite !app_nil_r. }
    destruct (bool_decide (tag = "a") && MemoriesParser.in_table_row p) eqn:E2.
    + apply andb_true_iff in E2 as [_ E2].
      split; [|exists []; by rewrite !app_nil_r].
      split_and!; [done|done|]. intros _. cbn. by rewrite Hrow.
    + split; [by split_and!|]. exists []. by rewrite !app_nil_r.
  - unfold MemoriesParser.handle_data. rewrite <- Htag.
    assert (Hset : forall f : gmap string string -> gmap string string,
              alike (MemoriesParser.set_row p (f (MemoriesParser.current_row p)))
                    (MemoriesParser.set_row q (f (MemoriesParser.current_row q))) /\
              exists new,
                MemoriesParser.memories
                  (MemoriesParser.set_row p (f (MemoriesParser.current_row p)))
                  = (MemoriesParser.memories p ++ new)%list /\
                MemoriesParser.memories
                  (MemoriesParser.set_row q (f (MemoriesParser.current_row q)))
                  = (MemoriesParser.memories q ++ new)%list).
    { intros f. split; [|exists []; by rewrite !app_nil_r].
      split_and!; [done|done|]. cbn. intros Hp. by rewrite (Hrow Hp). }
    assert (Hsame : alike p q /\ exists new,
              MemoriesParser.memories p = (MemoriesParser.memories p ++ new)%list /\
              MemoriesParser.memories q = (MemoriesParser.memories q ++ new)%list).
    { split; [by split_and!|]. exists []. by rewrite !app_nil_r. }
    destruct (_ && _); [|done].
    destruct (contains "UTC" _); [apply (Hset (insert "date" _))|].
    case_bool_decide; [apply (Hset (insert "media_type" _))|].
    destruct (contains "Latitude, Longitude:" _); [|done].
    destruct (split_on "," _) as [|lat [|lon [|? ?]]]; try done.
    apply (Hset (fun row => <["longitude" := strip lon]> (<["latitude" := strip lat]> row))).
  - unfold MemoriesParser.handle_endtag. rewrite <- Hin.
    case_bool_decide.
    { split; [by split_and!|]. exists []. by rewrite !app_nil_r. }
    destruct (bool_decide (tag = "tr") && MemoriesParser.in_table_row p) eqn:E1.
    + apply andb_true_iff in E1 as [_ E1]. rewrite <- (Hrow E1).
      split; [by split_and!|]. cbn.
      destruct (_ && _); [by eexists|]. exists []. by rewrite !app_nil_r.
    + split; [by split_and!|]. exists []. by rewrite !app_nil_r.
Qed.

Lemma feed_alike p q evs :
  alike p q ->
  exists new,
    MemoriesParser.memories (MemoriesParser.feed p evs)
      = (MemoriesParser.memories p ++ new)%list /\
    MemoriesParser.memories (MemoriesParser.feed q evs)
      = (MemoriesParser.memories q ++ new)%list.
Proof.
  unfold MemoriesParser.feed. revert p q.
  induction evs as [|ev evs IH]; intros p q Hpq.
  - exists []. by rewrite !app_nil_r.
  - cbn [foldl]. destruct (handle_alike p q ev Hpq) as (Hpq' & new1 & Hp1 & Hq1).
    destruct (IH _ _ Hpq') as (new2 & Hp2 & Hq2).
    exists (new1 ++ new2)%list. rewrite Hp2, Hq2, Hp1, Hq1. by rewrite !app_assoc.
Qed.

(** Rows are parsed one by one: once a part of the document has ended
    outside any row and cell, the rows kept from it are never changed, and
    the rest of the document is parsed as a document of its own. *)
Theorem parse_html_events_app (evs1 evs2 : list html_event) :
  MemoriesParser.in_table_row (MemoriesParser.feed MemoriesParser.init evs1) = false ->
  MemoriesParser.current_tag (MemoriesParser.feed MemoriesParser.init evs1) = None ->
  parse_html_events (evs1 ++ evs2) = (parse_html_events evs1 ++ parse_html_events evs2)%list.
Proof.
  intros Hin Htag. unfold parse_html_events.
  replace (MemoriesParser.feed MemoriesParser.init (evs1 ++ evs2))
    with (MemoriesParser.feed (MemoriesParser.feed MemoriesParser.init evs1) evs2)
    by (unfold MemoriesParser.feed; by rewrite foldl_app).
  destruct (feed_alike (MemoriesParser.feed MemoriesParser.init evs1)
              MemoriesParser.init evs2) as (new & Hp & Hq).
  { split_and!; [done|done|]. rewrite Hin. done. }
  rewrite Hp, Hq. done.
Qed.

Lemma parse_html_events_app_witness :
  parse_html_events
    (export_row "2024-01-01 12:00:00 UTC" "downloadMemories('https://example.com/1', 1)"
       "Image" "" ++
     export_row "2024-01-02 13:30:00 UTC" "downloadMemories('https://example.com/2', 1)"
       "Video" "")
  = (parse_html_events
       (export_row "2024-01-01 12:00:00 UTC"
          "downloadMemories('https://example.com/1', 1)" "Image" "") ++
     parse_html_events
       (export_row "2024-01-02 13:30:00 UTC"
          "downloadMemories('https://example.com/2', 1)" "Video" ""))%list.
Proof.
  apply parse_html_events_app; reflexivity.
Defined.

(* ===================================================================== *)
(** * Dates of the export parse back                                      *)
(* ===================================================================== *)

Lemma first_match_mseq {A B} (p : matcher A) (k : A -> matcher B) s a s' x :
  first_match (p s) (a, s') -> first_match (k a s') x -> first_match (mseq p k s) x.
Proof.
  intros [o1 H1] [o2 H2]. unfold mseq. rewrite H1. cbn [flat_map]. rewrite H2.
  by eexists.
Qed.

Lemma first_match_mret {A} (a : A) s : first_match (mret a s) (a, s).
Proof. by exists []. Qed.

Lemma first_match_lit c s : first_match (lit c (String c s)) (tt, s).
Proof. exists []. cbn. by rewrite bool_decide_eq_true_2. Qed.

(** A number below [n], as a natural number. *)
Lemma below_as_nat (n : nat) (v : Z) :
  0 <= v < Z.of_nat n -> exists k : nat, v = Z.of_nat k /\ (k < n)%nat.
Proof. intros H. exists (Z.to_nat v). lia. Qed.

Tactic Notation "by_cases_below" integer(i) constr(n) constr(v) hyp(H) :=
  let k := fresh "k" in
  let Hk := fresh "Hk" in
  destruct (below_as_nat n v H) as (k & -> & Hk);
  do i (destruct k as [|k];
        [first [vm_compute; first [reflexivity | eexists; reflexivity]
               | exfalso; lia]|]);
  exfalso; lia.

Lemma two_digits_any v rest :
  0 <= v < 100 ->
  two_digits "0" "9" "0" "9" (two_digit v +:+ rest) = [(v, rest)].
Proof. intros H. by_cases_below 100 100%nat v H. Qed.

Lemma re_Y_year y rest :
  0 <= y < 10000 ->
  first_match (re_Y (two_digit (y / 100) +:+ two_digit (y mod 100) +:+ rest)) (y, rest).
Proof.
  intros H. unfold re_Y.
  eapply first_match_mseq.
  { rewrite two_digits_any by (split; [apply Z.div_pos; lia|apply Z.div_lt_upper_bound; lia]).
    by eexists. }
  eapply first_match_mseq.
  { rewrite two_digits_any by (apply Z.mod_pos_bound; lia). by eexists. }
  replace (100 * (y / 100) + y mod 100) with y by (rewrite <- Z.div_mod; lia).
  apply first_match_mret.
Qed.

Lemma re_m_month v rest :
  1 <= v <= 12 -> first_match (re_m (two_digit v +:+ rest)) (v, rest).
Proof.
  intros H. assert (H' : 0 <= v < Z.of_nat 13) by lia. by_cases_below 13 13%nat v H'.
Qed.

Lemma re_d_day v rest :
  1 <= v <= 31 -> first_match (re_d (two_digit v +:+ rest)) (v, rest).
Proof.
  intros H. assert (H' : 0 <= v < Z.of_nat 32) by lia. by_cases_below 32 32%nat v H'.
Qed.

Lemma re_H_hour v rest :
  0 <= v <= 23 -> first_match (re_H (two_digit v +:+ rest)) (v, rest).
Proof.
  intros H. assert (H' : 0 <= v < Z.of_nat 24) by lia. by_cases_below 24 24%nat v H'.
Qed.

Lemma re_M_minute v rest :
  0 <= v <= 59 -> first_match (re_M (two_digit v +:+ rest)) (v, rest).
Proof.
  intros H. assert (H' : 0 <= v < Z.of_nat 60) by lia. by_cases_below 60 60%nat v H'.
Qed.

Lemma re_S_second v rest :
  0 <= v <= 59 -> first_match (re_S (two_digit v +:+ rest)) (v, rest).
Proof.
  intros H. assert (H' : 0 <= v < Z.of_nat 60) by lia. by_cases_below 60 60%nat v H'.
Qed.

Lemma spaces_one v rest :
  0 <= v <= 23 ->
  first_match (spaces (String " " (two_digit v +:+ rest))) (tt, two_digit v +:+ rest).
Proof.
  intros H. assert (H' : 0 <= v < Z.of_nat 24) by lia. by_cases_below 24 24%nat v H'.
Qed.

Lemma append_nil_r (s : string) : s +:+ "" = s.
Proof. induction s as [|c s IH]; [done|]. by rewrite append_cons, IH. Qed.

Lemma append_assoc (a b c : string) : (a +:+ b) +:+ c = a +:+ (b +:+ c).
Proof. induction a as [|x a IH]; [done|]. by rewrite !append_cons, IH. Qed.

Lemma valid_datetime_ranges dt :
  valid_datetime dt ->
  1 <= year dt <= 9999 /\ 1 <= month dt <= 12 /\ 1 <= day dt <= 31 /\
  0 <= hour dt <= 23 /\ 0 <= minute dt <= 59 /\ 0 <= second dt <= 59.
Proof.
  unfold valid_datetime, datetime_new. intros H.
  repeat match type of H with
         | (if negb ?b then _ else _) = _ =>
             destruct b eqn:?; cbn [negb] in H; [|discriminate]
         end.
  repeat match goal with
         | E : (_ && _) = true |- _ => apply andb_true_iff in E as [? ?]
         | E : (_ <=? _) = true |- _ => apply Z.leb_le in E
         end.
  assert (days_in_month (year dt) (month dt) <= 31).
  { unfold days_in_month. repeat destruct (_ =? _); cbn; try destruct (is_leap _); lia. }
  lia.
Qed.

(** The regular expression of the format reads the digits of a valid
    date back, consuming all of them, in its first match. *)
Lemma re_format_date_digits dt :
  valid_datetime dt ->
  first_match (re_format (date_digits dt))
    ((year dt, month dt, day dt, hour dt, minute dt, second dt), "").
Proof.
  intros Hv. destruct (valid_datetime_ranges dt Hv) as (Hy & Hm & Hd & Hh & Hmi & Hs).
  unfold re_format, date_digits.
  eapply first_match_mseq; [apply re_Y_year; lia|].
  rewrite append_cons, append_nil_l.
  eapply first_match_mseq; [apply first_match_lit|].
  eapply first_match_mseq; [by apply re_m_month|].
  rewrite append_cons, append_nil_l.
  eapply first_match_mseq; [apply first_match_lit|].
  eapply first_match_mseq; [by apply re_d_day|].
  rewrite append_cons, append_nil_l.
  eapply first_match_mseq; [by apply spaces_one|].
  eapply first_match_mseq; [by apply re_H_hour|].
  rewrite append_cons, append_nil_l.
  eapply first_match_mseq; [apply first_match_lit|].
  eapply first_match_mseq; [by apply re_M_minute|].
  rewrite append_cons, append_nil_l.
  eapply first_match_mseq; [apply first_match_lit|].
  eapply first_match_mseq.
  { rewrite <- (append_nil_r (two_digit (second dt))).
    by apply re_S_second. }
  apply first_match_mret.
Qed.

Lemma strptime_date_digits dt : valid_datetime dt -> strptime (date_digits dt) = Ok dt.
Proof.
  intros Hv. unfold strptime.
  destruct (re_format_date_digits dt Hv) as [others ->].
  by rewrite bool_decide_eq_true_2.
Qed.

Lemma replace_two_digit v rest :
  0 <= v < 100 ->
  replace_from " UTC" "" 0 (two_digit v +:+ rest)
  = two_digit v +:+ replace_from " UTC" "" 0 rest.
Proof. intros H. by_cases_below 100 100%nat v H. Qed.

Lemma replace_space_two_digit v rest :
  0 <= v < 100 ->
  replace_from " UTC" "" 0 (String " " (two_digit v +:+ rest))
  = String " " (two_digit v +:+ replace_from " UTC" "" 0 rest).
Proof. intros H. by_cases_below 100 100%nat v H. Qed.

Lemma replace_punct c rest :
  c = "-"%char \/ c = ":"%char ->
  replace_from " UTC" "" 0 (String c rest) = String c (replace_from " UTC" "" 0 rest).
Proof. by intros [-> | ->]. Qed.

(** Removing [' UTC'] from a date of the export leaves its digits. *)
Lemma replace_export_date dt :
  valid_datetime dt -> replace " UTC" "" (export_date dt) = date_digits dt.
Proof.
  intros Hv. destruct (valid_datetime_ranges dt Hv) as (Hy & Hm & Hd & Hh & Hmi & Hs).
  unfold replace, export_date, date_digits.
  assert (0 <= year dt / 100 < 100)
    by (split; [apply Z.div_pos; lia|apply Z.div_lt_upper_bound; lia]).
  assert (0 <= year dt mod 100 < 100) by (apply Z.mod_pos_bound; lia).
  rewrite !append_assoc.
  rewrite !replace_two_digit by lia.
  rewrite append_cons, append_nil_l, replace_punct by auto.
  rewrite replace_two_digit by lia.
  rewrite append_cons, append_nil_l, replace_punct by auto.
  rewrite replace_two_digit by lia.
  rewrite append_cons, append_nil_l, replace_space_two_digit by lia.
  rewrite append_cons, append_nil_l, replace_punct by auto.
  rewrite replace_two_digit by lia.
  rewrite append_cons, append_nil_l, replace_punct by auto.
  rewrite replace_two_digit by lia.
  reflexivity.
Qed.

(** A date written the way the export writes it parses back to the same
    date: [strptime] after the removal of [' UTC'] is the inverse of the
    export's formatting, for every date that [datetime] accepts. *)
Theorem export_dates_parse_back (dt : datetime) :
  valid_datetime dt ->
  strptime (replace " UTC" "" (export_date dt)) = Ok dt.
Proof.
  intros Hv. rewrite replace_export_date by done. by apply strptime_date_digits.
Qed.

Lemma export_dates_parse_back_witness :
  strptime (replace " UTC" "" (export_date (Datetime 2024 2 29 18 0 0)))
  = Ok (Datetime 2024 2 29 18 0 0).
Proof.
  apply export_dates_parse_back. reflexivity.
Defined.

(** On a host whose zone is a fixed [off] seconds east of UTC, every
    valid date of the export (from the second day of year 1 on, and with
    the shifted time inside the years 1..9999) gives the instant its
    digits name in UTC, minus [off]: exactly the UTC instant on a host set
    to UTC, and an instant that is off by the host's offset anywhere
    else.  Nothing is printed, so the standard output plays no part. *)
Theorem export_date_timestamp (out : Stdout) (dt : datetime) (off : Z) :
  valid_datetime dt ->
  min_wall + 86400 <= wall_seconds dt <= max_wall ->
  min_wall <= wall_seconds dt + off <= max_wall ->
  parse_date_to_timestamp out (fixed_offset off) (PyStr (export_date dt))
  = Ok (Some (utc_instant dt - off)).
Proof.
  intros Hv Hr Hoff.
  apply parse_date_to_timestamp_fixed_offset;
    [|lia|lia|done].
  rewrite replace_export_date by done. by apply strptime_date_digits.
Qed.

Lemma export_date_timestamp_witness :
  parse_date_to_timestamp Examples.ascii_stdout (fixed_offset (-18000))
    (PyStr (export_date (Datetime 2024 6 15 12 30 45)))
  = Ok (Some (utc_instant (Datetime 2024 6 15 12 30 45) - (-18000))).
Proof.
  apply export_date_timestamp.
  - reflexivity.
  - vm_compute. split; discriminate.
  - vm_compute. split; discriminate.
Defined.

(** The first day of year 1 is out of reach of [timestamp] even on a host
    set to UTC: the date is valid, and the result is [None]. *)
Example first_day_has_no_timestamp :
  valid_datetime (Datetime 1 1 1 12 0 0) /\
  parse_date_to_timestamp quiet UTC (PyStr (export_date (Datetime 1 1 1 12 0 0)))
  = Ok None.
Proof. by vm_compute. Qed.

(* ===================================================================== *)
(** * File names of different records                                     *)
(* ===================================================================== *)

Lemma numeral_head d :
  d <> Decimal.Nil ->
  exists c rest, NilEmpty.string_of_uint d = String c rest /\ is_digit c = true.
Proof. destruct d; [done|..]; intros _; cbn; by do 2 eexists. Qed.

(** Numerals followed by something that is no digit are read in one way
    only. *)
Lemma numeral_unique d d' s s' :
  starts_without_digit s -> starts_without_digit s' ->
  NilEmpty.string_of_uint d +:+ s = NilEmpty.string_of_uint d' +:+ s' ->
  d = d'.
Proof.
  intros Hs Hs'. revert d'.
  induction d as [|d IH|d IH|d IH|d IH|d IH|d IH|d IH|d IH|d IH|d IH];
    intros [|d'|d'|d'|d'|d'|d'|d'|d'|d'|d']; cbn [NilEmpty.string_of_uint];
    rewrite ?append_nil_l, ?append_cons; intros Heq;
    try done;
    try (injection Heq as Heq; f_equal; by apply IH);
    try discriminate Heq;
    try (rewrite Heq in Hs; by vm_compute in Hs);
    try (rewrite <- Heq in Hs'; by vm_compute in Hs').
Qed.

(** [f"{n:02d}"] is a sign and a numeral of the absolute value, with a
    zero in front where the width asks for one. *)
Lemma format_02d_shape n :
  exists d, d <> Decimal.Nil /\ Z.of_uint d = Z.abs n /\
    format_02d n = (if n <? 0 then "-" else "") +:+ NilEmpty.string_of_uint d.
Proof.
  unfold format_02d. destruct n as [|p|p]; cbn [Z.to_int NilZero.string_of_int].
  - by exists (Decimal.D0 (Decimal.D0 Decimal.Nil)).
  - pose proof (DecimalPos.Unsigned.to_uint_nonnil p) as Hnil.
    assert (NilZero.string_of_uint (Pos.to_uint p)
            = NilEmpty.string_of_uint (Pos.to_uint p)) as ->
      by (by destruct (Pos.to_uint p)).
    assert (Z.of_uint (Pos.to_uint p) = Z.pos p) as Hval
      by (unfold Z.of_uint; by rewrite DecimalPos.Unsigned.of_to).
    destruct (_ <? _)%nat.
    + exists (Decimal.D0 (Pos.to_uint p)). by split_and!.
    + exists (Pos.to_uint p). by split_and!.
  - pose proof (DecimalPos.Unsigned.to_uint_nonnil p) as Hnil.
    assert (NilZero.string_of_uint (Pos.to_uint p)
            = NilEmpty.string_of_uint (Pos.to_uint p)) as ->
      by (by destruct (Pos.to_uint p)).
    assert (Z.of_uint (Pos.to_uint p) = Z.pos p) as Hval
      by (unfold Z.of_uint; by rewrite DecimalPos.Unsigned.of_to).
    destruct (numeral_head _ Hnil) as (c & rest & Hd & _).
    exists (Pos.to_uint p). split_and!; [done|done|].
    rewrite Hd. by cbn.
Qed.

Lemma file_number_unique n m s s' :
  starts_without_digit s -> starts_without_digit s' ->
  format_02d n +:+ s = format_02d m +:+ s' -> n = m.
Proof.
  intros Hs Hs'.
  destruct (format_02d_shape n) as (d & Hd & Hv & ->).
  destruct (format_02d_shape m) as (d' & Hd' & Hv' & ->).
  destruct (numeral_head _ Hd) as (c & rest & Hc & Hdig).
  destruct (numeral_head _ Hd') as (c' & rest' & Hc' & Hdig').
  destruct (Z.ltb_spec n 0), (Z.ltb_spec m 0); rewrite ?append_nil_l, ?append_cons.
  - intros [= Heq]. apply numeral_unique in Heq; [|done..]. subst d'. lia.
  - rewrite Hc'. rewrite append_cons. intros [= <- _]. by vm_compute in Hdig'.
  - rewrite Hc. rewrite append_cons. intros [= -> _]. by vm_compute in Hdig.
  - intros Heq. apply numeral_unique in Heq; [|done..]. subst d'. lia.
Qed.

Lemma output_names_shape file_num media_type p :
  p ∈ output_names file_num (get_file_extension media_type) ->
  exists s, p = file_num +:+ s /\ starts_without_digit s.
Proof.
  unfold output_names, main_filename, overlay_filename, get_file_extension.
  rewrite !elem_of_cons, elem_of_nil.
  case_bool_decide; intros [->|[->|[->|[]]]]; by eexists.
Qed.

(** Two records with different numbers never write to the same file: the
    names [download_and_extract] can use for one are all different from
    the names it can use for the other, whatever the media types. *)
Theorem records_do_not_share_files (n m : Z) (media_type media_type' p : string) :
  n <> m ->
  p ∈ output_names (format_02d n) (get_file_extension media_type) ->
  p ∉ output_names (format_02d m) (get_file_extension media_type').
Proof.
  intros Hnm (s & -> & Hs)%output_names_shape (s' & Heq & Hs')%output_names_shape.
  by apply file_number_unique in Heq.
Qed.

Lemma records_do_not_share_files_witness :
  "07-main.jpg" ∉ output_names (format_02d 70) (get_file_extension "Video").
Proof.
  apply (records_do_not_share_files 7 70 "Image" "Video" "07-main.jpg").
  - lia.
  - vm_compute. right. left.
Defined.

(** Downloading the record numbered [n] leaves every file of a record
    with another number as it was, whatever the server sends and however
    the download ends. *)
Theorem records_keep_their_files (w : World) (u : string) (n m : Z)
    (media_type media_type' p : string) (st : State) :
  n <> m ->
  p ∈ output_names (format_02d m) (get_file_extension media_type') ->
  fs_files (download_and_extract w u (format_02d n) (get_file_extension media_type) st).2
    !! p
  = fs_files st !! p.
Proof.
  intros Hnm (s' & -> & Hs')%output_names_shape.
  destruct (download_and_extract_wrote w u (format_02d n)
              (get_file_extension media_type) st) as (_ & _ & _ & Hfiles & _).
  rewrite Hfiles; [done|].
  intros (s & Heq & Hs)%output_names_shape.
  by apply file_number_unique in Heq.
Qed.

Lemma records_keep_their_files_witness :
  fs_files
    (download_and_extract (Examples.serving Examples.overlay_archive)
       "https://example.com/2" (format_02d 2) (get_file_extension "Image")
       (mkState [] Absent {["01-main.jpg" := Examples.jpeg]} ∅ [])).2
    !! "01-main.jpg"
  = fs_files (mkState [] Absent {["01-main.jpg" := Examples.jpeg]} ∅ []) !! "01-main.jpg".
Proof.
  apply (records_keep_their_files (Examples.serving Examples.overlay_archive)
           "https://example.com/2" 2 1 "Image" "Image" "01-main.jpg").
  - lia.
  - vm_compute. right. left.
Defined.
